(** * Pithos client: chunked, content-addressed object upload

    A shallow embedding of [kamaki/clients/pithos.py]: the block hasher
    [pithos_hash], the single-block upload [put_block], the hash-map
    negotiation of [create_object], the range writers [append_object],
    [overwrite_object] and [truncate_object], and the operations that
    post groups, metadata, policies and sharing as headers; together
    with the properties the design document states about them and
    others that the code shows.  The two functions of
    [kamaki/cli/__init__.py] that choose the commands to load are
    embedded as well.

    Python integers are [Z]; byte strings ([str] holding file data) are
    [list byte]; text (fingerprints, header names, response bodies) is
    [string]; the [map] dictionary of [create_object] is a [gmap]. *)

From Stdlib Require Import ZArith Lia List Ascii String Strings.Byte.
From stdpp Require Import base option list strings pretty gmap.

Local Open Scope Z_scope.

(** ** Byte strings *)

Abbreviation bytes := (list byte).

Definition byte_eqb (a b : byte) : bool := Byte.eqb a b.

Definition byte_in (c : byte) (chars : bytes) : bool :=
  existsb (byte_eqb c) chars.

(** [str.rstrip(chars)]: drop every trailing byte that belongs to [chars].
    A byte survives when something after it survives or when it is not in
    [chars] itself. *)
Fixpoint rstrip (chars : bytes) (s : bytes) : bytes :=
  match s with
  | [] => []
  | c :: s' =>
      match rstrip chars s' with
      | [] => if byte_in c chars then [] else [c]
      | r => c :: r
      end
  end.

Definition NUL : bytes := [x00].

(** ** hashlib

    [hashlib] is not part of the repository.  A digest algorithm is known
    by its name and maps a message to its raw digest; [hexdigest] is the
    digest written with two lowercase hexadecimal digits per byte. *)

Definition hex_digit (n : N) : ascii :=
  match n with
  | 0%N => "0" | 1%N => "1" | 2%N => "2" | 3%N => "3"
  | 4%N => "4" | 5%N => "5" | 6%N => "6" | 7%N => "7"
  | 8%N => "8" | 9%N => "9" | 10%N => "a" | 11%N => "b"
  | 12%N => "c" | 13%N => "d" | 14%N => "e" | _ => "f"
  end%char.

Fixpoint hexlify (d : bytes) : string :=
  match d with
  | [] => EmptyString
  | b :: d' =>
      let n := Byte.to_N b in
      String (hex_digit (n / 16)) (String (hex_digit (n mod 16)) (hexlify d'))
  end.

Definition is_lower_hex (c : ascii) : bool :=
  let n := N_of_ascii c in
  ((48 <=? n) && (n <=? 57) || (97 <=? n) && (n <=? 102))%N.

Fixpoint string_forall (p : ascii -> bool) (s : string) : bool :=
  match s with
  | EmptyString => true
  | String c s' => p c && string_forall p s'
  end.

(** ** Exceptions *)

Inductive exn : Type :=
| AssertionError (msg : string)
| ClientError (status : Z)
| StopIteration
| KeyError (key : string)
| ValueError
| ZeroDivisionError
| IOError.

Inductive res (A : Type) : Type :=
| Ok (a : A)
| Raise (e : exn).
Arguments Ok {A} a.
Arguments Raise {A} e.

(** A hash object: the algorithm it was created for and the data fed to it. *)
Record hash_obj : Type := HashObj {
  h_digest : bytes -> bytes;
  h_data : bytes
}.

Definition update (h : hash_obj) (data : bytes) : hash_obj :=
  HashObj (h_digest h) (h_data h ++ data).

Definition hexdigest (h : hash_obj) : string :=
  hexlify (h_digest h (h_data h)).

Section Hasher.

(** The algorithms [hashlib.new] knows; an unknown name raises. *)
Variable hashlib_algorithms : string -> option (bytes -> bytes).

Definition hashlib_new (name : string) : res hash_obj :=
  match hashlib_algorithms name with
  | Some d => Ok (HashObj d [])
  | None => Raise ValueError
  end.

(** [pithos_hash(block, blockhash)] *)
Definition pithos_hash (block : bytes) (blockhash : string) : res string :=
  match hashlib_new blockhash with
  | Ok h =>
      let h := update h (rstrip NUL block) in
      Ok (hexdigest h)
  | Raise e => Raise e
  end.

End Hasher.

(** ** Files

    An open Python file: its content and the current position.  The
    operations below only read and seek; the content never changes. *)

Record file : Type := File {
  f_content : bytes;
  f_pos : nat
}.

(** What is left to read from the current position. *)
Definition remaining (f : file) : bytes := drop (f_pos f) (f_content f).

(** [f.read(n)]: at most [n] bytes from the current position; a negative
    [n] reads up to the end of the file. *)
Definition file_read (f : file) (n : Z) : bytes * file :=
  let data := if n <? 0 then remaining f else take (Z.to_nat n) (remaining f) in
  (data, File (f_content f) (f_pos f + length data)).

(** [f.seek(offset)], for an [offset] that is not negative. *)
Definition file_seek (f : file) (offset : Z) : file :=
  File (f_content f) (Z.to_nat offset).

(** [os.fstat(f.fileno()).st_size] *)
Definition st_size (f : file) : Z := Z.of_nat (length (f_content f)).

(** ** Requests and responses *)

Inductive verb : Type := PUT | POST.

(** A header value as passed to [set_header]: text, an integer or a bool. *)
Inductive hval : Type :=
| HStr (s : string)
| HInt (n : Z)
| HBool (b : bool).

(** What a request carries: nothing, raw [data=] bytes, or the [json=]
    hash map [dict(bytes=size, hashes=hashes)]. *)
Inductive payload : Type :=
| NoData
| Data (d : bytes)
| Json (size : Z) (hashes : list string).

(** [path4url(...) + params4url(...)]: the path segments and the query. *)
Record url : Type := Url {
  u_path : list string;
  u_params : list (string * option string)
}.

Definition path4url (segments : list string) : url := Url segments [].

Definition params4url (u : url) (params : list (string * option string)) : url :=
  Url (u_path u) (u_params u ++ params).

Record request : Type := Request {
  rq_verb : verb;
  rq_url : url;
  rq_headers : gmap string hval;
  rq_payload : payload
}.

(** A response: status code, body text, and the body read as a JSON list
    of fingerprints ([r.json] of a 409 answer). *)
Record response : Type := Response {
  status_code : Z;
  text : string;
  json : list string
}.

(** ** Progress generators

    [hash_cb] and [upload_cb] are generator functions; called with a
    count they return a generator whose [next()] either runs to the next
    [yield] or raises [StopIteration].  A generator that is sent nothing
    is determined by how many yields it still has: [Some k], or [None]
    when it never ends. *)

Definition generator : Type := option nat.
Definition progress_cb : Type := Z -> generator.

Inductive sink : Type := HashSink | UploadSink.

(** ** What an operation does, in order *)

Inductive event : Type :=
| EvRead (n : Z) (data : bytes)
| EvSeek (offset : Z)
| EvRequest (rq : request) (rs : response)
| EvCallback (s : sink) (n : Z)
| EvNext (s : sink).

(** The client's fixed attributes. *)
Record client : Type := Client {
  account : string;
  container : string
}.

(** The container metadata [get_container_info] returns, as far as the
    operations read it: [x-container-block-size] (after [int]) and
    [x-container-block-hash]. *)
Record container_info : Type := ContainerInfo {
  block_size : Z;
  block_hash : string
}.

(** Python's [//] and [range]. *)
Definition floordiv (a b : Z) : res Z :=
  if b =? 0 then Raise ZeroDivisionError else Ok (a / b).

Definition range_len (n : Z) : nat := Z.to_nat n.

(** [text.strip()] for a notion of whitespace. *)
Section Strip.
Variable isspace : ascii -> bool.

Fixpoint lstrip_ws (s : string) : string :=
  match s with
  | EmptyString => EmptyString
  | String c s' => if isspace c then lstrip_ws s' else s
  end.

Fixpoint rstrip_ws (s : string) : string :=
  match s with
  | EmptyString => EmptyString
  | String c s' =>
      match rstrip_ws s' with
      | EmptyString => if isspace c then EmptyString else String c EmptyString
      | r => String c r
      end
  end.

Definition strip (s : string) : string := rstrip_ws (lstrip_ws s).
End Strip.

(** The whitespace of Python 2 byte strings: tab, LF, VT, FF, CR, space. *)
Definition str_isspace (c : ascii) : bool :=
  let n := N_of_ascii c in ((9 <=? n) && (n <=? 13) || (n =? 32))%N.

(** ** Stand-ins for trying the model

    [hashlib] and the store are not part of the client.  To evaluate the
    operations on concrete inputs they are replaced by the simplest
    things of the right shape. *)

(** A digest that only [hashlib_new "plain"] knows: the message itself
    (so a fingerprint is the stripped block, written in hexadecimal). *)
Definition plain_algorithms (name : string) : option (bytes -> bytes) :=
  if String.eqb name "plain" then Some (fun message => message) else None.

(** A store that answers from a script, whatever it is asked, and with
    500 once the script has run out. *)
Definition scripted : Type := list response.

Definition scripted_handle (st : scripted) (rq : request) : scripted * response :=
  match st with
  | rs :: st' => (st', rs)
  | [] => ([], Response 500 "" [])
  end.

(** A store that keeps the fingerprints of the blocks it holds: a hash
    map is answered with 201 when every block is known and with 409 and
    the fingerprints it lacks (each named once) otherwise; a block is
    answered with 202 and its fingerprint. *)
Definition block_store : Type := list string.

Definition knows (known : block_store) (h : string) : bool :=
  existsb (String.eqb h) known.

Definition block_store_handle (known : block_store) (rq : request)
  : block_store * response :=
  match rq_payload rq with
  | Json _ hashes =>
      match nodup string_dec (List.filter (fun h => negb (knows known h)) hashes) with
      | [] => (known, Response 201 "" [])
      | missing => (known, Response 409 "" missing)
      end
  | Data block =>
      let h := hexlify (rstrip NUL block) in
      (h :: known, Response 202 h [])
  | NoData => (known, Response 400 "" [])
  end.

(** Every container has the given block size and the digest "plain". *)
Definition plain_container {S : Type} (blocksize : Z) (st : S) (name : string)
  : container_info :=
  ContainerInfo blocksize "plain".

(** Bytes for examples. *)
Definition text_bytes (s : string) : bytes := list_byte_of_string s.

(** A callback whose generator yields exactly [n] times when called
    with [n]: one time short of what [create_object] asks of it. *)
Definition short_cb : progress_cb := fun n => Some (Z.to_nat n).

(** A callback whose generator yields [n + 1] times. *)
Definition exact_cb : progress_cb := fun n => Some (S (Z.to_nat n)).

(** ** Text put together in loops *)

(** [dlm = ''] and then, for each [x] of [items],
    [acc = acc + dlm + x; dlm = ',']: what [acc] is in the end. *)
Definition separated (acc : string) (items : list string) : string :=
  (fold_left (fun (s : string * string) (x : string) => ((s.1 +:+ s.2) +:+ x, ","))
             items (acc, "")).1.

(** What [if l:] takes a list for: an empty list is false, like [False]. *)
Definition truth {A} (l : list A) : bool :=
  match l with
  | [] => false
  | _ :: _ => true
  end.

(** [sep.join(items)] *)
Fixpoint str_join (sep : string) (items : list string) : string :=
  match items with
  | [] => ""
  | [x] => x
  | x :: rest => x +:+ sep +:+ str_join sep rest
  end.

(** Whether the character [c] occurs in [s]. *)
Fixpoint occurs (c : ascii) (s : string) : bool :=
  match s with
  | EmptyString => false
  | String c' s' => Ascii.eqb c' c || occurs c s'
  end.

(** A path written as text, each segment after a slash. *)
Fixpoint slashed (segments : list string) : string :=
  match segments with
  | [] => ""
  | seg :: rest => "/" +:+ seg +:+ slashed rest
  end.

(** ** The command line ([kamaki/cli/__init__.py])

    Which classes the [command] decorator lets into the command tree,
    and how the group of a command is found among the arguments. *)

(** [s.split(sep)] for a separator of one character. *)
Fixpoint str_split (sep : ascii) (s : string) : list string :=
  match s with
  | EmptyString => [EmptyString]
  | String c s' =>
      if Ascii.eqb c sep then EmptyString :: str_split sep s'
      else match str_split sep s' with
           | first :: rest => String c first :: rest
           | [] => [String c EmptyString]
           end
  end.

(** The globals of the module that [_allow_class_in_cmd_tree] reads. *)
Record cli_globals : Type := CliGlobals {
  candidate_command_terms : list string;
  allow_no_commands : bool;
  allow_all_commands : bool;
  allow_subclass_signatures : bool
}.

(** Lines 78-83, the loop over the candidate terms from [index] on:
    the index it ends with, or [None] when [term_list[index]] raised
    [IndexError]. *)
Fixpoint match_terms (term_list terms : list string) (index : nat) : option nat :=
  match terms with
  | [] => Some index
  | term :: terms' =>
      match term_list !! index with
      | None => None
      | Some t =>
          match_terms term_list terms' (if String.eqb t term then S index else index)
      end
  end.

(** [_allow_class_in_cmd_tree(cls)], for the name of the class.
    [has_command path] tells whether [_commands.get_command(path)]
    finds a command (it raises [KeyError] otherwise). *)
Definition _allow_class_in_cmd_tree (globals : cli_globals)
           (has_command : string -> bool) (name : string) : bool :=
  if allow_all_commands globals then true
  else if allow_no_commands globals then false
  else
    let term_list := str_split "_" name in
    match match_terms term_list (candidate_command_terms globals) 0 with
    | None => true
    | Some index =>
        if allow_subclass_signatures globals then
          if (index =? length (candidate_command_terms globals))%nat
             && (index <? length term_list)%nat
          then negb (has_command (str_join "_" (take (index + 1) term_list)))
          else false
        else (index =? length term_list)%nat
    end.

(** [l.remove(x)] for an [x] that is in [l]: [l] without the first
    item equal to [x]. *)
Fixpoint list_remove (x : string) (l : list string) : list string :=
  match l with
  | [] => []
  | y :: l' => if String.eqb y x then l' else y :: list_remove x l'
  end.

(** [get_command_group(unparsed)]: what it returns and what is left in
    [unparsed].  [groups] is what [_arguments['config'].get_groups()]
    gives. *)
Definition get_command_group (groups : list string) (unparsed : list string)
  : option string * list string :=
  match List.find (fun grp_candidate => existsb (String.eqb grp_candidate) groups)
                  unparsed with
  | Some grp_candidate => (Some grp_candidate, list_remove grp_candidate unparsed)
  | None => (None, unparsed)
  end.

(** ** The client *)

Section Pithos.

(** [hashlib]'s algorithms, by name. *)
Variable hashlib_algorithms : string -> option (bytes -> bytes).

(** The store behind the HTTP collaborator: it answers every request
    and may change while doing so. *)
Variable Store : Type.
Variable store_handle : Store -> request -> Store * response.

(** [StorageClient.get_container_info]: the metadata the store reports
    for a container (the exchange itself is not recorded). *)
Variable get_container_info : Store -> string -> container_info.

(** Whether the HTTP collaborator forgets the headers set with
    [set_header] once a request has been sent. *)
Variable reset_headers : bool.

(** What [r.text.strip()] takes for whitespace. *)
Variable isspace : ascii -> bool.

(** What an operation can read or change: the open source file, the
    headers set on the client, and the store. *)
Record world : Type := World {
  w_file : file;
  w_headers : gmap string hval;
  w_store : Store
}.

(** Computations that change the world, may raise, and leave a trace of
    what they did (oldest event first). *)
Definition M (A : Type) : Type := world -> res A * world * list event.

Definition ret {A} (a : A) : M A := fun w => (Ok a, w, []).

Definition raise {A} (e : exn) : M A := fun w => (Raise e, w, []).

Definition bind {A B} (m : M A) (k : A -> M B) : M B :=
  fun w =>
    match m w with
    | (Ok a, w1, t1) => let '(r, w2, t2) := k a w1 in (r, w2, t1 ++ t2)
    | (Raise e, w1, t1) => (Raise e, w1, t1)
    end.

Notation "x <- m ;; k" := (bind m (fun x => k))
  (at level 100, m at next level, right associativity).
Notation "m ;;; k" := (bind m (fun _ => k))
  (at level 100, right associativity).

Definition lift {A} (r : res A) : M A := fun w => (r, w, []).

Definition record (ev : event) : M unit := fun w => (Ok tt, w, [ev]).

(** [assert cond, msg] *)
Definition py_assert (cond : bool) (msg : string) : M unit :=
  if cond then ret tt else raise (AssertionError msg).

(** [for i in range(n): s = body(s)] *)
Fixpoint for_range {S} (n : nat) (body : S -> M S) (s : S) : M S :=
  match n with
  | O => ret s
  | S n' => s' <- body s ;; for_range n' body s'
  end.

(** [for x in l: s = body(x, s)] *)
Fixpoint for_each {X S} (l : list X) (body : X -> S -> M S) (s : S) : M S :=
  match l with
  | [] => ret s
  | x :: l' => s' <- body x s ;; for_each l' body s'
  end.

(** *** The source file *)

Definition read (n : Z) : M bytes :=
  fun w =>
    let '(data, f') := file_read (w_file w) n in
    (Ok data, World f' (w_headers w) (w_store w), [EvRead n data]).

(** A negative offset is an invalid argument. *)
Definition seek (offset : Z) : M unit :=
  fun w =>
    if offset <? 0 then (Raise IOError, w, [])
    else (Ok tt, World (file_seek (w_file w) offset) (w_headers w) (w_store w),
          [EvSeek offset]).

Definition fstat_size : M Z := fun w => (Ok (st_size (w_file w)), w, []).

(** *** The HTTP collaborator

    Modelled from the spec: [StorageClient] ([set_header], [put],
    [post]) is not among the sources.  It supplies HTTP verbs with
    headers, a body and the expected status codes: a request is sent
    with the headers set so far, and an answer whose status is not one
    of the expected ones raises [ClientError]. *)

Definition set_header (name : string) (value : hval) : M unit :=
  fun w =>
    (Ok tt, World (w_file w) (<[name := value]> (w_headers w)) (w_store w), []).

Definition send (v : verb) (path : url) (p : payload) (success : list Z) : M response :=
  fun w =>
    let rq := Request v path (w_headers w) p in
    let '(st, rs) := store_handle (w_store w) rq in
    let w' := World (w_file w) (if reset_headers then ∅ else w_headers w) st in
    if existsb (Z.eqb (status_code rs)) success
    then (Ok rs, w', [EvRequest rq rs])
    else (Raise (ClientError (status_code rs)), w', [EvRequest rq rs]).

Definition put := send PUT.
Definition post := send POST.

Definition container_meta (self : client) : M container_info :=
  fun w => (Ok (get_container_info (w_store w) (container self)), w, []).

(** *** Progress generators *)

(** [cb(n)]: create the generator. *)
Definition call_cb (s : sink) (cb : progress_cb) (n : Z) : M generator :=
  record (EvCallback s n) ;;; ret (cb n).

(** [gen.next()] *)
Definition next (s : sink) (g : generator) : M generator :=
  record (EvNext s) ;;;
  match g with
  | None => ret None
  | Some (S k) => ret (Some k)
  | Some O => raise StopIteration
  end.

(** [if cb: gen = cb(n); gen.next()] *)
Definition start_progress (s : sink) (cb : option progress_cb) (n : Z)
  : M (option generator) :=
  match cb with
  | Some cb => g <- call_cb s cb n ;; g' <- next s g ;; ret (Some g')
  | None => ret None
  end.

(** [if cb: gen.next()] *)
Definition step_progress (s : sink) (gen : option generator)
  : M (option generator) :=
  match gen with
  | Some g => g' <- next s g ;; ret (Some g')
  | None => ret None
  end.

(** *** [put_block] *)

Definition put_block (self : client) (data : bytes) (hash : string) : M unit :=
  let path := params4url (path4url [account self; container self])
                         [("update", None)] in
  set_header "Content-Type" (HStr "application/octet-stream") ;;;
  set_header "Content-Length" (HInt (Z.of_nat (length data))) ;;;
  r <- post path (Data data) [202] ;;
  py_assert (String.eqb (strip isspace (text r)) hash)
            "Local hash does not match server".

(** *** [create_object] *)

(** The variables of the hashing loop.  [hs_blocks] is not a variable
    of the source: it keeps, in order, the [(offset, bytes)] pairs the
    loop assigns to [map[hash]]. *)
Record hash_state : Type := HashState {
  hs_hashes : list string;
  hs_map : gmap string (Z * Z);
  hs_offset : Z;
  hs_gen : option generator;
  hs_blocks : list (Z * Z)
}.

(** Lines 92-99: one turn of [for i in range(nblocks)]. *)
Definition hash_block (blocksize size : Z) (blockhash : string)
           (s : hash_state) : M hash_state :=
  block <- read (Z.min blocksize (size - hs_offset s)) ;;
  let bytes := Z.of_nat (length block) in
  hash <- lift (pithos_hash hashlib_algorithms block blockhash) ;;
  gen <- step_progress HashSink (hs_gen s) ;;
  ret (HashState (hs_hashes s ++ [hash])
                 (<[hash := (hs_offset s, bytes)]> (hs_map s))
                 (hs_offset s + bytes)
                 gen
                 (hs_blocks s ++ [(hs_offset s, bytes)])).

(** Lines 76-99: the metadata, the block count and the hashing loop. *)
Definition hash_pass (self : client) (size : option Z)
           (hash_cb : option progress_cb) : M (Z * hash_state) :=
  meta <- container_meta self ;;
  let blocksize := block_size meta in
  let blockhash := block_hash meta in
  size <- match size with Some n => ret n | None => fstat_size end ;;
  q <- lift (floordiv (size - 1) blocksize) ;;
  let nblocks := 1 + q in
  hash_gen <- start_progress HashSink hash_cb nblocks ;;
  s <- for_range (range_len nblocks) (hash_block blocksize size blockhash)
                 (HashState [] ∅ 0 hash_gen []) ;;
  ret (size, s).

(** Lines 118-123: one turn of [for hash in missing]. *)
Definition upload_block (self : client) (map : gmap string (Z * Z))
           (hash : string) (upload_gen : option generator)
  : M (option generator) :=
  match map !! hash with
  | None => raise (KeyError hash)
  | Some (offset, bytes) =>
      seek offset ;;;
      data <- read bytes ;;
      put_block self data hash ;;;
      step_progress UploadSink upload_gen
  end.

(** Lines 103-125: the hash map is submitted; unless the store answers
    201, the blocks it misses are uploaded and the hash map is
    submitted again. *)
Definition negotiate (self : client) (object : string) (size : Z)
           (s : hash_state) (upload_cb : option progress_cb) : M unit :=
  let path := params4url (path4url [account self; container self; object])
                         [("format", Some "json"); ("hashmap", Some "")] in
  let hashmap := Json size (hs_hashes s) in
  set_header "Content-Type" (HStr "application/octet-stream") ;;;
  r <- put path hashmap [201; 409] ;;
  if status_code r =? 201 then ret tt
  else
    let missing := json r in
    upload_gen <- start_progress UploadSink upload_cb
                                 (Z.of_nat (length missing)) ;;
    _ <- for_each missing (upload_block self (hs_map s)) upload_gen ;;
    _ <- put path hashmap [201] ;;
    ret tt.

(** [create_object(self, object, f, size, hash_cb, upload_cb)], with [f]
    the file of the world.  [assert_container] (of [StorageClient])
    checks that the client has a container; a [client] here always has
    one. *)
Definition create_object (self : client) (object : string) (size : option Z)
           (hash_cb upload_cb : option progress_cb) : M unit :=
  hashed <- hash_pass self size hash_cb ;;
  let '(size, s) := hashed in
  py_assert (hs_offset s =? size) "" ;;;
  negotiate self object size s upload_cb.

(** *** [append_object] *)

Definition append_block (path : url) (blocksize filesize : Z) (offset : Z) : M Z :=
  block <- read (Z.min blocksize (filesize - offset)) ;;
  let offset := offset + Z.of_nat (length block) in
  set_header "Content-Length" (HInt (Z.of_nat (length block))) ;;;
  _ <- post path (Data block) [202; 204] ;;
  ret offset.

Definition append_object (self : client) (object : string) : M unit :=
  meta <- container_meta self ;;
  let blocksize := block_size meta in
  filesize <- fstat_size ;;
  q <- lift (floordiv (filesize - 1) blocksize) ;;
  let nblocks := 1 + q in
  set_header "Content-Range" (HStr "bytes */*") ;;;
  set_header "Content-Type" (HStr "application/octet-stream") ;;;
  let path := params4url (path4url [account self; container self; object])
                         [("update", None)] in
  _ <- for_range (range_len nblocks) (append_block path blocksize filesize) 0 ;;
  ret tt.

(** *** [overwrite_object] *)

(** ['bytes %s-%s/*' % (start, end)] *)
Definition content_range (start end_ : Z) : string :=
  "bytes " +:+ pretty start +:+ "-" +:+ pretty end_ +:+ "/*".

Definition overwrite_block (path : url) (blocksize filesize datasize : Z)
           (offset : Z) : M Z :=
  block <- read (Z.min (Z.min blocksize (filesize - offset)) (datasize - offset)) ;;
  let offset := offset + Z.of_nat (length block) in
  set_header "Content-Length" (HInt (Z.of_nat (length block))) ;;;
  _ <- post path (Data block) [202; 204] ;;
  ret offset.

Definition overwrite_object (self : client) (object : string) (start end_ : Z)
  : M unit :=
  meta <- container_meta self ;;
  let blocksize := block_size meta in
  filesize <- fstat_size ;;
  let datasize := end_ - start + 1 in
  q <- lift (floordiv (datasize - 1) blocksize) ;;
  let nblocks := 1 + q in
  set_header "Content-Range" (HStr (content_range start end_)) ;;;
  set_header "Content-Type" (HStr "application/octet-stream") ;;;
  let path := params4url (path4url [account self; container self; object])
                         [("update", None)] in
  _ <- for_range (range_len nblocks)
                 (overwrite_block path blocksize filesize datasize) 0 ;;
  ret tt.

(** *** Groups, metadata and policies

    Each of these operations sets headers and posts them without a
    body.  [assert_account] and [assert_container] (of [StorageClient])
    check that the client has an account and a container; a [client]
    here always has both. *)

Definition set_account_group (self : client) (group : string)
           (usernames : list string) : M unit :=
  let path := params4url (path4url [account self]) [("update", None)] in
  let userstr := separated "" usernames in
  set_header ("X-Account-Group-" +:+ group) (HStr userstr) ;;;
  _ <- post path NoData [202] ;;
  ret tt.

Definition del_account_group (self : client) (group : string) : M unit :=
  let path := params4url (path4url [account self]) [("update", None)] in
  set_header ("X-Account-Group-" +:+ group) (HStr "") ;;;
  _ <- post path NoData [202] ;;
  ret tt.

(** [metapairs] is a dictionary (the source asserts it); [items()]
    lists its pairs in some order. *)
Definition set_account_meta (self : client) (metapairs : gmap string hval) : M unit :=
  let path := params4url (path4url [account self]) [("update", None)] in
  for_each (map_to_list metapairs)
           (fun kv (_ : unit) => set_header ("X-Account-Meta-" +:+ kv.1) kv.2) tt ;;;
  _ <- post path NoData [202] ;;
  ret tt.

Definition set_account_quota (self : client) (quota : hval) : M unit :=
  let path := params4url (path4url [account self]) [("update", None)] in
  set_header "X-Account-Policy-Quota" quota ;;;
  _ <- post path NoData [202] ;;
  ret tt.

Definition set_account_versioning (self : client) (versioning : hval) : M unit :=
  let path := params4url (path4url [account self]) [("update", None)] in
  set_header "X-Account-Policy-Versioning" versioning ;;;
  _ <- post path NoData [202] ;;
  ret tt.

Definition set_container_meta (self : client) (metapairs : gmap string hval) : M unit :=
  let path := params4url (path4url [account self; container self])
                         [("update", None)] in
  for_each (map_to_list metapairs)
           (fun kv (_ : unit) => set_header ("X-Container-Meta-" +:+ kv.1) kv.2) tt ;;;
  _ <- post path NoData [202] ;;
  ret tt.

(** The path has no [update] parameter here. *)
Definition replace_container_meta (self : client) (metapairs : gmap string hval)
  : M unit :=
  let path := path4url [account self; container self] in
  for_each (map_to_list metapairs)
           (fun kv (_ : unit) => set_header ("X-Container-Meta-" +:+ kv.1) kv.2) tt ;;;
  _ <- post path NoData [202] ;;
  ret tt.

Definition set_container_quota (self : client) (quota : hval) : M unit :=
  let path := params4url (path4url [account self; container self])
                         [("update", None)] in
  set_header "X-Container-Policy-Quota" quota ;;;
  _ <- post path NoData [202] ;;
  ret tt.

Definition set_container_versioning (self : client) (versioning : hval) : M unit :=
  let path := params4url (path4url [account self; container self])
                         [("update", None)] in
  set_header "X-Container-Policy-Versioning" versioning ;;;
  _ <- post path NoData [202] ;;
  ret tt.

Definition set_object_meta (self : client) (object : string)
           (metapairs : gmap string hval) : M unit :=
  let path := params4url (path4url [account self; container self; object])
                         [("update", None)] in
  for_each (map_to_list metapairs)
           (fun kv (_ : unit) => set_header ("X-Object-Meta-" +:+ kv.1) kv.2) tt ;;;
  _ <- post path NoData [202] ;;
  ret tt.

Definition publish_object (self : client) (object : string) : M unit :=
  let path := params4url (path4url [account self; container self; object])
                         [("update", None)] in
  set_header "X-Object-Public" (HBool true) ;;;
  _ <- post path NoData [202] ;;
  ret tt.

Definition unpublish_object (self : client) (object : string) : M unit :=
  let path := params4url (path4url [account self; container self; object])
                         [("update", None)] in
  set_header "X-Object-Public" (HBool false) ;;;
  _ <- post path NoData [202] ;;
  ret tt.

(** [read_permition] and [write_permition] are lists of users and
    groups; the default [False] and the empty list are both false for
    [if], and nothing else is done with a false one. *)
Definition set_object_sharing (self : client) (object : string)
           (read_permition write_permition : list string) : M unit :=
  let perms := "" in
  let perms :=
    if truth read_permition then separated "read=" read_permition else perms in
  let perms :=
    if truth write_permition
    then separated (if negb (truth read_permition) then "write="
                    else perms +:+ ";write=")
                   write_permition
    else perms in
  let path := params4url (path4url [account self; container self; object])
                         [("update", None)] in
  set_header "X-Object-Sharing" (HStr perms) ;;;
  _ <- post path NoData [202; 204] ;;
  ret tt.

Definition del_object_sharing (self : client) (object : string) : M unit :=
  set_object_sharing self object [] [].

(** *** [truncate_object] *)

(** How [path4url] (of [utils]) writes a path as text. *)
Variable url_text : url -> string.

Definition truncate_object (self : client) (object : string) (upto_bytes : Z)
  : M unit :=
  set_header "Content-Range" (HStr ("bytes 0-" +:+ pretty upto_bytes +:+ "/*")) ;;;
  set_header "Content-Type" (HStr "application/octet-stream") ;;;
  set_header "X-Object-Bytes" (HInt upto_bytes) ;;;
  set_header "X-Source-Object" (HStr (url_text (path4url [container self; object]))) ;;;
  let path := params4url (path4url [account self; container self; object])
                         [("update", None)] in
  _ <- post path NoData [202; 204] ;;
  ret tt.

(** * Vocabulary of the properties *)

(** ** Reading a trace *)

Definition is_request (e : event) : option (request * response) :=
  match e with EvRequest rq rs => Some (rq, rs) | _ => None end.

Definition requests (t : list event) : list (request * response) :=
  omap is_request t.

Definition read_len (e : event) : Z :=
  match e with EvRead _ data => Z.of_nat (length data) | _ => 0 end.

Fixpoint total_read (t : list event) : Z :=
  match t with
  | [] => 0
  | e :: t' => read_len e + total_read t'
  end.

Definition is_sink_event (e : event) : bool :=
  match e with EvCallback _ _ | EvNext _ => true | _ => false end.

Definition erase_sinks (t : list event) : list event :=
  List.filter (fun e => negb (is_sink_event e)) t.

(** ** The hashing loop *)

(** [ceil(a / b)] for a positive [b]. *)
Definition ceil_div (a b : Z) : Z := (a + b - 1) / b.

Fixpoint sum_lengths (blocks : list (Z * Z)) : Z :=
  match blocks with
  | [] => 0
  | (_, l) :: rest => l + sum_lengths rest
  end.

(** Blocks that start at [o], follow one another without gap or overlap,
    and are not empty (so that their offsets increase strictly). *)
Fixpoint contiguous (o : Z) (blocks : list (Z * Z)) : Prop :=
  match blocks with
  | [] => True
  | (o', l) :: rest => o' = o /\ 0 < l /\ contiguous (o + l) rest
  end.

(** The blocks a source that holds [size] bytes is cut into, from
    [offset] on, in [n] turns of the loop. *)
Fixpoint chunks (blocksize size offset : Z) (n : nat) : list (Z * Z) :=
  match n with
  | O => []
  | S n' =>
      let bytes := Z.min blocksize (size - offset) in
      (offset, bytes) :: chunks blocksize size (offset + bytes) n'
  end.

(** Whether a generator (if there is one) yields [n] more times. *)
Definition lasts (g : option generator) (n : nat) : Prop :=
  match g with
  | Some (Some k) => (n <= k)%nat
  | _ => True
  end.

(** A progress callback whose generator outlives the calls made to it:
    one when it is created and one per counted item. *)
Definition sink_ok (cb : option progress_cb) : Prop :=
  match cb with
  | Some cb => forall n, lasts (Some (cb n)) (S (Z.to_nat n))
  | None => True
  end.

(** ** Reading the source *)

Definition slice (c : bytes) (a l : nat) : bytes := take l (drop a c).

(** ** What the hashing loop keeps true *)

(** [map] after the assignments [map[h] = b] for the entries, in order. *)
Definition map_of (entries : list (string * (Z * Z))) : gmap string (Z * Z) :=
  fold_left (fun m e => <[e.1 := e.2]> m) entries ∅.

(** [hashes] and [blocks] describe consecutive blocks of [content]:
    the first one has offset [o] and was read at position [pos]. *)
Fixpoint laid_out (content : bytes) (blockhash : string) (pos : nat) (o : Z)
         (hashes : list string) (blocks : list (Z * Z)) : Prop :=
  match hashes, blocks with
  | [], [] => True
  | h :: hashes', (o', l) :: blocks' =>
      o' = o /\ 0 <= l /\
      length (slice content pos (Z.to_nat l)) = Z.to_nat l /\
      pithos_hash hashlib_algorithms (slice content pos (Z.to_nat l)) blockhash = Ok h /\
      laid_out content blockhash (pos + Z.to_nat l) (o + l) hashes' blocks'
  | _, _ => False
  end.

(** The state of the loop and the file agree: the file is [content]
    read up to the running offset from where it stood at first
    ([pos0]), [offset] is the number of bytes in the blocks so far,
    and [map] holds the assignments made for them. *)
Definition hash_inv (content : bytes) (blockhash : string) (pos0 : nat)
           (s : hash_state) (w : world) : Prop :=
  f_content (w_file w) = content /\
  f_pos (w_file w) = (pos0 + Z.to_nat (hs_offset s))%nat /\
  hs_offset s = sum_lengths (hs_blocks s) /\
  hs_map s = map_of (zip (hs_hashes s) (hs_blocks s)) /\
  laid_out content blockhash pos0 0 (hs_hashes s) (hs_blocks s).

(** ** The hashing pass *)

(** The size [create_object] declares: the argument, or the file's. *)
Definition declared_size (size : option Z) (w : world) : Z :=
  match size with
  | Some n => n
  | None => st_size (w_file w)
  end.

Definition container_of (self : client) (w : world) : container_info :=
  get_container_info (w_store w) (container self).

(** ** [put_block] and the upload loop *)

Definition block_url (self : client) : url :=
  Url [account self; container self] [("update", None)].

(** The headers [put_block] sends, given those set before. *)
Definition block_headers (data : bytes) (headers : gmap string hval)
  : gmap string hval :=
  <["Content-Length" := HInt (Z.of_nat (length data))]>
    (<["Content-Type" := HStr "application/octet-stream"]> headers).

Definition block_request (self : client) (data : bytes)
           (headers : gmap string hval) : request :=
  Request POST (block_url self) (block_headers data headers) (Data data).

Definition after_request (headers : gmap string hval) : gmap string hval :=
  if reset_headers then ∅ else headers.

(** A request that uploads a block bearing the fingerprint [h]. *)
Definition upload_of (blockhash h : string) (u : request * response) : Prop :=
  rq_verb u.1 = POST /\
  exists data, rq_payload u.1 = Data data /\
               pithos_hash hashlib_algorithms data blockhash = Ok h.

(** ** [create_object] after the hashing pass *)

Definition hashmap_url (self : client) (object : string) : url :=
  Url [account self; container self; object]
      [("format", Some "json"); ("hashmap", Some "")].

(** The request that submits the hash map, with the headers it is sent
    with. *)
Definition submission (self : client) (object : string) (size : Z)
           (hashes : list string) (headers : gmap string hval) : request :=
  Request PUT (hashmap_url self object) headers (Json size hashes).

Definition octet_stream (headers : gmap string hval) : gmap string hval :=
  <["Content-Type" := HStr "application/octet-stream"]> headers.

(** Lines 125-126: after the upload loop [x], the hash map is submitted
    again and must be answered with 201. *)
Definition resubmit (self : client) (object : string) (size : Z) (s : hash_state)
           (x : res (option generator) * world * list event)
  : res unit * world * list event :=
  match x with
  | (Ok _, w4, t4) =>
      let rq' := submission self object size (hs_hashes s) (w_headers w4) in
      let st' := (store_handle (w_store w4) rq').1 in
      let rs' := (store_handle (w_store w4) rq').2 in
      (if status_code rs' =? 201 then Ok tt
       else Raise (ClientError (status_code rs')),
       World (w_file w4) (after_request (w_headers w4)) st',
       t4 ++ [EvRequest rq' rs'])
  | (Raise e, w4, t4) => (Raise e, w4, t4)
  end.

Definition is_post (u : request * response) : bool :=
  match rq_verb u.1 with POST => true | PUT => false end.

(** The requests that upload data. *)
Definition posts (l : list (request * response)) : list (request * response) :=
  List.filter is_post l.

(** ** [append_object] *)

(** The first [n] windows of [blocksize] bytes of [data]. *)
Fixpoint windows (blocksize : nat) (data : bytes) (n : nat) : list bytes :=
  match n with
  | O => []
  | S n' => take blocksize data :: windows blocksize (drop blocksize data) n'
  end.

Definition accepted (success : list Z) (u : request * response) : Prop :=
  existsb (Z.eqb (status_code u.2)) success = true.

(** A request that posts [block] to [path] with its length declared. *)
Definition post_of (path : url) (block : bytes) (u : request * response) : Prop :=
  rq_verb u.1 = POST /\
  rq_url u.1 = path /\
  rq_payload u.1 = Data block /\
  rq_headers u.1 !! "Content-Length" = Some (HInt (Z.of_nat (length block))).

Definition object_url (self : client) (object : string) : url :=
  Url [account self; container self; object] [("update", None)].

(** The [Content-Range] a request carries is the given one, or none. *)
Definition range_is (v : string) (headers : gmap string hval) : Prop :=
  headers !! "Content-Range" = Some (HStr v) \/ headers !! "Content-Range" = None.

(** ** Progress callbacks change nothing else *)

Definition with_gen (g : option generator) (s : hash_state) : hash_state :=
  HashState (hs_hashes s) (hs_map s) (hs_offset s) g (hs_blocks s).

(** The generator after [n] more calls of [next]. *)
Definition advance (g : generator) (n : nat) : generator :=
  match g with
  | None => None
  | Some k => Some (k - n)%nat
  end.

(** A trace with a call of [next] after each of its events. *)
Definition ticked (sk : sink) (t : list event) : list event :=
  flat_map (fun e => [e; EvNext sk]) t.

Definition is_read (e : event) : Prop :=
  match e with EvRead _ _ => True | _ => False end.

(** ** Operations that post headers *)

(** How a request that expects one of [success] ends. *)
Definition outcome (success : list Z) (rs : response) : res unit :=
  if existsb (Z.eqb (status_code rs)) success then Ok tt
  else Raise (ClientError (status_code rs)).

(** In the world [w], [m] sends one request and does nothing else: a
    POST to [path] without a body, with [headers]; it ends as the answer
    decides, the source file is left alone and the store is as the
    request left it. *)
Definition posts_once (m : M unit) (path : url) (success : list Z)
           (headers : gmap string hval) (w : world) : Prop :=
  let rq := Request POST path headers NoData in
  let rs := (store_handle (w_store w) rq).2 in
  exists w',
    m w = (outcome success rs, w', [EvRequest rq rs]) /\
    w_file w' = w_file w /\
    w_store w' = (store_handle (w_store w) rq).1.

(** [new] is [old] with, for every pair [(k, v)] of [metapairs], the
    header [prefix + k] set to [v], and nothing else changed. *)
Definition with_meta (prefix : string) (metapairs old new : gmap string hval) : Prop :=
  (forall k v, metapairs !! k = Some v -> new !! (prefix +:+ k) = Some v) /\
  (forall name, (forall k, is_Some (metapairs !! k) -> name <> prefix +:+ k) ->
                new !! name = old !! name).

(** The headers after [set_header(prefix + key, val)] for the pairs of
    [l], in order. *)
Definition set_all (prefix : string) (l : list (string * hval))
           (h : gmap string hval) : gmap string hval :=
  fold_left (fun h kv => <[prefix +:+ kv.1 := kv.2]> h) l h.

(** [m] posts the pairs of [metapairs] once, as headers named with
    [prefix]. *)
Definition posts_meta (m : M unit) (path : url) (prefix : string)
           (metapairs : gmap string hval) : Prop :=
  forall w, exists headers,
    with_meta prefix metapairs (w_headers w) headers /\
    posts_once m path [202] headers w.

(** A name of a user or a group that can stand in a list separated by
    commas: not empty and without a comma. *)
Definition plain_name (s : string) : Prop := s <> "" /\ occurs "," s = false.

(** What follows the first item of a list separated by commas. *)
Fixpoint comma_tail (items : list string) : string :=
  match items with
  | [] => ""
  | x :: rest => "," +:+ x +:+ comma_tail rest
  end.

(** The value of [X-Object-Sharing] for the two lists. *)
Definition sharing_text (readers writers : list string) : string :=
  match readers, writers with
  | [], [] => ""
  | _ :: _, [] => "read=" +:+ str_join "," readers
  | [], _ :: _ => "write=" +:+ str_join "," writers
  | _ :: _, _ :: _ => "read=" +:+ str_join "," readers +:+ ";write=" +:+ str_join "," writers
  end.

(** ** Progress of the uploads *)

(** The events of the sink [sk] in a trace. *)
Definition of_sink (sk : sink) (e : event) : bool :=
  match e, sk with
  | EvCallback HashSink _, HashSink | EvNext HashSink, HashSink => true
  | EvCallback UploadSink _, UploadSink | EvNext UploadSink, UploadSink => true
  | _, _ => false
  end.

Definition sink_events (sk : sink) (t : list event) : list event :=
  List.filter (of_sink sk) t.

(** ** The trimmed body *)

(** [body] is [s] without the whitespace around it: [s] is [body]
    between two runs of whitespace characters, each possibly empty, and
    [body] neither begins nor ends with a whitespace character. *)
Definition trimmed (s body : string) : Prop :=
  exists before after,
    s = before +:+ body +:+ after /\
    string_forall isspace before = true /\
    string_forall isspace after = true /\
    (forall c rest, body = String c rest -> isspace c = false) /\
    (forall init c, body = init +:+ String c "" -> isspace c = false).

(** * Properties *)

(** ** Loops *)

Lemma bind_eq {A B} (m : M A) (k : A -> M B) w :
  bind m k w =
  match m w with
  | (Ok a, w1, t1) => let '(r, w2, t2) := k a w1 in (r, w2, t1 ++ t2)
  | (Raise e, w1, t1) => (Raise e, w1, t1)
  end.
Proof. reflexivity. Qed.

(** A relation between the start and the end of a loop that every turn
    establishes, that holds of doing nothing and that composes, holds of
    the whole loop when it ends normally. *)
Lemma for_range_rel {S} (R : S * world -> S * world -> list event -> Prop)
      (body : S -> M S) :
  (forall x, R x x []) ->
  (forall x y z t1 t2, R x y t1 -> R y z t2 -> R x z (t1 ++ t2)) ->
  (forall s w s1 w1 t1, body s w = (Ok s1, w1, t1) -> R (s, w) (s1, w1) t1) ->
  forall n s w s' w' t,
    for_range n body s w = (Ok s', w', t) -> R (s, w) (s', w') t.
Proof.
  intros Hrefl Htrans Hbody n.
  induction n as [|n IH]; intros s w s' w' t; simpl.
  - unfold ret. intros [= <- <- <-]. apply Hrefl.
  - rewrite bind_eq. destruct (body s w) as [[[s1|e] w1] t1] eqn:Eb; [|discriminate].
    destruct (for_range n body s1 w1) as [[r w2] t2] eqn:El.
    intros [= -> <- <-]. eapply Htrans; eauto.
Qed.

(** A property of traces that every turn has, that the empty trace has
    and that appending keeps, holds of the whole loop however it ends. *)
Lemma for_range_trace {S} (T : list event -> Prop) (body : S -> M S) :
  T [] ->
  (forall t1 t2, T t1 -> T t2 -> T (t1 ++ t2)) ->
  (forall s w r w1 t1, body s w = (r, w1, t1) -> T t1) ->
  forall n s w r w' t, for_range n body s w = (r, w', t) -> T t.
Proof.
  intros Hnil Happ Hbody n.
  induction n as [|n IH]; intros s w r w' t; simpl.
  - unfold ret. intros [= <- <- <-]. exact Hnil.
  - rewrite bind_eq. destruct (body s w) as [[[s1|e] w1] t1] eqn:Eb.
    + destruct (for_range n body s1 w1) as [[r2 w2] t2] eqn:El.
      intros [= <- <- <-]. apply Happ; eauto.
    + intros [= <- <- <-]. eauto.
Qed.

(** ** Facts about traces *)

Lemma total_read_app t1 t2 : total_read (t1 ++ t2) = total_read t1 + total_read t2.
Proof. induction t1 as [|e t1 IH]; simpl; lia. Qed.

Lemma requests_app t1 t2 : requests (t1 ++ t2) = requests t1 ++ requests t2.
Proof. unfold requests. apply omap_app. Qed.

Lemma erase_sinks_app t1 t2 : erase_sinks (t1 ++ t2) = erase_sinks t1 ++ erase_sinks t2.
Proof. unfold erase_sinks. apply List.filter_app. Qed.

Lemma ceil_div_nblocks a b : 0 < b -> 1 + (a - 1) / b = ceil_div a b.
Proof.
  intros Hb. unfold ceil_div.
  replace (a + b - 1) with (a - 1 + 1 * b) by lia.
  rewrite Z.div_add by lia. lia.
Qed.

Lemma ceil_div_spec a b :
  0 < b -> b * (ceil_div a b - 1) < a <= b * ceil_div a b.
Proof.
  intros Hb. unfold ceil_div.
  pose proof (Z.div_mod (a + b - 1) b ltac:(lia)) as Hd.
  pose proof (Z.mod_pos_bound (a + b - 1) b Hb) as Hm.
  nia.
Qed.

Lemma ceil_div_unique a b q : 0 < b -> b * (q - 1) < a <= b * q -> ceil_div a b = q.
Proof.
  intros Hb Hq. pose proof (ceil_div_spec a b Hb) as Hs. nia.
Qed.

Lemma ceil_div_0 b : 0 < b -> ceil_div 0 b = 0.
Proof. intros Hb. apply ceil_div_unique; lia. Qed.

Lemma ceil_div_pos a b : 0 < b -> 0 < ceil_div a b -> 0 < a.
Proof. intros Hb Hc. pose proof (ceil_div_spec a b Hb). nia. Qed.

Lemma ceil_div_step a b :
  0 < b -> 0 < a -> ceil_div (a - Z.min b a) b = ceil_div a b - 1.
Proof.
  intros Hb Ha. apply ceil_div_unique; [exact Hb|].
  pose proof (ceil_div_spec a b Hb) as Hs.
  destruct (Z.min_spec b a) as [[Hlt ->]|[Hge ->]].
  - lia.
  - assert (ceil_div a b = 1) as -> by (apply ceil_div_unique; lia). lia.
Qed.

Lemma chunks_length blocksize size offset n :
  length (chunks blocksize size offset n) = n.
Proof.
  revert offset. induction n as [|n IH]; intros offset; simpl; [|rewrite IH]; reflexivity.
Qed.

Lemma chunks_facts blocksize size n : forall offset,
  0 < blocksize ->
  offset <= size ->
  Z.of_nat n = ceil_div (size - offset) blocksize ->
  contiguous offset (chunks blocksize size offset n) /\
  sum_lengths (chunks blocksize size offset n) = size - offset /\
  (forall i o l, chunks blocksize size offset n !! i = Some (o, l) ->
     l <= blocksize /\ ((S i < n)%nat -> l = blocksize)).
Proof.
  induction n as [|n IH]; intros offset blocksize_pos Hle Hn.
  - simpl. split; [exact I|]. split.
    + pose proof (ceil_div_spec (size - offset) blocksize blocksize_pos). nia.
    + intros i o l H. destruct i; discriminate H.
  - assert (0 < size - offset) as Hpos
        by (apply (ceil_div_pos _ blocksize); lia).
    pose proof (ceil_div_step (size - offset) blocksize blocksize_pos Hpos) as Hstep.
    set (bytes := Z.min blocksize (size - offset)) in *.
    assert (0 < bytes <= size - offset) as Hb by (unfold bytes; lia).
    destruct (IH (offset + bytes)) as (Hc & Hs & Hl).
    { exact blocksize_pos. }
    { lia. }
    { replace (size - (offset + bytes)) with (size - offset - bytes) by lia. lia. }
    simpl. fold bytes. repeat split.
    + lia.
    + exact Hc.
    + lia.
    + destruct i as [|i]; simpl in H.
      * injection H as <- <-. unfold bytes. lia.
      * apply Hl in H. tauto.
    + intros Hi. destruct i as [|i]; simpl in H.
      * injection H as <- <-.
        assert (2 <= ceil_div (size - offset) blocksize) as H2 by lia.
        pose proof (ceil_div_spec (size - offset) blocksize blocksize_pos).
        unfold bytes. nia.
      * apply Hl in H. apply H. lia.
Qed.

Lemma sum_lengths_app b1 b2 : sum_lengths (b1 ++ b2) = sum_lengths b1 + sum_lengths b2.
Proof. induction b1 as [|[o l] b1 IH]; simpl; lia. Qed.

Lemma file_read_content f n : f_content (file_read f n).2 = f_content f.
Proof. reflexivity. Qed.

Lemma file_read_pos f n :
  f_pos (file_read f n).2 = (f_pos f + length (file_read f n).1)%nat.
Proof. reflexivity. Qed.

Lemma file_read_slice f n :
  (file_read f n).1 = slice (f_content f) (f_pos f) (length (file_read f n).1).
Proof.
  unfold file_read, slice, remaining. simpl.
  destruct (n <? 0).
  - rewrite firstn_all. reflexivity.
  - rewrite length_take, <- take_take, firstn_all. reflexivity.
Qed.

Lemma file_read_bound f n : 0 <= n -> Z.of_nat (length (file_read f n).1) <= n.
Proof.
  intros Hn. unfold file_read. simpl.
  destruct (n <? 0) eqn:E; [lia|]. rewrite length_take. lia.
Qed.

Lemma file_read_exact f n :
  0 <= n -> n <= Z.of_nat (length (remaining f)) ->
  Z.of_nat (length (file_read f n).1) = n.
Proof.
  intros Hn Hr. unfold file_read. simpl.
  destruct (n <? 0) eqn:E; [lia|]. rewrite length_take. lia.
Qed.

Lemma file_read_remaining f n :
  length (remaining (file_read f n).2) =
  (length (remaining f) - length (file_read f n).1)%nat.
Proof.
  unfold remaining. rewrite file_read_pos, file_read_content.
  rewrite !length_drop. lia.
Qed.

(** ** One turn of the hashing loop *)

Lemma pithos_hash_supported block blockhash d :
  hashlib_algorithms blockhash = Some d ->
  pithos_hash hashlib_algorithms block blockhash = Ok (hexlify (d (rstrip NUL block))).
Proof. intros Hd. unfold pithos_hash, hashlib_new. rewrite Hd. reflexivity. Qed.

Lemma hash_block_eq blocksize size blockhash s w :
  hash_block blocksize size blockhash s w =
  let n := Z.min blocksize (size - hs_offset s) in
  let data := (file_read (w_file w) n).1 in
  let w1 := World (file_read (w_file w) n).2 (w_headers w) (w_store w) in
  let bytes := Z.of_nat (length data) in
  match pithos_hash hashlib_algorithms data blockhash with
  | Raise e => (Raise e, w1, [EvRead n data])
  | Ok h =>
      let s' g := HashState (hs_hashes s ++ [h])
                            (<[h := (hs_offset s, bytes)]> (hs_map s))
                            (hs_offset s + bytes) g
                            (hs_blocks s ++ [(hs_offset s, bytes)]) in
      match hs_gen s with
      | None => (Ok (s' None), w1, [EvRead n data])
      | Some None => (Ok (s' (Some None)), w1, [EvRead n data; EvNext HashSink])
      | Some (Some (S k)) =>
          (Ok (s' (Some (Some k))), w1, [EvRead n data; EvNext HashSink])
      | Some (Some O) => (Raise StopIteration, w1, [EvRead n data; EvNext HashSink])
      end
  end.
Proof.
  unfold hash_block, bind, read, lift, step_progress, next, record, ret, raise.
  cbv zeta. destruct (file_read (w_file w) _) as [data f']. simpl.
  destruct (pithos_hash _ data blockhash) as [h|e]; [|reflexivity].
  destruct (hs_gen s) as [[[|k]|]|]; reflexivity.
Qed.

Lemma start_progress_eq sk cb n w :
  start_progress sk cb n w =
  match cb with
  | None => (Ok None, w, [])
  | Some cb =>
      match cb n with
      | None => (Ok (Some None), w, [EvCallback sk n; EvNext sk])
      | Some (S k) => (Ok (Some (Some k)), w, [EvCallback sk n; EvNext sk])
      | Some O => (Raise StopIteration, w, [EvCallback sk n; EvNext sk])
      end
  end.
Proof.
  unfold start_progress, call_cb, next, bind, record, ret, raise.
  destruct cb as [cb|]; [|reflexivity]. destruct (cb n) as [[|k]|]; reflexivity.
Qed.

Lemma step_progress_eq sk gen w :
  step_progress sk gen w =
  match gen with
  | None => (Ok None, w, [])
  | Some None => (Ok (Some None), w, [EvNext sk])
  | Some (Some (S k)) => (Ok (Some (Some k)), w, [EvNext sk])
  | Some (Some O) => (Raise StopIteration, w, [EvNext sk])
  end.
Proof.
  unfold step_progress, next, bind, record, ret, raise.
  destruct gen as [[[|k]|]|]; reflexivity.
Qed.

Lemma laid_out_length content blockhash pos o hashes blocks :
  laid_out content blockhash pos o hashes blocks -> length hashes = length blocks.
Proof.
  revert pos o blocks. induction hashes as [|h hashes IH]; intros pos o [|[o' l] blocks]; simpl; try tauto.
  intros (_ & _ & _ & _ & H). f_equal. eauto.
Qed.

Lemma laid_out_sum_nonneg content blockhash pos o hashes blocks :
  laid_out content blockhash pos o hashes blocks -> 0 <= sum_lengths blocks.
Proof.
  revert pos o blocks. induction hashes as [|h hashes IH]; intros pos o [|[o' l] blocks]; simpl; try tauto; try lia.
  intros (_ & Hl & _ & _ & H). apply IH in H. lia.
Qed.

Lemma laid_out_snoc content blockhash pos o hashes blocks h l :
  laid_out content blockhash pos o hashes blocks ->
  0 <= l ->
  let p := (pos + Z.to_nat (sum_lengths blocks))%nat in
  length (slice content p (Z.to_nat l)) = Z.to_nat l ->
  pithos_hash hashlib_algorithms (slice content p (Z.to_nat l)) blockhash = Ok h ->
  laid_out content blockhash pos o (hashes ++ [h]) (blocks ++ [(o + sum_lengths blocks, l)]).
Proof.
  revert pos o blocks.
  induction hashes as [|h0 hashes IH]; intros pos o [|[o' l0] blocks]; simpl; try tauto.
  - intros _ Hl Hlen Hh. rewrite Nat.add_0_r in Hlen, Hh. rewrite Z.add_0_r.
    repeat split; auto.
  - intros (-> & Hl0 & Hlen0 & Hh0 & Hrest) Hl Hlen Hh.
    pose proof (laid_out_sum_nonneg _ _ _ _ _ _ Hrest) as Hs.
    repeat split; auto.
    replace (o + (l0 + sum_lengths blocks)) with (o + l0 + sum_lengths blocks) by lia.
    apply IH; auto.
    + replace (pos + Z.to_nat l0 + Z.to_nat (sum_lengths blocks))%nat
        with (pos + Z.to_nat (l0 + sum_lengths blocks))%nat by lia.
      exact Hlen.
    + replace (pos + Z.to_nat l0 + Z.to_nat (sum_lengths blocks))%nat
        with (pos + Z.to_nat (l0 + sum_lengths blocks))%nat by lia.
      exact Hh.
Qed.

Lemma map_of_snoc entries h b : map_of (entries ++ [(h, b)]) = <[h := b]> (map_of entries).
Proof. unfold map_of. rewrite fold_left_app. reflexivity. Qed.

Lemma hash_block_inv content blockhash blocksize size pos0 s w s1 w1 t1 :
  hash_block blocksize size blockhash s w = (Ok s1, w1, t1) ->
  hash_inv content blockhash pos0 s w -> hash_inv content blockhash pos0 s1 w1.
Proof.
  rewrite hash_block_eq. cbv zeta.
  set (n := Z.min blocksize (size - hs_offset s)).
  pose proof (file_read_slice (w_file w) n) as Hslice.
  set (data := (file_read (w_file w) n).1) in *.
  destruct (pithos_hash hashlib_algorithms data blockhash) as [h|e] eqn:Eh; [|discriminate].
  intros Hstep (Hc & Hp & Ho & Hm & Hl).
  assert (s1 = HashState (hs_hashes s ++ [h])
                         (<[h := (hs_offset s, Z.of_nat (length data))]> (hs_map s))
                         (hs_offset s + Z.of_nat (length data)) (hs_gen s1)
                         (hs_blocks s ++ [(hs_offset s, Z.of_nat (length data))])
          /\ w1 = World (file_read (w_file w) n).2 (w_headers w) (w_store w))
    as [-> ->].
  { destruct (hs_gen s) as [[[|k]|]|]; inversion Hstep; subst; auto. }
  pose proof (laid_out_sum_nonneg _ _ _ _ _ _ Hl) as Hnn.
  unfold hash_inv; cbn [hs_offset hs_hashes hs_map hs_blocks w_file]. repeat split.
  - exact Hc.
  - rewrite file_read_pos. fold data. rewrite Hp. lia.
  - rewrite sum_lengths_app. simpl. lia.
  - rewrite zip_with_app by (eapply laid_out_length; eauto).
    simpl. rewrite map_of_snoc. simpl. rewrite Hm. reflexivity.
  - rewrite Ho at 1. replace (sum_lengths (hs_blocks s)) with (0 + sum_lengths (hs_blocks s)) at 1 by lia.
    rewrite Hc, Hp, Ho in Hslice.
    apply laid_out_snoc; auto.
    + lia.
    + cbv zeta. rewrite Nat2Z.id. rewrite <- Hslice. reflexivity.
    + cbv zeta. rewrite Nat2Z.id. rewrite <- Hslice. exact Eh.
Qed.

Lemma hash_block_frame blocksize size blockhash s w r w1 t1 :
  hash_block blocksize size blockhash s w = (r, w1, t1) ->
  requests t1 = [] /\ w_headers w1 = w_headers w /\ w_store w1 = w_store w /\
  match r with
  | Ok s1 => hs_offset s1 = hs_offset s + total_read t1 /\
             length (hs_blocks s1) = S (length (hs_blocks s))
  | Raise _ => True
  end.
Proof.
  rewrite hash_block_eq. cbv zeta.
  destruct (pithos_hash _ _ blockhash) as [h|e].
  - destruct (hs_gen s) as [[[|k]|]|]; intros [= <- <- <-]; simpl;
      rewrite ?length_app; simpl; repeat split; lia.
  - intros [= <- <- <-]. simpl. auto.
Qed.

Lemma hash_loop_inv content blockhash pos0 blocksize size n s w s' w' t :
  for_range n (hash_block blocksize size blockhash) s w = (Ok s', w', t) ->
  (hash_inv content blockhash pos0 s w -> hash_inv content blockhash pos0 s' w') /\
  hs_offset s' = hs_offset s + total_read t /\
  requests t = [] /\ w_headers w' = w_headers w /\ w_store w' = w_store w.
Proof.
  intros Hloop.
  apply (for_range_rel
           (fun x y t =>
              (hash_inv content blockhash pos0 x.1 x.2 ->
               hash_inv content blockhash pos0 y.1 y.2) /\
              hs_offset y.1 = hs_offset x.1 + total_read t /\
              requests t = [] /\ w_headers y.2 = w_headers x.2 /\
              w_store y.2 = w_store x.2)
           (hash_block blocksize size blockhash)) in Hloop; [exact Hloop| | |].
  - intros x. simpl. split; [auto|]. split; [lia|auto].
  - intros x y z t1 t2 (Hi1 & Ho1 & Hr1 & Hh1 & Hs1) (Hi2 & Ho2 & Hr2 & Hh2 & Hs2).
    rewrite total_read_app, requests_app, Hr1, Hr2.
    split; [auto|]. split; [lia|]. split; [reflexivity|]. split; congruence.
  - intros s0 w0 s1 w1 t1 Hb. simpl.
    pose proof (hash_block_frame _ _ _ _ _ _ _ _ Hb) as (Hr & Hh & Hs & Ho & _).
    split; [|auto]. intros Hi. eapply hash_block_inv; eauto.
Qed.

Lemma hash_loop_count blocksize size blockhash n : forall s w s' w' t,
  for_range n (hash_block blocksize size blockhash) s w = (Ok s', w', t) ->
  length (hs_blocks s') = (length (hs_blocks s) + n)%nat.
Proof.
  induction n as [|n IH]; intros s w s' w' t; simpl.
  - unfold ret. intros [= <- <- <-]. lia.
  - rewrite bind_eq.
    destruct (hash_block blocksize size blockhash s w) as [[[s1|e] w1] t1] eqn:Eb; [|discriminate].
    destruct (for_range n _ s1 w1) as [[r w2] t2] eqn:El.
    intros [= -> <- <-]. apply IH in El.
    apply hash_block_frame in Eb as (_ & _ & _ & _ & Hlen). lia.
Qed.

Lemma hash_loop_no_requests blocksize size blockhash n s w r w' t :
  for_range n (hash_block blocksize size blockhash) s w = (r, w', t) ->
  requests t = [].
Proof.
  apply (for_range_trace (fun t => requests t = [])).
  - reflexivity.
  - intros t1 t2 H1 H2. rewrite requests_app, H1, H2. reflexivity.
  - intros s0 w0 r0 w1 t1 Hb. apply hash_block_frame in Hb. tauto.
Qed.

(** With a source that holds what is left of [size], a known algorithm
    and a generator that lasts, the loop ends normally and cuts the
    blocks [chunks] lists. *)
Lemma hash_loop_good blocksize size blockhash d n : forall s w,
  hashlib_algorithms blockhash = Some d ->
  0 < blocksize ->
  hs_offset s <= size ->
  size - hs_offset s <= Z.of_nat (length (remaining (w_file w))) ->
  lasts (hs_gen s) n ->
  Z.of_nat n = ceil_div (size - hs_offset s) blocksize ->
  exists s' w' t,
    for_range n (hash_block blocksize size blockhash) s w = (Ok s', w', t) /\
    hs_blocks s' = hs_blocks s ++ chunks blocksize size (hs_offset s) n /\
    lasts (hs_gen s') 0.
Proof.
  intros s w Hd Hb. revert s w.
  induction n as [|n IH]; intros s w Ho Hr Hg Hn.
  - exists s, w, []. simpl. rewrite app_nil_r. repeat split.
    destruct (hs_gen s) as [[k|]|]; simpl; auto; lia.
  - assert (0 < size - hs_offset s) as Hpos
        by (apply (ceil_div_pos _ blocksize); lia).
    pose proof (ceil_div_step (size - hs_offset s) blocksize Hb Hpos) as Hstep.
    simpl. rewrite bind_eq, hash_block_eq. cbv zeta.
    set (m := Z.min blocksize (size - hs_offset s)) in *.
    assert (0 < m <= size - hs_offset s) as Hm by (unfold m; lia).
    pose proof (file_read_exact (w_file w) m ltac:(lia) ltac:(lia)) as Hlen.
    pose proof (file_read_remaining (w_file w) m) as Hrem.
    rewrite (pithos_hash_supported _ _ d Hd).
    set (h := hexlify _).
    rewrite Hlen.
    assert (exists g', lasts g' n /\
              match hs_gen s with
              | None => g' = None
              | Some None => g' = Some None
              | Some (Some (S k)) => g' = Some (Some k)
              | Some (Some O) => False
              end) as (g' & Hg' & Hgen).
    { destruct (hs_gen s) as [[[|k]|]|]; simpl in Hg.
      - lia.
      - exists (Some (Some k)). simpl. split; [lia|reflexivity].
      - exists (Some None). simpl. auto.
      - exists None. simpl. auto. }
    set (s1 := HashState (hs_hashes s ++ [h]) (<[h := (hs_offset s, m)]> (hs_map s))
                         (hs_offset s + m) g' (hs_blocks s ++ [(hs_offset s, m)])).
    set (w1 := World (file_read (w_file w) m).2 (w_headers w) (w_store w)).
    destruct (IH s1 w1) as (s' & w' & t & Hloop & Hblocks & Hlast).
    { simpl. lia. }
    { unfold w1, s1. cbn [w_file hs_offset]. rewrite Hrem. lia. }
    { exact Hg'. }
    { simpl. replace (size - (hs_offset s + m)) with (size - hs_offset s - m) by lia. lia. }
    simpl in Hblocks. rewrite <- app_assoc in Hblocks. simpl in Hblocks.
    destruct (hs_gen s) as [[[|k]|]|]; try contradiction; subst g';
      fold s1 w1; rewrite Hloop; eauto 10.
Qed.

Lemma hash_pass_unfold self size_arg hash_cb w :
  hash_pass self size_arg hash_cb w =
  let meta := container_of self w in
  let size := declared_size size_arg w in
  match floordiv (size - 1) (block_size meta) with
  | Raise e => (Raise e, w, [])
  | Ok q =>
      match start_progress HashSink hash_cb (1 + q) w with
      | (Raise e, w0, t0) => (Raise e, w0, t0)
      | (Ok g, w0, t0) =>
          match for_range (range_len (1 + q))
                          (hash_block (block_size meta) size (block_hash meta))
                          (HashState [] ∅ 0 g []) w0 with
          | (Ok s, w1, t1) => (Ok (size, s), w1, t0 ++ t1)
          | (Raise e, w1, t1) => (Raise e, w1, t0 ++ t1)
          end
      end
  end.
Proof.
  unfold hash_pass, container_of, declared_size.
  rewrite bind_eq. unfold container_meta at 1. cbv zeta.
  rewrite bind_eq.
  assert ((match size_arg with Some n => ret n | None => fstat_size end) w
          = (Ok (match size_arg with Some n => n | None => st_size (w_file w) end), w, []))
    as -> by (destruct size_arg; reflexivity).
  rewrite bind_eq. unfold lift at 1.
  destruct (floordiv _ _) as [q|e]; [|reflexivity].
  rewrite bind_eq.
  destruct (start_progress _ _ _ w) as [[[g|e] w0] t0]; [|rewrite ?app_nil_r; reflexivity].
  rewrite bind_eq.
  destruct (for_range _ _ _ w0) as [[[s|e] w1] t1]; simpl; rewrite ?app_nil_r; reflexivity.
Qed.

Lemma start_progress_frame sk cb n w r w0 t0 :
  start_progress sk cb n w = (r, w0, t0) ->
  w0 = w /\ requests t0 = [] /\ total_read t0 = 0 /\ erase_sinks t0 = [].
Proof.
  rewrite start_progress_eq. destruct cb as [cb|].
  - destruct (cb n) as [[|k]|]; intros [= <- <- <-]; auto.
  - intros [= <- <- <-]; auto.
Qed.

(** What a hashing pass that ends normally leaves behind. *)
Lemma hash_pass_ok self size_arg hash_cb w size s w1 t1 :
  hash_pass self size_arg hash_cb w = (Ok (size, s), w1, t1) ->
  size = declared_size size_arg w /\
  hash_inv (f_content (w_file w)) (block_hash (container_of self w))
           (f_pos (w_file w)) s w1 /\
  hs_offset s = total_read t1 /\
  requests t1 = [] /\
  w_headers w1 = w_headers w /\ w_store w1 = w_store w /\
  block_size (container_of self w) <> 0 /\
  length (hs_blocks s) = range_len (1 + (size - 1) / block_size (container_of self w)).
Proof.
  rewrite hash_pass_unfold. cbv zeta. unfold floordiv.
  destruct (block_size (container_of self w) =? 0) eqn:Ez; [discriminate|].
  destruct (start_progress _ _ _ w) as [[[g|e] w0] t0] eqn:Es; [|discriminate].
  apply start_progress_frame in Es as (-> & Hr0 & Ht0 & _).
  destruct (for_range _ _ _ w) as [[[s'|e] w'] t'] eqn:El; [|discriminate].
  intros [= <- <- <- <-].
  pose proof (hash_loop_count _ _ _ _ _ _ _ _ _ El) as Hcount.
  apply (hash_loop_inv (f_content (w_file w)) _ (f_pos (w_file w))) in El
    as (Hinv & Ho & Hr & Hh & Hs).
  simpl in Ho, Hcount.
  rewrite total_read_app, requests_app, Hr0, Hr, Ht0.
  split; [reflexivity|]. split.
  { apply Hinv. unfold hash_inv. simpl. repeat split; auto. }
  split; [lia|]. split; [reflexivity|]. split; [exact Hh|]. split; [exact Hs|].
  split; [|exact Hcount].
  intros H0. rewrite H0 in Ez. discriminate Ez.
Qed.

(** ** The assignments to [map] *)

Lemma map_of_lookup entries h b :
  map_of entries !! h = Some b <->
  exists i, entries !! i = Some (h, b) /\
            forall j b', (i < j)%nat -> entries !! j <> Some (h, b').
Proof.
  induction entries as [|[h0 b0] entries IH] using rev_ind.
  - unfold map_of. simpl. rewrite lookup_empty. split; [discriminate|].
    intros (i & Hi & _). destruct i; discriminate Hi.
  - rewrite map_of_snoc. destruct (decide (h0 = h)) as [->|Hne].
    + rewrite lookup_insert_eq. split.
      * intros [= ->]. exists (length entries). split.
        -- rewrite lookup_app_r, Nat.sub_diag by lia. reflexivity.
        -- intros j b' Hj Hl. apply lookup_lt_Some in Hl.
           rewrite length_app in Hl. simpl in Hl. lia.
      * intros (i & Hi & Hlast).
        destruct (decide (i < length entries)%nat) as [Hlt|Hge].
        -- exfalso. apply (Hlast (length entries) b0 Hlt).
           rewrite lookup_app_r, Nat.sub_diag by lia. reflexivity.
        -- pose proof (lookup_lt_Some _ _ _ Hi) as Hb.
           rewrite length_app in Hb. simpl in Hb.
           assert (i = length entries) as -> by lia.
           rewrite lookup_app_r, Nat.sub_diag in Hi by lia. simpl in Hi. congruence.
    + rewrite lookup_insert_ne by exact Hne. rewrite IH. split.
      * intros (i & Hi & Hlast). exists i. split.
        -- rewrite lookup_app_l by (eapply lookup_lt_Some; eauto). exact Hi.
        -- intros j b' Hj Hl.
           destruct (decide (j < length entries)%nat) as [Hlt|Hge].
           ++ rewrite lookup_app_l in Hl by exact Hlt. eapply Hlast; eauto.
           ++ pose proof (lookup_lt_Some _ _ _ Hl) as Hb.
              rewrite length_app in Hb. simpl in Hb.
              assert (j = length entries) as -> by lia.
              rewrite lookup_app_r, Nat.sub_diag in Hl by lia. simpl in Hl. congruence.
      * intros (i & Hi & Hlast).
        assert (i < length entries)%nat as Hlt.
        { destruct (decide (i < length entries)%nat) as [Hlt|Hge]; [exact Hlt|].
          pose proof (lookup_lt_Some _ _ _ Hi) as Hb.
          rewrite length_app in Hb. simpl in Hb.
          assert (i = length entries) as -> by lia.
          rewrite lookup_app_r, Nat.sub_diag in Hi by lia. simpl in Hi. congruence. }
        exists i. rewrite lookup_app_l in Hi by exact Hlt. split; [exact Hi|].
        intros j b' Hj Hl. apply (Hlast j b' Hj).
        rewrite lookup_app_l by (eapply lookup_lt_Some; eauto). exact Hl.
Qed.

Lemma laid_out_lookup content blockhash : forall hashes blocks pos o i h oi li,
  laid_out content blockhash pos o hashes blocks ->
  hashes !! i = Some h -> blocks !! i = Some (oi, li) ->
  let before := sum_lengths (take i blocks) in
  oi = o + before /\ 0 <= before /\ 0 <= li /\
  length (slice content (pos + Z.to_nat before) (Z.to_nat li)) = Z.to_nat li /\
  pithos_hash hashlib_algorithms
              (slice content (pos + Z.to_nat before) (Z.to_nat li)) blockhash = Ok h.
Proof.
  induction hashes as [|h0 hashes IH]; intros [|[o0 l0] blocks] pos o i h oi li; simpl; try tauto.
  - intros _ H. destruct i; discriminate H.
  - intros (-> & Hl0 & Hlen0 & Hh0 & Hrest) Hh Hb.
    destruct i as [|i]; simpl in *.
    + injection Hh as <-. injection Hb as <- <-.
      rewrite Nat.add_0_r. repeat split; auto; lia.
    + destruct (IH _ _ _ _ _ _ _ Hrest Hh Hb) as (-> & Hbefore & Hli & Hlen & Hhash).
      replace (pos + Z.to_nat (l0 + sum_lengths (take i blocks)))%nat
        with (pos + Z.to_nat l0 + Z.to_nat (sum_lengths (take i blocks)))%nat by lia.
      repeat split; auto; lia.
Qed.

Lemma send_eq v path p success w :
  send v path p success w =
  let rq := Request v path (w_headers w) p in
  let st := (store_handle (w_store w) rq).1 in
  let rs := (store_handle (w_store w) rq).2 in
  (if existsb (Z.eqb (status_code rs)) success
   then Ok rs else Raise (ClientError (status_code rs)),
   World (w_file w) (after_request (w_headers w)) st,
   [EvRequest rq rs]).
Proof.
  unfold send, after_request. cbv zeta.
  destruct (store_handle _ _) as [st rs]. cbn [fst snd].
  destruct (existsb _ success); reflexivity.
Qed.

Lemma put_block_eq self data hash w :
  put_block self data hash w =
  let rq := block_request self data (w_headers w) in
  let st := (store_handle (w_store w) rq).1 in
  let rs := (store_handle (w_store w) rq).2 in
  let w' := World (w_file w) (after_request (rq_headers rq)) st in
  if status_code rs =? 202 then
    if String.eqb (strip isspace (text rs)) hash
    then (Ok tt, w', [EvRequest rq rs])
    else (Raise (AssertionError "Local hash does not match server"), w',
          [EvRequest rq rs])
  else (Raise (ClientError (status_code rs)), w', [EvRequest rq rs]).
Proof.
  unfold put_block, bind, set_header, post, send, py_assert, ret, raise.
  cbn [w_file w_headers w_store app existsb].
  unfold block_request, block_headers, block_url, params4url, path4url, after_request.
  cbn [u_path u_params app].
  destruct (store_handle _ _) as [st rs]. cbn [fst snd rq_headers].
  rewrite orb_false_r.
  destruct (status_code rs =? 202); [|reflexivity].
  destruct (String.eqb _ hash); reflexivity.
Qed.

Lemma upload_block_eq self map hash gen w :
  upload_block self map hash gen w =
  match map !! hash with
  | None => (Raise (KeyError hash), w, [])
  | Some (offset, bytes) =>
      if offset <? 0 then (Raise IOError, w, [])
      else
        let f1 := file_seek (w_file w) offset in
        let data := (file_read f1 bytes).1 in
        let w1 := World (file_read f1 bytes).2 (w_headers w) (w_store w) in
        match put_block self data hash w1 with
        | (Ok _, w2, t2) =>
            let '(r, w3, t3) := step_progress UploadSink gen w2 in
            (r, w3, [EvSeek offset; EvRead bytes data] ++ t2 ++ t3)
        | (Raise e, w2, t2) =>
            (Raise e, w2, [EvSeek offset; EvRead bytes data] ++ t2)
        end
  end.
Proof.
  unfold upload_block. destruct (map !! hash) as [[offset bytes]|]; [|reflexivity].
  rewrite bind_eq. unfold seek at 1.
  destruct (offset <? 0); [reflexivity|].
  rewrite bind_eq. unfold read at 1. cbn [w_file w_headers w_store].
  destruct (file_read (file_seek (w_file w) offset) bytes) as [data f2]. cbn [fst snd].
  rewrite bind_eq.
  destruct (put_block self data hash _) as [[[u|e] w2] t2]; [|reflexivity].
  destruct (step_progress UploadSink gen w2) as [[r w3] t3]. reflexivity.
Qed.

Lemma map_of_is_Some entries h :
  h ∈ entries.*1 -> is_Some (map_of entries !! h).
Proof.
  induction entries as [|[h0 b0] entries IH] using rev_ind.
  - simpl. intros H. inversion H.
  - rewrite fmap_app, map_of_snoc. simpl. intros [H|H]%elem_of_app.
    + destruct (decide (h0 = h)) as [->|Hne].
      * rewrite lookup_insert_eq. eauto.
      * rewrite lookup_insert_ne by exact Hne. auto.
    + apply list_elem_of_singleton in H as ->. rewrite lookup_insert_eq. eauto.
Qed.

(** Which block [map] keeps for a fingerprint: the last one bearing it. *)
Lemma hash_inv_entry content blockhash pos0 s w h o l :
  hash_inv content blockhash pos0 s w ->
  hs_map s !! h = Some (o, l) ->
  (exists i, hs_hashes s !! i = Some h /\ hs_blocks s !! i = Some (o, l) /\
             forall j, (i < j)%nat -> hs_hashes s !! j <> Some h) /\
  0 <= o /\ 0 <= l /\
  length (slice content (pos0 + Z.to_nat o) (Z.to_nat l)) = Z.to_nat l /\
  pithos_hash hashlib_algorithms
              (slice content (pos0 + Z.to_nat o) (Z.to_nat l)) blockhash = Ok h.
Proof.
  intros (Hc & Hp & Ho & Hm & Hl) Hlook.
  rewrite Hm in Hlook. apply map_of_lookup in Hlook as (i & Hi & Hlast).
  apply lookup_zip_with_Some in Hi as (h' & b & Heq & Hh & Hb).
  injection Heq as <- <-.
  pose proof (laid_out_lookup _ _ _ _ _ _ _ _ _ _ Hl Hh Hb) as (Hoi & Hbefore & Hli & Hlen & Hhash).
  cbv zeta in *. rewrite Z.add_0_l in Hoi. rewrite <- Hoi in *.
  split; [|auto].
  exists i. split; [exact Hh|]. split; [exact Hb|].
  intros j Hj Hhj.
  pose proof (laid_out_length _ _ _ _ _ _ Hl) as Hlen2.
  destruct (hs_blocks s !! j) as [b'|] eqn:Ebj.
  - apply (Hlast j b' Hj). apply lookup_zip_with_Some. eauto.
  - apply lookup_ge_None in Ebj. apply lookup_lt_Some in Hhj. lia.
Qed.

Lemma hash_inv_covers content blockhash pos0 s w h :
  hash_inv content blockhash pos0 s w ->
  h ∈ hs_hashes s -> is_Some (hs_map s !! h).
Proof.
  intros (Hc & Hp & Ho & Hm & Hl) Hin. rewrite Hm.
  apply map_of_is_Some. rewrite fst_zip; [exact Hin|].
  apply laid_out_length in Hl. lia.
Qed.

Lemma slice_shorter (c : bytes) a b l :
  (a <= b)%nat -> length (slice c b l) = l -> length (slice c a l) = l.
Proof. unfold slice. rewrite !length_take, !length_drop. lia. Qed.

Lemma file_read_at content pos o l :
  0 <= o -> 0 <= l ->
  (file_read (file_seek (File content pos) o) l).1 = slice content (Z.to_nat o) (Z.to_nat l).
Proof.
  intros Ho Hl. unfold file_read, file_seek, remaining, slice. simpl.
  destruct (l <? 0) eqn:E; [lia|reflexivity].
Qed.

Lemma put_block_trace self data hash w r w' t :
  put_block self data hash w = (r, w', t) ->
  w_file w' = w_file w /\
  exists rs, t = [EvRequest (block_request self data (w_headers w)) rs] /\
             rs = (store_handle (w_store w) (block_request self data (w_headers w))).2.
Proof.
  rewrite put_block_eq. cbv zeta.
  destruct (status_code _ =? 202); [destruct (String.eqb _ hash)|];
    intros [= <- <- <-]; eauto.
Qed.

Lemma step_progress_frame sk gen w r w' t :
  step_progress sk gen w = (r, w', t) ->
  w' = w /\ requests t = [] /\ erase_sinks t = [] /\ total_read t = 0.
Proof.
  rewrite step_progress_eq. destruct gen as [[[|k]|]|]; intros [= <- <- <-]; auto.
Qed.

(** One turn of the upload loop, for a fingerprint whose block [map]
    locates in the source: nothing is sent, or one request that uploads
    a block bearing that fingerprint. *)
Lemma upload_block_spec self content blockhash s w0 h gen w r w' t :
  hash_inv content blockhash 0 s w0 ->
  f_content (w_file w) = content ->
  upload_block self (hs_map s) h gen w = (r, w', t) ->
  f_content (w_file w') = content /\
  ((exists e, r = Raise e /\ requests t = []) \/
   (exists u, requests t = [u] /\ upload_of blockhash h u)).
Proof.
  intros Hinv Hc. rewrite upload_block_eq.
  destruct (hs_map s !! h) as [[o l]|] eqn:Em.
  - pose proof (hash_inv_entry _ _ _ _ _ _ _ _ Hinv Em) as (_ & Ho & Hl & Hlen & Hhash).
    destruct (o <? 0) eqn:Eo; [lia|]. cbv zeta.
    destruct (w_file w) as [c p] eqn:Ef. simpl in Hc. subst c.
    rewrite file_read_at by assumption.
    set (data := slice content (Z.to_nat o) (Z.to_nat l)) in *.
    destruct (put_block self data h _) as [[[u|e] w2] t2] eqn:Ep.
    + apply put_block_trace in Ep as (Hf & rs & -> & _).
      destruct (step_progress UploadSink gen w2) as [[r3 w3] t3] eqn:Es.
      apply step_progress_frame in Es as (-> & Hr3 & _).
      intros [= <- <- <-]. split.
      * rewrite Hf. reflexivity.
      * right. exists (block_request self data (w_headers w), rs). split.
        { change (requests ([EvSeek o; EvRead l data;
                              EvRequest (block_request self data (w_headers w)) rs] ++ t3)
                  = [(block_request self data (w_headers w), rs)]).
          rewrite requests_app, Hr3. reflexivity. }
        split; [reflexivity|]. exists data. split; [reflexivity|exact Hhash].
    + apply put_block_trace in Ep as (Hf & rs & -> & _).
      intros [= <- <- <-]. split.
      * rewrite Hf. reflexivity.
      * right. exists (block_request self data (w_headers w), rs).
        split; [reflexivity|].
        split; [reflexivity|]. exists data. split; [reflexivity|exact Hhash].
  - intros [= <- <- <-]. split; [exact Hc|]. left. eauto.
Qed.

(** The upload loop sends, in order, one block for each fingerprint of
    [missing] it gets to, and gets to all of them when it ends normally. *)
Lemma upload_loop_spec self content blockhash s w0 : forall missing gen w r w' t,
  hash_inv content blockhash 0 s w0 ->
  f_content (w_file w) = content ->
  for_each missing (upload_block self (hs_map s)) gen w = (r, w', t) ->
  exists done,
    done `prefix_of` missing /\
    Forall2 (fun u h => upload_of blockhash h u) (requests t) done /\
    (forall g, r = Ok g -> done = missing).
Proof.
  induction missing as [|h missing IH]; intros gen w r w' t Hinv Hc; simpl.
  - unfold ret. intros [= <- <- <-]. exists [].
    split; [apply prefix_nil|]. split; [constructor|reflexivity].
  - rewrite bind_eq.
    destruct (upload_block self (hs_map s) h gen w) as [[[g1|e] w1] t1] eqn:Eb.
    + destruct (upload_block_spec _ _ _ _ _ _ _ _ _ _ _ Hinv Hc Eb) as (Hc1 & [(e & He & _)|(u & Hu & Hup)]);
        [discriminate He|].
      destruct (for_each missing _ g1 w1) as [[r2 w2] t2] eqn:El.
      destruct (IH _ _ _ _ _ Hinv Hc1 El) as (done & Hpre & Hall & Hok).
      intros [= <- <- <-]. exists (h :: done). split; [|split].
      * apply prefix_cons. exact Hpre.
      * rewrite requests_app, Hu. simpl. constructor; assumption.
      * intros g Hg. f_equal. eauto.
    + destruct (upload_block_spec _ _ _ _ _ _ _ _ _ _ _ Hinv Hc Eb) as (Hc1 & [(e' & He & Hr)|(u & Hu & Hup)]).
      * intros [= <- <- <-]. exists []. rewrite Hr. split; [apply prefix_nil|].
        split; [constructor|discriminate].
      * intros [= <- <- <-]. exists [h]. rewrite Hu. split; [|split].
        -- apply prefix_cons, prefix_nil.
        -- constructor; [assumption|constructor].
        -- discriminate.
Qed.

Lemma create_object_unfold self object size_arg hash_cb upload_cb w :
  create_object self object size_arg hash_cb upload_cb w =
  match hash_pass self size_arg hash_cb w with
  | (Ok (size, s), w1, t1) =>
      if hs_offset s =? size
      then let '(r, w2, t2) := negotiate self object size s upload_cb w1 in
           (r, w2, t1 ++ t2)
      else (Raise (AssertionError ""), w1, t1)
  | (Raise e, w1, t1) => (Raise e, w1, t1)
  end.
Proof.
  unfold create_object. rewrite bind_eq.
  destruct (hash_pass self size_arg hash_cb w) as [[[[size s]|e] w1] t1]; [|reflexivity].
  rewrite bind_eq. unfold py_assert at 1.
  destruct (hs_offset s =? size); [|unfold raise; rewrite app_nil_r; reflexivity].
  unfold ret at 1. cbn [app].
  destruct (negotiate self object size s upload_cb w1) as [[r w2] t2]. reflexivity.
Qed.

Lemma negotiate_unfold self object size s upload_cb w1 :
  negotiate self object size s upload_cb w1 =
  let rq := submission self object size (hs_hashes s) (octet_stream (w_headers w1)) in
  let st := (store_handle (w_store w1) rq).1 in
  let rs := (store_handle (w_store w1) rq).2 in
  let w2 := World (w_file w1) (after_request (rq_headers rq)) st in
  if status_code rs =? 201 then (Ok tt, w2, [EvRequest rq rs])
  else if status_code rs =? 409 then
    match start_progress UploadSink upload_cb (Z.of_nat (length (json rs))) w2 with
    | (Raise e, w3, t3) => (Raise e, w3, EvRequest rq rs :: t3)
    | (Ok g, w3, t3) =>
        let x := resubmit self object size s
                          (for_each (json rs) (upload_block self (hs_map s)) g w3) in
        (x.1.1, x.1.2, EvRequest rq rs :: t3 ++ x.2)
    end
  else (Raise (ClientError (status_code rs)), w2, [EvRequest rq rs]).
Proof.
  unfold negotiate. cbv zeta.
  rewrite bind_eq. unfold set_header at 1. cbn [w_file w_headers w_store].
  rewrite bind_eq. unfold put. rewrite send_eq. cbv zeta.
  cbn [w_file w_headers w_store existsb].
  unfold submission, hashmap_url, octet_stream, params4url, path4url.
  cbn [u_path u_params app rq_headers].
  destruct (store_handle _ _) as [st rs]. cbn [fst snd].
  destruct (status_code rs =? 201) eqn:E201.
  - cbn [orb]. rewrite E201. reflexivity.
  - cbn [orb]. rewrite orb_false_r.
    destruct (status_code rs =? 409) eqn:E409; [|reflexivity].
    rewrite E201, bind_eq.
    destruct (start_progress _ _ _ _) as [[[g|e] w3] t3]; [|reflexivity].
    rewrite bind_eq. unfold resubmit.
    destruct (for_each _ _ g w3) as [[[g'|e] w4] t4]; [|reflexivity].
    rewrite bind_eq, send_eq. cbv zeta. cbn [w_file w_headers w_store existsb].
    unfold submission, hashmap_url.
    destruct (store_handle (w_store w4) _) as [st' rs']. cbn [fst snd].
    rewrite orb_false_r.
    destruct (status_code rs' =? 201); simpl; rewrite ?app_nil_r; reflexivity.
Qed.

Lemma hash_pass_trace self size_arg hash_cb w r w1 t1 :
  hash_pass self size_arg hash_cb w = (r, w1, t1) -> requests t1 = [].
Proof.
  rewrite hash_pass_unfold. cbv zeta.
  destruct (floordiv _ _) as [q|e]; [|intros [= <- <- <-]; reflexivity].
  destruct (start_progress _ _ _ w) as [[[g|e] w0] t0] eqn:Es;
    apply start_progress_frame in Es as (-> & Hr0 & _); [|intros [= <- <- <-]; exact Hr0].
  destruct (for_range _ _ _ w) as [[[s'|e] w'] t'] eqn:El;
    apply hash_loop_no_requests in El; intros [= <- <- <-];
    rewrite requests_app, Hr0, El; reflexivity.
Qed.

Lemma posts_uploads blockhash l done :
  Forall2 (fun u h => upload_of blockhash h u) l done -> posts l = l.
Proof.
  induction 1 as [|u h l done [Hv _] _ IH]; [reflexivity|].
  unfold posts in *. simpl. unfold is_post at 1. rewrite Hv, IH. reflexivity.
Qed.

Lemma posts_app l1 l2 : posts (l1 ++ l2) = posts l1 ++ posts l2.
Proof. apply List.filter_app. Qed.

(** C6.  The running [offset] of the hashing pass is the number of bytes
    it has read.  When that number differs from the declared size,
    [create_object] stops at the assertion of line 101: it raises
    [AssertionError] with the world as the hashing pass left it, no
    request was sent (neither the hash map nor a block), and the store
    is untouched. *)
Theorem create_object_size_mismatch self object size_arg hash_cb upload_cb
        w size s w1 t1 :
  hash_pass self size_arg hash_cb w = (Ok (size, s), w1, t1) ->
  total_read t1 <> size ->
  size = declared_size size_arg w /\
  hs_offset s = total_read t1 /\
  create_object self object size_arg hash_cb upload_cb w
    = (Raise (AssertionError ""), w1, t1) /\
  requests t1 = [] /\
  w_store w1 = w_store w.
Proof.
  intros Hpass Hne.
  pose proof (hash_pass_ok _ _ _ _ _ _ _ _ Hpass) as (Hsize & _ & Ho & Hr & _ & Hs & _).
  rewrite create_object_unfold, Hpass.
  destruct (hs_offset s =? size) eqn:E; [lia|]. auto.
Qed.

(** C8.  When the store answers the submission of the hash map with
    201, [create_object] returns at once: the submission is the only
    request of the whole operation, so no block is uploaded and the
    hash map is not submitted again. *)
Theorem create_object_stored self object size_arg hash_cb upload_cb
        w size s w1 t1 :
  hash_pass self size_arg hash_cb w = (Ok (size, s), w1, t1) ->
  hs_offset s = size ->
  let rq := submission self object size (hs_hashes s) (octet_stream (w_headers w1)) in
  let rs := (store_handle (w_store w1) rq).2 in
  status_code rs = 201 ->
  exists w2,
    create_object self object size_arg hash_cb upload_cb w
      = (Ok tt, w2, t1 ++ [EvRequest rq rs]) /\
    requests (t1 ++ [EvRequest rq rs]) = [(rq, rs)] /\
    posts (requests (t1 ++ [EvRequest rq rs])) = [] /\
    w_file w2 = w_file w1.
Proof.
  intros Hpass Ho rq rs Hst.
  pose proof (hash_pass_trace _ _ _ _ _ _ _ Hpass) as Hr.
  rewrite create_object_unfold, Hpass, negotiate_unfold. cbv zeta.
  fold rq. fold rs. rewrite Hst, Ho, Z.eqb_refl. simpl.
  eexists. split; [reflexivity|].
  rewrite requests_app, Hr. simpl. auto.
Qed.

(** C5, amended.  In a run of [create_object] on a source read from its
    start, whose submission the store answered with 409 and a list of
    missing fingerprints: one block is uploaded for each entry of a
    prefix [done] of that list, in the order of the list and bearing
    the fingerprint of the entry, and none besides; when the operation
    ends normally [done] is the whole list.  So when the list names
    each fingerprint once, no fingerprint is uploaded twice, however
    many blocks of the hash map bear it.  The loop of lines 117-123
    takes the list as it comes: an entry that comes twice is uploaded
    twice. *)
Theorem create_object_uploads_missing self object size_arg hash_cb upload_cb
        w r w2 t rq rs rest :
  f_pos (w_file w) = 0%nat ->
  create_object self object size_arg hash_cb upload_cb w = (r, w2, t) ->
  requests t = (rq, rs) :: rest ->
  status_code rs = 409 ->
  exists done,
    done `prefix_of` json rs /\
    Forall2 (fun u h => upload_of (block_hash (container_of self w)) h u)
            (posts rest) done /\
    length (posts rest) = length done /\
    (r = Ok tt -> done = json rs) /\
    (NoDup (json rs) -> NoDup done).
Proof.
  intros Hpos Hrun Hreq Hst.
  rewrite create_object_unfold in Hrun.
  destruct (hash_pass self size_arg hash_cb w) as [[[[size s]|e] w1] t1] eqn:Hpass.
  2:{ injection Hrun as <- <- <-. apply hash_pass_trace in Hpass.
      rewrite Hpass in Hreq. discriminate Hreq. }
  pose proof (hash_pass_trace _ _ _ _ _ _ _ Hpass) as Hr1.
  pose proof (hash_pass_ok _ _ _ _ _ _ _ _ Hpass) as (_ & Hinv & _).
  rewrite Hpos in Hinv.
  destruct (hs_offset s =? size).
  2:{ injection Hrun as <- <- <-. rewrite Hr1 in Hreq. discriminate Hreq. }
  rewrite negotiate_unfold in Hrun. cbv zeta in Hrun.
  set (rq0 := submission _ _ _ _ _) in Hrun.
  set (rs0 := (store_handle (w_store w1) rq0).2) in Hrun.
  set (w20 := World _ _ _) in Hrun.
  assert (forall t2 u, requests (t1 ++ EvRequest rq0 rs0 :: t2) = u :: rest ->
                       u = (rq0, rs0) /\ rest = requests t2) as Hhead.
  { intros t2 u. rewrite requests_app, Hr1. simpl. intros [= <- <-]. auto. }
  assert (exists done, done `prefix_of` json rs /\
            Forall2 (fun u h => upload_of (block_hash (container_of self w)) h u)
                    (posts rest) done /\
            (r = Ok tt -> done = json rs)) as (done & Hpre & Hall & Hok).
  { destruct (status_code rs0 =? 201) eqn:E201.
    { injection Hrun as <- <- <-.
      apply (Hhead []) in Hreq as ([= -> ->] & ->). lia. }
    destruct (status_code rs0 =? 409) eqn:E409.
    2:{ injection Hrun as <- <- <-.
        apply (Hhead []) in Hreq as ([= -> ->] & ->). lia. }
    destruct (start_progress _ _ _ w20) as [[[g|e] w3] t3] eqn:Es;
      apply start_progress_frame in Es as (-> & Hr3 & _).
    2:{ injection Hrun as <- <- <-.
        apply Hhead in Hreq as ([= -> ->] & ->). rewrite Hr3.
        exists []. split; [apply prefix_nil|]. split; [constructor|discriminate]. }
    unfold resubmit in Hrun.
    destruct (for_each _ _ g w20) as [[[g'|e] w4] t4] eqn:El; cbn [fst snd] in Hrun.
    - eapply (upload_loop_spec self) in El as (done & Hpre & Hall & Hok);
        [|exact Hinv|destruct Hinv as (Hc & _); exact Hc].
      injection Hrun as <- <- <-.
      apply Hhead in Hreq as ([= -> ->] & ->).
      exists done. rewrite !requests_app, Hr3. cbn [app].
      rewrite posts_app, (posts_uploads _ _ _ Hall).
      change (posts (requests [EvRequest _ _])) with (@nil (request * response)).
      rewrite app_nil_r.
      split; [exact Hpre|]. split; [exact Hall|]. intros _. eauto.
    - eapply (upload_loop_spec self) in El as (done & Hpre & Hall & Hok);
        [|exact Hinv|destruct Hinv as (Hc & _); exact Hc].
      injection Hrun as <- <- <-.
      apply Hhead in Hreq as ([= -> ->] & ->).
      exists done. rewrite !requests_app, Hr3. cbn [app].
      rewrite (posts_uploads _ _ _ Hall).
      split; [exact Hpre|]. split; [exact Hall|]. discriminate. }
  exists done. split; [exact Hpre|]. split; [exact Hall|].
  split; [eapply Forall2_length; eauto|]. split; [exact Hok|].
  intros Hnd. destruct Hpre as [k Hk]. rewrite Hk in Hnd.
  apply NoDup_app in Hnd. tauto.
Qed.

Lemma ceil_div_nonneg a b : 0 < b -> 0 <= a -> 0 <= ceil_div a b.
Proof. intros Hb Ha. pose proof (ceil_div_spec a b Hb). nia. Qed.

Lemma file_read_eof f n :
  remaining f = [] ->
  (file_read f n).1 = [] /\ remaining (file_read f n).2 = [].
Proof.
  intros Hr.
  assert ((file_read f n).1 = []) as Hd.
  { unfold file_read. cbn [fst]. rewrite Hr. destruct (n <? 0); [reflexivity|apply take_nil]. }
  split; [exact Hd|]. apply length_zero_iff_nil.
  rewrite file_read_remaining, Hr, Hd. reflexivity.
Qed.

Lemma file_read_short f n :
  0 <= n -> Z.of_nat (length (file_read f n).1) < n ->
  remaining (file_read f n).2 = [].
Proof.
  intros Hn Hshort. apply length_zero_iff_nil. rewrite file_read_remaining.
  unfold file_read in *. cbn [fst] in *.
  destruct (n <? 0) eqn:E; [lia|]. rewrite length_take in *. lia.
Qed.

(** Once the source is exhausted the loop reads nothing more. *)
Lemma hash_loop_at_eof blocksize size blockhash n s w s' w' t :
  remaining (w_file w) = [] ->
  for_range n (hash_block blocksize size blockhash) s w = (Ok s', w', t) ->
  hs_offset s' = hs_offset s.
Proof.
  intros Heof Hloop.
  assert (remaining (w_file (s, w).2) = [] ->
          remaining (w_file (s', w').2) = [] /\ hs_offset (s', w').1 = hs_offset (s, w).1)
    as Hrel; [|destruct (Hrel Heof) as [_ H]; exact H].
  revert Hloop.
  apply (for_range_rel
           (fun x y _ =>
              remaining (w_file x.2) = [] ->
              remaining (w_file y.2) = [] /\ hs_offset y.1 = hs_offset x.1)
           (hash_block blocksize size blockhash)).
  - intros x. auto.
  - intros x y z t1 t2 H1 H2 Hx. destruct (H1 Hx) as (Hy & Ho1).
    destruct (H2 Hy) as (Hz & Ho2). split; [exact Hz|congruence].
  - intros s0 w0 s1 w1 t1. rewrite hash_block_eq. cbv zeta.
    set (m := Z.min blocksize (size - hs_offset s0)).
    intros Hb Hx. cbn [fst snd] in *.
    destruct (file_read_eof (w_file w0) m Hx) as (Hd & Hr).
    destruct (pithos_hash _ _ blockhash) as [h|e]; [|discriminate].
    rewrite Hd in Hb.
    destruct (hs_gen s0) as [[[|k]|]|]; inversion Hb; subst; simpl; split; auto; lia.
Qed.

(** A loop that ends with [offset = size] has read every block in full:
    its blocks are those [chunks] lists. *)
Lemma hash_loop_exact blocksize size blockhash n : forall s w s' w' t,
  0 < blocksize ->
  hs_offset s <= size ->
  Z.of_nat n = ceil_div (size - hs_offset s) blocksize ->
  for_range n (hash_block blocksize size blockhash) s w = (Ok s', w', t) ->
  hs_offset s' = size ->
  hs_blocks s' = hs_blocks s ++ chunks blocksize size (hs_offset s) n.
Proof.
  induction n as [|n IH]; intros s w s' w' t Hb Ho Hn; simpl.
  - unfold ret. intros [= <- <- <-] _. rewrite app_nil_r. reflexivity.
  - assert (0 < size - hs_offset s) as Hpos
        by (apply (ceil_div_pos _ blocksize); lia).
    pose proof (ceil_div_step (size - hs_offset s) blocksize Hb Hpos) as Hstep.
    rewrite bind_eq, hash_block_eq. cbv zeta.
    set (m := Z.min blocksize (size - hs_offset s)) in *.
    assert (0 < m <= size - hs_offset s) as Hm by (unfold m; lia).
    pose proof (file_read_bound (w_file w) m ltac:(lia)) as Hle.
    pose proof (file_read_short (w_file w) m ltac:(lia)) as Hshort.
    set (data := (file_read (w_file w) m).1) in *.
    set (w1 := World _ _ _).
    destruct (pithos_hash _ data blockhash) as [h|e]; [|discriminate].
    assert (forall g,
               let s1 := HashState (hs_hashes s ++ [h])
                                   (<[h := (hs_offset s, Z.of_nat (length data))]> (hs_map s))
                                   (hs_offset s + Z.of_nat (length data)) g
                                   (hs_blocks s ++ [(hs_offset s, Z.of_nat (length data))]) in
               forall r2 w2 t2,
                 for_range n (hash_block blocksize size blockhash) s1 w1 = (r2, w2, t2) ->
                 r2 = Ok s' -> hs_offset s' = size ->
                 hs_blocks s' = hs_blocks s ++ (hs_offset s, m)
                                  :: chunks blocksize size (hs_offset s + m) n) as Hrest.
    { intros g s1 r2 w2 t2 Hloop -> Hend.
      destruct (Z.eq_dec (Z.of_nat (length data)) m) as [Hfull|Hlt].
      - apply IH in Hloop; try assumption.
        + rewrite Hloop. unfold s1. cbn [hs_blocks hs_offset].
          rewrite <- app_assoc, Hfull. reflexivity.
        + unfold s1. cbn [hs_offset]. lia.
        + unfold s1. cbn [hs_offset]. rewrite Hfull.
          replace (size - (hs_offset s + m)) with (size - hs_offset s - m) by lia. lia.
      - apply hash_loop_at_eof in Hloop.
        + unfold s1 in Hloop. cbn [hs_offset] in Hloop. lia.
        + unfold w1. cbn [w_file]. apply Hshort. lia. }
    destruct (hs_gen s) as [[[|k]|]|]; try discriminate;
      match goal with |- context [for_range n ?b ?s1 w1] =>
        destruct (for_range n b s1 w1) as [[r2 w2] t2] eqn:El end;
      intros [= -> <- <-] Hend; eapply Hrest; eauto.
Qed.

(** C1.  For a declared size that is not negative and a positive block
    size.  On a source that holds at least [size] bytes from where it
    stands, with a digest algorithm [hashlib] knows (and a hash
    callback, if any, that lasts), the hashing pass of [create_object]
    ends normally with [offset = size], so the assertion of line 101
    holds.  And whenever a hashing pass ends normally with
    [offset = size], it has cut [ceil(size / blocksize)] blocks, one
    fingerprint each: they start at offset 0, follow one another
    without gap, are not empty (offsets increase strictly), all have
    [blocksize] bytes except possibly the last, which has no more, and
    their lengths sum to [size].  With [size = 0] there is no block and
    no fingerprint. *)
Theorem hash_pass_blocks self size_arg hash_cb w :
  let meta := container_of self w in
  let size := declared_size size_arg w in
  0 <= size ->
  0 < block_size meta ->
  (forall d,
      hashlib_algorithms (block_hash meta) = Some d ->
      size <= Z.of_nat (length (remaining (w_file w))) ->
      sink_ok hash_cb ->
      exists s w1 t1,
        hash_pass self size_arg hash_cb w = (Ok (size, s), w1, t1) /\
        hs_offset s = size) /\
  (forall s w1 t1,
      hash_pass self size_arg hash_cb w = (Ok (size, s), w1, t1) ->
      hs_offset s = size ->
      length (hs_blocks s) = Z.to_nat (ceil_div size (block_size meta)) /\
      length (hs_hashes s) = length (hs_blocks s) /\
      contiguous 0 (hs_blocks s) /\
      (forall i o l, hs_blocks s !! i = Some (o, l) ->
         l <= block_size meta /\
         ((S i < length (hs_blocks s))%nat -> l = block_size meta)) /\
      sum_lengths (hs_blocks s) = size /\
      (size = 0 -> hs_blocks s = [] /\ hs_hashes s = [])).
Proof.
  intros meta size Hsize Hbs.
  pose proof (ceil_div_nblocks size (block_size meta) Hbs) as Hn.
  pose proof (ceil_div_nonneg size (block_size meta) Hbs Hsize) as Hnn.
  set (nblocks := ceil_div size (block_size meta)) in *.
  split.
  - intros d Hd Hsrc Hsink.
    destruct (hash_pass self size_arg hash_cb w) as [[r w1] t1] eqn:Hpass.
    pose proof Hpass as Hpass'.
    rewrite hash_pass_unfold in Hpass'. cbv zeta in Hpass'.
    fold meta size in Hpass'. unfold floordiv in Hpass'.
    destruct (block_size meta =? 0) eqn:Ez; [lia|].
    rewrite Hn in Hpass'.
    assert (exists g, start_progress HashSink hash_cb nblocks w
                      = (Ok g, w, match g with
                                  | Some _ => [EvCallback HashSink nblocks; EvNext HashSink]
                                  | None => []
                                  end)
                      /\ lasts g (range_len nblocks)) as (g & Hstart & Hg).
    { rewrite start_progress_eq. destruct hash_cb as [cb|]; simpl in Hsink.
      - specialize (Hsink nblocks). destruct (cb nblocks) as [[|k]|]; simpl in Hsink.
        + lia.
        + exists (Some (Some k)). split; [reflexivity|]. simpl. unfold range_len. lia.
        + exists (Some None). split; [reflexivity|]. exact I.
      - exists None. split; [reflexivity|exact I]. }
    rewrite Hstart in Hpass'.
    destruct (hash_loop_good (block_size meta) size (block_hash meta) d
                             (range_len nblocks) (HashState [] ∅ 0 g []) w)
      as (s & w' & t & Hloop & Hblocks & _); simpl; try assumption; try lia.
    { unfold range_len. rewrite Z.sub_0_r. lia. }
    rewrite Hloop in Hpass'. injection Hpass' as <- <- <-.
    pose proof (hash_pass_ok _ _ _ _ _ _ _ _ Hpass) as (_ & Hinv & _).
    destruct Hinv as (_ & _ & Ho & _ & Hl).
    simpl in Hblocks.
    destruct (chunks_facts (block_size meta) size (range_len nblocks) 0)
      as (_ & Hsum & _).
    { exact Hbs. }
    { lia. }
    { unfold range_len. rewrite Z.sub_0_r. lia. }
    rewrite <- Hblocks in Hsum.
    eexists s, w', _. split; [reflexivity|lia].
  - intros s w1 t1 Hpass Hend.
    pose proof (hash_pass_ok _ _ _ _ _ _ _ _ Hpass) as (_ & Hinv & _).
    destruct Hinv as (_ & _ & Ho & _ & Hl).
    rewrite hash_pass_unfold in Hpass. cbv zeta in Hpass.
    fold meta size in Hpass. unfold floordiv in Hpass.
    destruct (block_size meta =? 0) eqn:Ez; [lia|].
    rewrite Hn in Hpass.
    destruct (start_progress _ _ _ w) as [[[g|e] w0] t0] eqn:Es; [|discriminate].
    apply start_progress_frame in Es as (-> & _).
    destruct (for_range _ _ _ w) as [[[s'|e] w'] t'] eqn:El; [|discriminate].
    injection Hpass as -> <- <-.
    apply hash_loop_exact in El; [|exact Hbs|simpl; lia| |exact Hend].
    2:{ simpl. unfold range_len. rewrite Z.sub_0_r. lia. }
    simpl in El.
    destruct (chunks_facts (block_size meta) size (range_len nblocks) 0)
      as (Hcont & Hsum & Hlens).
    { exact Hbs. }
    { lia. }
    { unfold range_len. rewrite Z.sub_0_r. lia. }
    rewrite <- El in Hcont, Hsum, Hlens.
    assert (length (hs_blocks s) = range_len nblocks) as Hcount
        by (rewrite El; apply chunks_length).
    split; [exact Hcount|].
    split; [eapply laid_out_length; eauto|].
    split; [exact Hcont|].
    split; [intros i o l Hi; rewrite Hcount; eauto|].
    split; [lia|].
    intros H0. assert (hs_blocks s = []) as Hnil.
    { apply length_zero_iff_nil. rewrite Hcount. unfold nblocks, range_len.
      rewrite H0, ceil_div_0 by lia. reflexivity. }
    split; [exact Hnil|]. apply length_zero_iff_nil.
    erewrite laid_out_length by eauto. rewrite Hnil. reflexivity.
Qed.

(** C3, amended.  For a fingerprint [h] of the hash map, [map[h]] is the
    [(offset, length)] pair of the LAST block bearing [h] (the loop
    assigns [map[hash]] at every block, so a later block replaces an
    earlier one); the turn of the upload loop for [h] seeks to that
    offset, reads exactly [length] bytes there, and posts them as the
    body of the request. *)
Theorem upload_block_reads_last_block self size_arg hash_cb w size s w1 t1
        h gen w2 :
  hash_pass self size_arg hash_cb w = (Ok (size, s), w1, t1) ->
  h ∈ hs_hashes s ->
  f_content (w_file w2) = f_content (w_file w) ->
  exists i o l,
    hs_hashes s !! i = Some h /\
    hs_blocks s !! i = Some (o, l) /\
    (forall j, (i < j)%nat -> hs_hashes s !! j <> Some h) /\
    hs_map s !! h = Some (o, l) /\
    let data := slice (f_content (w_file w)) (Z.to_nat o) (Z.to_nat l) in
    Z.of_nat (length data) = l /\
    exists r w3 rs tail,
      upload_block self (hs_map s) h gen w2
      = (r, w3, [EvSeek o; EvRead l data;
                 EvRequest (block_request self data (w_headers w2)) rs] ++ tail).
Proof.
  intros Hpass Hin Hc.
  pose proof (hash_pass_ok _ _ _ _ _ _ _ _ Hpass) as (_ & Hinv & _).
  destruct (hash_inv_covers _ _ _ _ _ _ Hinv Hin) as [[o l] Hm].
  pose proof (hash_inv_entry _ _ _ _ _ _ _ _ Hinv Hm)
    as ((i & Hh & Hb & Hlast) & Ho & Hl & Hlen & _).
  exists i, o, l. repeat (split; [assumption|]).
  cbv zeta. split.
  { apply (slice_shorter _ (Z.to_nat o)) in Hlen; [|lia]. lia. }
  rewrite upload_block_eq, Hm.
  destruct (o <? 0) eqn:Eo; [lia|]. cbv zeta.
  destruct (w_file w2) as [c p] eqn:Ef. simpl in Hc. subst c.
  rewrite file_read_at by assumption.
  set (data := slice _ _ _).
  destruct (put_block self data h _) as [[[u|e] w3] t3] eqn:Ep;
    apply put_block_trace in Ep as (_ & rs & -> & _); simpl.
  - destruct (step_progress UploadSink gen w3) as [[r4 w4] t4]. eauto 10.
  - eexists _, _, rs, []. reflexivity.
Qed.

(** ** The block hasher *)

Lemma rstrip_nil_iff chars s :
  rstrip chars s = [] <-> forallb (fun c => byte_in c chars) s = true.
Proof.
  induction s as [|c s IH]; simpl; [tauto|].
  destruct (rstrip chars s) eqn:E.
  - destruct (byte_in c chars); simpl.
    + rewrite <- IH. tauto.
    + split; intro H; discriminate H.
  - split; [discriminate|].
    intros [_ H]%andb_true_iff. apply IH in H. discriminate H.
Qed.

Lemma rstrip_decompose chars s :
  exists t, s = rstrip chars s ++ t /\ forallb (fun c => byte_in c chars) t = true.
Proof.
  induction s as [|c s (t & Hs & Ht)]; simpl.
  - exists []. auto.
  - destruct (rstrip chars s) eqn:E.
    + destruct (byte_in c chars) eqn:Ec.
      * exists (c :: s). split; [reflexivity|]. simpl. rewrite Ec. simpl.
        apply rstrip_nil_iff. exact E.
      * exists t. simpl in Hs. split; [simpl; congruence|exact Ht].
    + exists t. split; [|exact Ht]. simpl. simpl in Hs. congruence.
Qed.

Lemma rstrip_last chars s c :
  last (rstrip chars s) = Some c -> byte_in c chars = false.
Proof.
  induction s as [|a s IH]; simpl; [discriminate|].
  destruct (rstrip chars s) as [|b r] eqn:E.
  - destruct (byte_in a chars) eqn:Ea; simpl; [discriminate|].
    intros [= <-]. exact Ea.
  - intros H. apply IH. rewrite last_cons in H.
    destruct (last (b :: r)) eqn:El; [exact H|].
    apply last_None in El. discriminate El.
Qed.

Lemma all_nul t :
  forallb (fun c => byte_in c NUL) t = true <-> t = repeat x00 (length t).
Proof.
  induction t as [|c t IH]; simpl; [tauto|].
  rewrite andb_true_iff, IH. unfold byte_in, NUL, byte_eqb. simpl.
  rewrite orb_false_r. split.
  - intros [Hc Ht]. apply Byte.byte_dec_bl in Hc. congruence.
  - intros [= -> Ht]. split; [reflexivity|exact Ht].
Qed.

Lemma hexlify_lower_hex d : string_forall is_lower_hex (hexlify d) = true.
Proof.
  induction d as [|b d IH]; simpl; [reflexivity|].
  rewrite IH, !andb_true_r. destruct b; reflexivity.
Qed.

(** C4.  For a digest algorithm [hashlib] knows, [pithos_hash] returns
    the digest, in lowercase hexadecimal digits, of the block without
    its trailing NUL bytes: [stripped] is the block up to a run of NULs
    that ends it and does not itself end with NUL.  So a block of NULs
    only hashes to the digest of the empty string, and two blocks that
    are equal once stripped get the same fingerprint. *)
Theorem pithos_hash_strips_nul block blockhash d :
  hashlib_algorithms blockhash = Some d ->
  let stripped := rstrip NUL block in
  pithos_hash hashlib_algorithms block blockhash = Ok (hexlify (d stripped)) /\
  string_forall is_lower_hex (hexlify (d stripped)) = true /\
  (exists k, block = stripped ++ repeat x00 k) /\
  last stripped <> Some x00 /\
  (Forall (eq x00) block ->
   pithos_hash hashlib_algorithms block blockhash = Ok (hexlify (d []))) /\
  (forall block', rstrip NUL block' = stripped ->
     pithos_hash hashlib_algorithms block' blockhash
     = pithos_hash hashlib_algorithms block blockhash).
Proof.
  intros Hd stripped.
  split; [apply pithos_hash_supported; exact Hd|].
  split; [apply hexlify_lower_hex|].
  split.
  { destruct (rstrip_decompose NUL block) as (t & Hb & Ht).
    apply all_nul in Ht. exists (length t). rewrite <- Ht. exact Hb. }
  split.
  { intros Hl. apply rstrip_last in Hl. discriminate Hl. }
  split.
  - intros Hall. rewrite (pithos_hash_supported _ _ d Hd).
    replace (rstrip NUL block) with (@nil byte); [reflexivity|].
    symmetry. apply rstrip_nil_iff.
    induction Hall as [|c t <- _ IH]; [reflexivity|]. simpl. exact IH.
  - intros block' Heq.
    rewrite !(pithos_hash_supported _ _ d Hd), Heq. reflexivity.
Qed.

(** ** Trimming the response *)

Lemma lstrip_ws_spec s :
  exists pre, s = String.append pre (lstrip_ws isspace s) /\
              string_forall isspace pre = true /\
              match lstrip_ws isspace s with
              | String c _ => isspace c = false
              | EmptyString => True
              end.
Proof.
  induction s as [|c s (pre & Hs & Hpre & Hhead)]; simpl.
  - exists EmptyString. auto.
  - destruct (isspace c) eqn:Ec.
    + exists (String c pre). split; [|split; [simpl; rewrite Ec; exact Hpre|exact Hhead]].
      change (String c s = String c (String.append pre (lstrip_ws isspace s))).
      congruence.
    + exists EmptyString. simpl. auto.
Qed.

Lemma rstrip_ws_spec s :
  exists post, s = String.append (rstrip_ws isspace s) post /\
               string_forall isspace post = true.
Proof.
  induction s as [|c s (post & Hs & Hpost)]; simpl.
  - exists EmptyString. auto.
  - destruct (rstrip_ws isspace s) eqn:E.
    + destruct (isspace c) eqn:Ec.
      * exists (String c post). split; [|simpl; rewrite Ec; exact Hpost].
        change (String c s = String c (String.append EmptyString post)). congruence.
      * exists post. split; [|exact Hpost].
        change (String c s = String c (String.append EmptyString post)). congruence.
    + exists post. split; [|exact Hpost].
      change (String c s = String c (String.append (String a s0) post)). congruence.
Qed.

Lemma append_cons c (a b : string) : String c a +:+ b = String c (a +:+ b).
Proof. reflexivity. Qed.

Lemma append_empty (b : string) : "" +:+ b = b.
Proof. reflexivity. Qed.

(** The last character of what [rstrip_ws] leaves is not whitespace. *)
Lemma rstrip_ws_last s : forall init c,
  rstrip_ws isspace s = init +:+ String c "" -> isspace c = false.
Proof.
  induction s as [|a s IH]; intros init c; simpl.
  - destruct init; discriminate.
  - destruct (rstrip_ws isspace s) as [|b r] eqn:E.
    + destruct (isspace a) eqn:Ea.
      * destruct init; discriminate.
      * destruct init as [|i init]; rewrite ?append_cons, ?append_empty.
        -- intros [= <-]. exact Ea.
        -- intros [= _ H]. destruct init; discriminate.
    + destruct init as [|i init]; rewrite ?append_cons, ?append_empty.
      * intros [= _ H]; discriminate H.
      * intros [= _ H]. apply (IH init c). exact H.
Qed.

Lemma lstrip_ws_spaces pre s :
  string_forall isspace pre = true ->
  lstrip_ws isspace (pre +:+ s) = lstrip_ws isspace s.
Proof.
  induction pre as [|c pre IH]; [reflexivity|].
  simpl. intros [Hc Hpre]%andb_prop. rewrite ?append_cons. simpl. rewrite Hc. auto.
Qed.

Lemma lstrip_ws_all_spaces pre :
  string_forall isspace pre = true -> lstrip_ws isspace pre = "".
Proof.
  induction pre as [|c pre IH]; [reflexivity|].
  simpl. intros [Hc Hpre]%andb_prop. rewrite Hc. auto.
Qed.

Lemma rstrip_ws_all_spaces post :
  string_forall isspace post = true -> rstrip_ws isspace post = "".
Proof.
  induction post as [|c post IH]; [reflexivity|].
  simpl. intros [Hc Hpost]%andb_prop. rewrite IH, Hc; auto.
Qed.

Lemma rstrip_ws_spaces s post :
  string_forall isspace post = true ->
  rstrip_ws isspace (s +:+ post) = rstrip_ws isspace s.
Proof.
  intros Hpost. induction s as [|c s IH].
  - rewrite append_empty. apply rstrip_ws_all_spaces. exact Hpost.
  - rewrite append_cons. simpl. rewrite IH. reflexivity.
Qed.

Lemma rstrip_ws_bare s :
  (forall init c, s = init +:+ String c "" -> isspace c = false) ->
  rstrip_ws isspace s = s.
Proof.
  induction s as [|a s IH]; [reflexivity|].
  intros Hlast. simpl.
  destruct s as [|b s].
  - simpl. rewrite (Hlast "" a); reflexivity.
  - rewrite IH.
    + reflexivity.
    + intros init c Heq. apply (Hlast (String a init) c).
      rewrite append_cons. congruence.
Qed.

(** What [strip] returns is the trimmed string, and nothing else is. *)
Lemma strip_trimmed s body : strip isspace s = body <-> trimmed s body.
Proof.
  split.
  - intros <-. unfold strip.
    destruct (lstrip_ws_spec s) as (pre & Hs & Hpre & Hhead).
    destruct (rstrip_ws_spec (lstrip_ws isspace s)) as (post & Hl & Hpost).
    exists pre, post. split; [rewrite <- Hl; exact Hs|].
    split; [exact Hpre|]. split; [exact Hpost|]. split.
    + intros c rest Hc. rewrite Hc in Hl. rewrite Hl in Hhead.
      rewrite append_cons in Hhead. exact Hhead.
    + apply rstrip_ws_last.
  - intros (before & after & -> & Hb & Ha & Hfirst & Hlast). unfold strip.
    rewrite (lstrip_ws_spaces _ _ Hb).
    destruct body as [|c rest].
    + rewrite append_empty, (lstrip_ws_all_spaces _ Ha). reflexivity.
    + rewrite append_cons. simpl. rewrite (Hfirst c rest eq_refl).
      rewrite <- append_cons, (rstrip_ws_spaces _ _ Ha).
      apply rstrip_ws_bare. exact Hlast.
Qed.

(** C7.  [put_block] sends one request, the POST of the block; it
    returns normally exactly when the answer has status 202 and its
    body, without the whitespace around it, is the fingerprint declared
    for the block: the body is the fingerprint between two runs of
    whitespace, and the fingerprint neither begins nor ends with
    whitespace ([trimmed]).  Otherwise it raises: [ClientError] for a
    status other than 202, [AssertionError] for a body that, trimmed,
    is not the fingerprint. *)
Theorem put_block_fails_iff self data hash w :
  let rq := block_request self data (w_headers w) in
  let rs := (store_handle (w_store w) rq).2 in
  let out := put_block self data hash w in
  out.2 = [EvRequest rq rs] /\
  (out.1.1 = Ok tt <-> status_code rs = 202 /\ trimmed (text rs) hash) /\
  ((exists e, out.1.1 = Raise e) <->
   status_code rs <> 202 \/ ~ trimmed (text rs) hash) /\
  (status_code rs <> 202 -> out.1.1 = Raise (ClientError (status_code rs))) /\
  (status_code rs = 202 -> ~ trimmed (text rs) hash ->
   out.1.1 = Raise (AssertionError "Local hash does not match server")).
Proof.
  cbv zeta. rewrite put_block_eq. cbv zeta.
  set (rq := block_request self data (w_headers w)).
  set (rs := (store_handle (w_store w) rq).2).
  pose proof (strip_trimmed (text rs) hash) as Htrim.
  destruct (status_code rs =? 202) eqn:Est.
  - apply Z.eqb_eq in Est.
    destruct (String.eqb (strip isspace (text rs)) hash) eqn:Eh; cbn [fst snd].
    + apply String.eqb_eq in Eh. apply Htrim in Eh as Ht.
      split; [reflexivity|]. split; [split; [intros _; split; assumption|reflexivity]|].
      split.
      { split; [intros [e He]; discriminate He|intros [H|H]; contradiction]. }
      split; [intros H; contradiction|intros _ H; contradiction].
    + apply String.eqb_neq in Eh.
      assert (~ trimmed (text rs) hash) as Hn.
      { intros Ht. apply Eh, Htrim. exact Ht. }
      split; [reflexivity|]. split.
      { split; [intros H; discriminate H|intros [_ Ht]; contradiction]. }
      split.
      { split; [intros _; right; exact Hn|intros _; eexists; reflexivity]. }
      split; [intros H; contradiction|intros _ _; reflexivity].
  - apply Z.eqb_neq in Est. cbn [fst snd].
    split; [reflexivity|]. split.
    { split; [intros H; discriminate H|intros [H _]; contradiction]. }
    split.
    { split; [intros _; left; exact Est|intros _; eexists; reflexivity]. }
    split; [intros _; reflexivity|intros H; contradiction].
Qed.

Lemma windows_length blocksize data n : length (windows blocksize data n) = n.
Proof.
  revert data. induction n as [|n IH]; intros data; simpl; [|rewrite IH]; reflexivity.
Qed.

Lemma windows_facts blocksize n : forall data,
  (0 < blocksize)%nat ->
  ((n - 1) * blocksize < length data \/ n = 0)%nat ->
  (length data <= n * blocksize)%nat ->
  concat (windows blocksize data n) = data /\
  Forall (fun b => (0 < length b <= blocksize)%nat) (windows blocksize data n).
Proof.
  induction n as [|n IH]; intros data Hb Hlo Hhi; simpl.
  - split; [|constructor]. symmetry. apply length_zero_iff_nil. lia.
  - destruct (IH (drop blocksize data) Hb) as (Hc & Hf).
    + rewrite length_drop. destruct n as [|n]; [right; reflexivity|left].
      simpl in *. nia.
    + rewrite length_drop. simpl in Hhi. lia.
    + split.
      * rewrite Hc. apply take_drop.
      * constructor; [|exact Hf]. rewrite length_take.
        destruct Hlo as [Hlo|Hlo]; [|discriminate Hlo].
        simpl in Hlo. rewrite Nat.sub_0_r in Hlo.
        destruct n; simpl in *; lia.
Qed.

Lemma append_block_eq path blocksize filesize offset w :
  append_block path blocksize filesize offset w =
  let n := Z.min blocksize (filesize - offset) in
  let data := (file_read (w_file w) n).1 in
  let headers := <["Content-Length" := HInt (Z.of_nat (length data))]> (w_headers w) in
  let rq := Request POST path headers (Data data) in
  let st := (store_handle (w_store w) rq).1 in
  let rs := (store_handle (w_store w) rq).2 in
  (if existsb (Z.eqb (status_code rs)) [202; 204]
   then Ok (offset + Z.of_nat (length data))
   else Raise (ClientError (status_code rs)),
   World (file_read (w_file w) n).2 (after_request headers) st,
   [EvRead n data; EvRequest rq rs]).
Proof.
  unfold append_block. rewrite bind_eq. unfold read at 1. cbv zeta.
  destruct (file_read (w_file w) _) as [data f']. cbn [fst snd].
  rewrite bind_eq. unfold set_header at 1. cbn [w_file w_headers w_store].
  rewrite bind_eq. unfold post. rewrite send_eq. cbv zeta.
  cbn [w_file w_headers w_store].
  destruct (existsb _ _); reflexivity.
Qed.

Lemma take_min_length {A} (l : list A) n : take (n `min` length l) l = take n l.
Proof. rewrite <- take_take, firstn_all. reflexivity. Qed.

Lemma append_loop_spec path content blocksize n : forall offset w r w' t,
  0 < blocksize ->
  f_content (w_file w) = content ->
  f_pos (w_file w) = Z.to_nat offset ->
  0 <= offset <= Z.of_nat (length content) ->
  Z.of_nat n = ceil_div (Z.of_nat (length content) - offset) blocksize ->
  for_range n (append_block path blocksize (Z.of_nat (length content))) offset w
    = (r, w', t) ->
  exists k,
    (k <= n)%nat /\
    Forall2 (post_of path)
            (take k (windows (Z.to_nat blocksize) (drop (Z.to_nat offset) content) n))
            (requests t) /\
    ((exists o, r = Ok o) <-> Forall (accepted [202; 204]) (requests t)) /\
    ((exists o, r = Ok o) -> k = n).
Proof.
  induction n as [|n IH]; intros offset w r w' t Hb Hc Hp Ho Hn; simpl.
  - unfold ret. intros [= <- <- <-]. exists 0%nat. simpl.
    split; [lia|]. split; [constructor|]. split; [|reflexivity].
    split; [constructor|eauto].
  - rewrite bind_eq, append_block_eq. cbv zeta.
    set (filesize := Z.of_nat (length content)) in *.
    assert (0 < filesize - offset) as Hpos
        by (apply (ceil_div_pos _ blocksize); lia).
    pose proof (ceil_div_step (filesize - offset) blocksize Hb Hpos) as Hstep.
    set (m := Z.min blocksize (filesize - offset)) in *.
    assert ((file_read (w_file w) m).1 = take (Z.to_nat blocksize) (drop (Z.to_nat offset) content))
      as Hdata.
    { unfold file_read, remaining. rewrite Hc, Hp. cbn [fst].
      destruct (m <? 0) eqn:E; [lia|].
      rewrite <- (take_min_length _ (Z.to_nat blocksize)). f_equal.
      rewrite length_drop. unfold m, filesize. lia. }
    assert (Z.of_nat (length (file_read (w_file w) m).1) = m) as Hlen.
    { apply file_read_exact; [lia|]. unfold remaining. rewrite Hc, Hp, length_drop.
      unfold m, filesize in *. lia. }
    set (data := (file_read (w_file w) m).1) in *.
    set (rq := Request POST path _ (Data data)).
    set (rs := (store_handle (w_store w) rq).2).
    assert (post_of path data (rq, rs)) as Hpost.
    { repeat split. simpl. apply lookup_insert_eq. }
    destruct (existsb (Z.eqb (status_code rs)) [202; 204]) eqn:Eacc.
    + set (w1 := World _ _ _).
      destruct (for_range n _ (offset + Z.of_nat (length data)) w1) as [[r2 w2] t2] eqn:El.
      apply IH in El as (k & Hk & Hall & Hiff & Hfull); try assumption.
      * intros [= <- <- <-]. exists (S k). split; [lia|].
        change (requests ([EvRead m data; EvRequest rq rs] ++ t2))
          with ((rq, rs) :: requests t2).
        split; [|split].
        -- simpl. rewrite <- Hdata. constructor; [exact Hpost|].
           rewrite drop_drop. fold data.
           destruct n as [|n'].
           { destruct k; [|lia]. simpl in *. exact Hall. }
           assert (m = blocksize) as Hm.
           { pose proof (ceil_div_spec (filesize - offset) blocksize Hb). unfold m. nia. }
           replace (Z.to_nat offset + Z.to_nat blocksize)%nat
             with (Z.to_nat (offset + Z.of_nat (length data))) by lia.
           exact Hall.
        -- rewrite Hiff. split.
           ++ intros H. constructor; [exact Eacc|exact H].
           ++ intros H. inversion H; assumption.
        -- intros H. f_equal. auto.
      * unfold w1. cbn [w_file]. rewrite file_read_pos, Hp. fold data. lia.
      * lia.
      * rewrite Hlen. replace (filesize - (offset + m)) with (filesize - offset - m) by lia. lia.
    + intros [= <- <- <-]. exists 1%nat. split; [lia|].
      change (requests [EvRead m data; EvRequest rq rs]) with [(rq, rs)].
      split; [|split].
      * simpl. rewrite <- Hdata. constructor; [exact Hpost|]. rewrite take_0. constructor.
      * split; [intros (o & Ho'); discriminate Ho'|].
        intros H. inversion H as [|? ? Hacc _]. unfold accepted in Hacc.
        cbn [snd] in Hacc. congruence.
      * intros (o & Ho'). discriminate Ho'.
Qed.

Lemma append_object_unfold self object w :
  append_object self object w =
  let meta := container_of self w in
  let filesize := st_size (w_file w) in
  match floordiv (filesize - 1) (block_size meta) with
  | Raise e => (Raise e, w, [])
  | Ok q =>
      let w0 := World (w_file w)
                      (octet_stream (<["Content-Range" := HStr "bytes */*"]> (w_headers w)))
                      (w_store w) in
      match for_range (range_len (1 + q))
                      (append_block (object_url self object) (block_size meta) filesize)
                      0 w0 with
      | (Ok _, w1, t1) => (Ok tt, w1, t1)
      | (Raise e, w1, t1) => (Raise e, w1, t1)
      end
  end.
Proof.
  unfold append_object, container_of. rewrite bind_eq. unfold container_meta at 1.
  rewrite bind_eq. unfold fstat_size at 1. rewrite bind_eq. unfold lift at 1. cbv zeta.
  destruct (floordiv _ _) as [q|e]; [|reflexivity].
  rewrite bind_eq. unfold set_header at 1. rewrite bind_eq. unfold set_header at 1.
  cbn [w_file w_headers w_store].
  rewrite bind_eq. unfold object_url, octet_stream, params4url, path4url.
  cbn [u_path u_params app].
  destruct (for_range _ _ _ _) as [[[o|e] w1] t1]; simpl; rewrite ?app_nil_r; reflexivity.
Qed.

(** C10.  [append_object] on a source file read from its start, with a
    positive block size: the file is cut into [ceil(filesize / B)]
    windows, none empty and none longer than [B], that make up the file
    in order.  The requests sent are the POSTs of the first [k] windows,
    in order, each with its window as body and the window's length as
    [Content-Length]; the operation ends normally exactly when every
    request was accepted (202 or 204), and then [k] is the number of
    windows.  An empty file sends no request. *)
Theorem append_object_requests self object w r w' t :
  let meta := container_of self w in
  let content := f_content (w_file w) in
  let n := Z.to_nat (ceil_div (st_size (w_file w)) (block_size meta)) in
  let blocks := windows (Z.to_nat (block_size meta)) content n in
  f_pos (w_file w) = 0%nat ->
  0 < block_size meta ->
  append_object self object w = (r, w', t) ->
  length blocks = n /\
  concat blocks = content /\
  Forall (fun b => 0 < Z.of_nat (length b) <= block_size meta) blocks /\
  (exists k,
      (k <= n)%nat /\
      Forall2 (post_of (object_url self object)) (take k blocks) (requests t) /\
      (r = Ok tt <-> Forall (accepted [202; 204]) (requests t)) /\
      (r = Ok tt -> length (requests t) = n /\ k = n)) /\
  (st_size (w_file w) = 0 -> requests t = []).
Proof.
  intros meta content n blocks Hpos Hbs Hrun.
  pose proof (ceil_div_nblocks (st_size (w_file w)) (block_size meta) Hbs) as Hn.
  pose proof (ceil_div_spec (st_size (w_file w)) (block_size meta) Hbs) as Hspec.
  assert (0 <= ceil_div (st_size (w_file w)) (block_size meta)) as Hnn
      by (apply ceil_div_nonneg; unfold st_size; lia).
  unfold st_size in *. fold content in Hn, Hspec, Hnn |- *. fold content in n.
  split; [apply windows_length|].
  destruct (windows_facts (Z.to_nat (block_size meta)) n content) as (Hcat & Hall).
  { lia. }
  { fold n. destruct n as [|n'] eqn:En; [right; reflexivity|left]. nia. }
  { nia. }
  split; [exact Hcat|]. split.
  { eapply Forall_impl; [exact Hall|]. simpl. intros b Hb. lia. }
  rewrite append_object_unfold in Hrun. cbv zeta in Hrun. fold meta in Hrun.
  unfold floordiv, st_size in Hrun. fold content in Hrun.
  destruct (block_size meta =? 0) eqn:Ez; [lia|].
  rewrite Hn in Hrun.
  set (w0 := World _ _ _) in Hrun.
  destruct (for_range _ _ 0 w0) as [[r1 w1] t1] eqn:El.
  apply (append_loop_spec _ content) in El as (k & Hk & Hposts & Hiff & Hfull);
    try assumption; try reflexivity; try lia.
  2:{ unfold range_len. rewrite Z.sub_0_r. lia. }
  simpl in Hposts. rewrite drop_0 in Hposts.
  unfold range_len in Hk, Hposts, Hfull. fold n in Hk, Hposts, Hfull.
  fold blocks in Hposts.
  assert (t = t1 /\ (r = Ok tt <-> exists o, r1 = Ok o)) as (-> & Hr).
  { destruct r1 as [o|e]; injection Hrun as <- <- <-; split; auto.
    - split; eauto.
    - split; [discriminate|intros (o & Ho); discriminate Ho]. }
  split.
  - exists k. split; [exact Hk|]. split; [exact Hposts|].
    split; [rewrite Hr; exact Hiff|].
    intros Hok. apply Hr, Hfull in Hok. split; [|exact Hok].
    apply Forall2_length in Hposts. unfold blocks in Hposts.
    rewrite <- Hposts, length_take, windows_length. lia.
  - intros H0. apply Forall2_length in Hposts. unfold blocks in Hposts.
    assert (n = 0%nat) as Hn0.
    { unfold n. rewrite H0, ceil_div_0 by lia. reflexivity. }
    rewrite length_take, windows_length in Hposts.
    apply length_zero_iff_nil. lia.
Qed.

(** ** [overwrite_object] *)

Lemma overwrite_block_eq path blocksize filesize datasize offset w :
  overwrite_block path blocksize filesize datasize offset w =
  let n := Z.min (Z.min blocksize (filesize - offset)) (datasize - offset) in
  let data := (file_read (w_file w) n).1 in
  let headers := <["Content-Length" := HInt (Z.of_nat (length data))]> (w_headers w) in
  let rq := Request POST path headers (Data data) in
  let st := (store_handle (w_store w) rq).1 in
  let rs := (store_handle (w_store w) rq).2 in
  (if existsb (Z.eqb (status_code rs)) [202; 204]
   then Ok (offset + Z.of_nat (length data))
   else Raise (ClientError (status_code rs)),
   World (file_read (w_file w) n).2 (after_request headers) st,
   [EvRead n data; EvRequest rq rs]).
Proof.
  unfold overwrite_block. rewrite bind_eq. unfold read at 1. cbv zeta.
  destruct (file_read (w_file w) _) as [data f']. cbn [fst snd].
  rewrite bind_eq. unfold set_header at 1. cbn [w_file w_headers w_store].
  rewrite bind_eq. unfold post. rewrite send_eq. cbv zeta.
  cbn [w_file w_headers w_store].
  destruct (existsb _ _); reflexivity.
Qed.

Lemma overwrite_object_unfold self object start end_ w :
  overwrite_object self object start end_ w =
  let meta := container_of self w in
  let filesize := st_size (w_file w) in
  let datasize := end_ - start + 1 in
  match floordiv (datasize - 1) (block_size meta) with
  | Raise e => (Raise e, w, [])
  | Ok q =>
      let w0 := World (w_file w)
                      (octet_stream (<["Content-Range" := HStr (content_range start end_)]>
                                       (w_headers w)))
                      (w_store w) in
      match for_range (range_len (1 + q))
                      (overwrite_block (object_url self object) (block_size meta)
                                       filesize datasize)
                      0 w0 with
      | (Ok _, w1, t1) => (Ok tt, w1, t1)
      | (Raise e, w1, t1) => (Raise e, w1, t1)
      end
  end.
Proof.
  unfold overwrite_object, container_of. rewrite bind_eq. unfold container_meta at 1.
  rewrite bind_eq. unfold fstat_size at 1. cbv zeta. rewrite bind_eq. unfold lift at 1.
  destruct (floordiv _ _) as [q|e]; [|reflexivity].
  rewrite bind_eq. unfold set_header at 1. rewrite bind_eq. unfold set_header at 1.
  cbn [w_file w_headers w_store].
  rewrite bind_eq. unfold object_url, octet_stream, params4url, path4url.
  cbn [u_path u_params app].
  destruct (for_range _ _ _ _) as [[[o|e] w1] t1]; simpl; rewrite ?app_nil_r; reflexivity.
Qed.



Lemma prefix_run {A} (x : res A * world * list event) r w t pre :
  x = (r, w, t) ->
  (let '(r', w', t') := x in (r', w', pre ++ t')) = (r, w, pre ++ t).
Proof. intros ->. reflexivity. Qed.

Lemma hash_loop_with_sink blocksize size blockhash n : forall s w g,
  lasts (Some g) n ->
  exists t,
    for_range n (hash_block blocksize size blockhash) (with_gen (Some g) s) w =
    (match (for_range n (hash_block blocksize size blockhash) (with_gen None s) w).1.1 with
     | Ok s' => Ok (with_gen (Some (advance g n)) s')
     | Raise e => Raise e
     end,
     (for_range n (hash_block blocksize size blockhash) (with_gen None s) w).1.2,
     t) /\
    let t0 := (for_range n (hash_block blocksize size blockhash) (with_gen None s) w).2 in
    erase_sinks t0 = t0 /\ Forall is_read t0 /\
    erase_sinks t = t0 /\
    (forall s', (for_range n (hash_block blocksize size blockhash) (with_gen None s) w).1.1
                = Ok s' -> t = ticked HashSink t0).
Proof.
  induction n as [|n IH]; intros s w g Hg.
  - simpl. exists []. split.
    + unfold ret, with_gen. simpl. destruct g; simpl; rewrite ?Nat.sub_0_r; reflexivity.
    + simpl. auto.
  - simpl. rewrite !bind_eq, !hash_block_eq. cbv zeta.
    cbn [with_gen hs_offset hs_hashes hs_map hs_blocks hs_gen].
    set (m := Z.min blocksize (size - hs_offset s)).
    set (data := (file_read (w_file w) m).1).
    set (w1 := World _ _ _).
    destruct (pithos_hash hashlib_algorithms data blockhash) as [h|e].
    2:{ exists [EvRead m data]. split; [reflexivity|]. cbn [fst snd].
        split; [reflexivity|]. split; [constructor; [exact I|constructor]|].
        split; [reflexivity|]. intros s' H. discriminate H. }
    set (s1 := HashState (hs_hashes s ++ [h]) _ _ None _).
    assert (exists g', lasts (Some g') n /\ advance g' n = advance g (S n) /\
              match g with
              | None => g' = None
              | Some (S k) => g' = Some k
              | Some O => False
              end) as (g' & Hg' & Hadv & Hgen).
    { destruct g as [[|k]|]; simpl in Hg.
      - lia.
      - exists (Some k). simpl. split; [lia|]. split; [f_equal; lia|reflexivity].
      - exists None. simpl. auto. }
    destruct (IH s1 w1 g' Hg') as (t & Hrun & Herase0 & Hreads & Herase & Htick).
    change (with_gen None s1) with s1 in *.
    assert (with_gen (Some g') s1
            = HashState (hs_hashes s ++ [h])
                        (<[h := (hs_offset s, Z.of_nat (length data))]> (hs_map s))
                        (hs_offset s + Z.of_nat (length data)) (Some g')
                        (hs_blocks s ++ [(hs_offset s, Z.of_nat (length data))]))
      as Hs1 by reflexivity.
    rewrite Hs1 in Hrun.
    exists ([EvRead m data; EvNext HashSink] ++ t).
    destruct (for_range n _ s1 w1) as [[r0 w0] t0] eqn:E0.
    cbn [fst snd] in *. split.
    + destruct g as [[|k]|]; try contradiction; subst g';
        (etransitivity; [apply prefix_run; exact Hrun|]);
        destruct r0; rewrite ?Hadv; reflexivity.
    + cbv zeta. split; [simpl; f_equal; exact Herase0|].
      split; [constructor; [exact I|exact Hreads]|].
      split; [simpl; f_equal; exact Herase|].
      intros s' Hs'. simpl. f_equal. f_equal. eauto.
Qed.

Lemma upload_loop_with_sink self map missing : forall g w,
  lasts (Some g) (length missing) ->
  exists t,
    for_each missing (upload_block self map) (Some g) w =
    (match (for_each missing (upload_block self map) None w).1.1 with
     | Ok _ => Ok (Some (advance g (length missing)))
     | Raise e => Raise e
     end,
     (for_each missing (upload_block self map) None w).1.2,
     t) /\
    let t0 := (for_each missing (upload_block self map) None w).2 in
    erase_sinks t0 = t0 /\ erase_sinks t = t0.
Proof.
  induction missing as [|h missing IH]; intros g w Hg.
  - simpl. exists []. split; [|auto].
    unfold ret. destruct g; simpl; rewrite ?Nat.sub_0_r; reflexivity.
  - simpl. rewrite !bind_eq, !upload_block_eq.
    destruct (map !! h) as [[o l]|].
    2:{ exists []. simpl. auto. }
    destruct (o <? 0).
    { exists []. simpl. auto. }
    cbv zeta.
    set (data := (file_read (file_seek (w_file w) o) l).1).
    set (w1 := World _ _ _).
    destruct (put_block self data h w1) as [[[u|e] w2] t2] eqn:Ep;
      apply put_block_trace in Ep as (_ & rs & -> & _).
    2:{ eexists. split; [reflexivity|]. simpl. auto. }
    rewrite !step_progress_eq.
    assert (exists g', lasts (Some g') (length missing) /\
              advance g' (length missing) = advance g (S (length missing)) /\
              match g with
              | None => g' = None
              | Some (S k) => g' = Some k
              | Some O => False
              end) as (g' & Hg' & Hadv & Hgen).
    { destruct g as [[|k]|]; simpl in Hg.
      - lia.
      - exists (Some k). simpl. split; [lia|]. split; [f_equal; lia|reflexivity].
      - exists None. simpl. auto. }
    destruct (IH g' w2 Hg') as (t & Hrun & Herase0 & Herase).
    destruct (for_each missing _ None w2) as [[r0 w0] t0] eqn:E0.
    cbn [fst snd] in *.
    exists ([EvSeek o; EvRead l data; EvRequest (block_request self data (w_headers w1)) rs;
             EvNext UploadSink] ++ t).
    split.
    + destruct g as [[|k]|]; try contradiction; subst g';
        (etransitivity; [apply prefix_run; exact Hrun|]);
        destruct r0; rewrite ?Hadv; reflexivity.
    + cbv zeta. simpl. rewrite Herase0, Herase. auto.
Qed.

Lemma hash_loop_reads blocksize size blockhash n : forall s w s' w' t,
  hs_gen s = None ->
  for_range n (hash_block blocksize size blockhash) s w = (Ok s', w', t) ->
  length t = n.
Proof.
  induction n as [|n IH]; intros s w s' w' t Hg; simpl.
  - unfold ret. intros [= <- <- <-]. reflexivity.
  - rewrite bind_eq, hash_block_eq, Hg. cbv zeta.
    destruct (pithos_hash _ _ blockhash) as [h|e]; [|discriminate].
    destruct (for_range n _ _ _) as [[r2 w2] t2] eqn:El.
    intros [= -> <- <-]. apply IH in El; [|reflexivity]. simpl. f_equal. exact El.
Qed.

(** The hashing pass with a callback that lasts, against the pass
    without one. *)
Lemma hash_pass_with_sink self size_arg cb w :
  sink_ok (Some cb) ->
  let bare := hash_pass self size_arg None w in
  exists g t,
    hash_pass self size_arg (Some cb) w =
    (match bare.1.1 with
     | Ok (size, s) => Ok (size, with_gen (Some g) s)
     | Raise e => Raise e
     end, bare.1.2, t) /\
    erase_sinks bare.2 = bare.2 /\
    erase_sinks t = bare.2 /\
    (forall size s, bare.1.1 = Ok (size, s) ->
       let nblocks := 1 + (size - 1) / block_size (container_of self w) in
       t = [EvCallback HashSink nblocks; EvNext HashSink] ++ ticked HashSink bare.2 /\
       Forall is_read bare.2 /\
       length bare.2 = length (hs_blocks s)).
Proof.
  intros Hsink bare. unfold bare. rewrite !hash_pass_unfold. cbv zeta.
  set (size := declared_size size_arg w).
  set (meta := container_of self w).
  unfold floordiv. destruct (block_size meta =? 0).
  { exists None, []. simpl. split; [reflexivity|]. split; [reflexivity|].
    split; [reflexivity|]. intros ? ? H. discriminate H. }
  set (nblocks := 1 + (size - 1) / block_size meta).
  rewrite !start_progress_eq.
  specialize (Hsink nblocks). simpl in Hsink.
  assert (exists g, lasts (Some g) (range_len nblocks) /\
            match cb nblocks with
            | None => g = None
            | Some (S k) => g = Some k
            | Some O => False
            end) as (g & Hg & Hprime).
  { destruct (cb nblocks) as [[|k]|]; simpl in Hsink.
    - lia.
    - exists (Some k). simpl. split; [unfold range_len; lia|reflexivity].
    - exists None. simpl. auto. }
  set (s0 := HashState [] ∅ 0 None []).
  destruct (hash_loop_with_sink (block_size meta) size (block_hash meta)
                                (range_len nblocks) s0 w g Hg)
    as (t & Hrun & Herase0 & Hreads & Herase & Htick).
  change (with_gen None s0) with s0 in *.
  change (with_gen (Some g) s0) with (HashState [] ∅ 0 (Some g) []) in Hrun.
  destruct (for_range (range_len nblocks) _ s0 w) as [[r0 w0] t0] eqn:E0.
  cbn [fst snd] in *.
  exists (advance g (range_len nblocks)),
         ([EvCallback HashSink nblocks; EvNext HashSink] ++ t).
  split.
  { destruct (cb nblocks) as [[|k]|]; try contradiction; subst g;
      match goal with |- context [for_range ?n ?b ?s1 w] =>
        destruct (for_range n b s1 w) as [[r1 w1] t1] eqn:E1 end;
      pose proof (eq_trans (eq_sym E1) Hrun) as [= -> -> ->];
      destruct r0; reflexivity. }
  destruct r0 as [s'|e]; cbn [fst snd app].
  - split; [exact Herase0|]. split; [simpl; exact Herase|].
    intros size' s [= <- <-]. cbv zeta. split; [|split].
    + simpl. f_equal. f_equal. eauto.
    + exact Hreads.
    + apply hash_loop_count in E0 as Hc. apply hash_loop_reads in E0; [|reflexivity].
      simpl in Hc. lia.
  - split; [exact Herase0|]. split; [simpl; exact Herase|].
    intros ? ? H. discriminate H.
Qed.

Lemma requests_erase_sinks t : requests (erase_sinks t) = requests t.
Proof.
  induction t as [|e t IH]; [reflexivity|].
  destruct e; simpl; try rewrite IH; try reflexivity; exact IH.
Qed.

(** [create_object] with a hash callback that lasts, against the same
    call without it. *)
Lemma create_object_hash_sink self object size_arg cb upload_cb w :
  sink_ok (Some cb) ->
  let with_sink := create_object self object size_arg (Some cb) upload_cb w in
  let without := create_object self object size_arg None upload_cb w in
  with_sink.1 = without.1 /\
  erase_sinks with_sink.2 = erase_sinks without.2.
Proof.
  intros Hsink. cbv zeta. rewrite !create_object_unfold.
  destruct (hash_pass_with_sink self size_arg cb w Hsink)
    as (g & t & Hrun & Herase0 & Herase & _).
  rewrite Hrun.
  destruct (hash_pass self size_arg None w) as [[[[size s]|e] w1] t1]; cbn [fst snd] in *.
  - change (hs_offset (with_gen (Some g) s)) with (hs_offset s).
    destruct (hs_offset s =? size).
    + change (negotiate self object size (with_gen (Some g) s) upload_cb)
        with (negotiate self object size s upload_cb).
      destruct (negotiate self object size s upload_cb w1) as [[r2 w2] t2].
      cbn [fst snd]. rewrite !erase_sinks_app, Herase, Herase0. auto.
    + cbn [fst snd]. rewrite Herase, Herase0. auto.
  - rewrite Herase, Herase0. auto.
Qed.

(** The same for the upload callback. *)
Lemma create_object_upload_sink self object size_arg cb w :
  sink_ok (Some cb) ->
  let with_sink := create_object self object size_arg None (Some cb) w in
  let without := create_object self object size_arg None None w in
  with_sink.1 = without.1 /\
  erase_sinks with_sink.2 = erase_sinks without.2.
Proof.
  intros Hsink. cbv zeta. rewrite !create_object_unfold.
  destruct (hash_pass self size_arg None w) as [[[[size s]|e] w1] t1]; [|auto].
  destruct (hs_offset s =? size); [|auto].
  rewrite !negotiate_unfold. cbv zeta.
  set (rq := submission _ _ _ _ _). set (rs := (store_handle (w_store w1) rq).2).
  set (w2 := World _ _ _).
  destruct (status_code rs =? 201); [auto|].
  destruct (status_code rs =? 409); [|auto].
  rewrite !start_progress_eq.
  set (n := Z.of_nat (length (json rs))).
  specialize (Hsink n). simpl in Hsink. unfold n in Hsink. rewrite Nat2Z.id in Hsink.
  assert (exists g, lasts (Some g) (length (json rs)) /\
            match cb n with
            | None => g = None
            | Some (S k) => g = Some k
            | Some O => False
            end) as (g & Hg & Hprime).
  { fold n in Hsink. destruct (cb n) as [[|k]|]; simpl in Hsink.
    - lia.
    - exists (Some k). simpl. split; [lia|reflexivity].
    - exists None. simpl. auto. }
  destruct (upload_loop_with_sink self (hs_map s) (json rs) g w2 Hg)
    as (t & Hrun & Herase0 & Herase).
  assert (forall pre, erase_sinks pre = [] ->
            let x := resubmit self object size s
                      (for_each (json rs) (upload_block self (hs_map s)) (Some g) w2) in
            let x0 := resubmit self object size s
                       (for_each (json rs) (upload_block self (hs_map s)) None w2) in
            (x.1.1, x.1.2, t1 ++ EvRequest rq rs :: pre ++ x.2).1
            = (x0.1.1, x0.1.2, t1 ++ EvRequest rq rs :: [] ++ x0.2).1 /\
            erase_sinks (x.1.1, x.1.2, t1 ++ EvRequest rq rs :: pre ++ x.2).2
            = erase_sinks (x0.1.1, x0.1.2, t1 ++ EvRequest rq rs :: [] ++ x0.2).2)
    as Hmain.
  { intros pre Hpre. cbv zeta. rewrite Hrun.
    destruct (for_each (json rs) _ None w2) as [[r0 w0] t0].
    cbn [fst snd] in *.
    destruct r0 as [g1|e]; cbn [resubmit fst snd]; (split; [reflexivity|]);
      rewrite !erase_sinks_app; simpl; rewrite !erase_sinks_app, Hpre, Herase, Herase0;
      reflexivity. }
  destruct (cb n) as [[|k]|]; try contradiction; subst g; apply Hmain; reflexivity.
Qed.

Lemma create_object_bare_trace self object size_arg w :
  let without := create_object self object size_arg None None w in
  erase_sinks without.2 = without.2.
Proof.
  cbv zeta. rewrite create_object_unfold.
  destruct (hash_pass_with_sink self size_arg (fun _ => None) w)
    as (_ & _ & _ & Herase0 & _); [intros n; exact I|].
  destruct (hash_pass self size_arg None w) as [[[[size s]|e] w1] t1];
    cbn [fst snd] in *; [|exact Herase0].
  destruct (hs_offset s =? size); [|exact Herase0].
  rewrite negotiate_unfold. cbv zeta.
  set (rq := submission _ _ _ _ _). set (rs := (store_handle (w_store w1) rq).2).
  set (w2 := World _ _ _).
  destruct (status_code rs =? 201).
  { cbn [fst snd]. rewrite erase_sinks_app, Herase0. reflexivity. }
  destruct (status_code rs =? 409).
  2:{ cbn [fst snd]. rewrite erase_sinks_app, Herase0. reflexivity. }
  rewrite start_progress_eq.
  destruct (upload_loop_with_sink self (hs_map s) (json rs) None w2 I)
    as (_ & _ & Hup & _).
  destruct (for_each (json rs) _ None w2) as [[[g|e] w4] t4];
    cbn [resubmit fst snd] in *; rewrite erase_sinks_app, Herase0; simpl;
    rewrite ?erase_sinks_app, Hup; reflexivity.
Qed.

(** ** Groups, metadata and policies *)

Lemma string_app_assoc (a b c : string) : (a +:+ b) +:+ c = a +:+ (b +:+ c).
Proof.
  induction a as [|x a IH]; [reflexivity|].
  change (String x ((a +:+ b) +:+ c) = String x (a +:+ (b +:+ c))).
  f_equal. exact IH.
Qed.

Lemma string_app_nil_r (a : string) : a +:+ "" = a.
Proof.
  induction a as [|x a IH]; [reflexivity|].
  change (String x (a +:+ "") = String x a). f_equal. exact IH.
Qed.

Lemma join_cons x l : str_join "," (x :: l) = x +:+ comma_tail l.
Proof.
  revert x. induction l as [|y l IH]; intros x.
  - simpl. rewrite string_app_nil_r. reflexivity.
  - change (str_join "," (x :: y :: l)) with (x +:+ "," +:+ str_join "," (y :: l)).
    rewrite IH. reflexivity.
Qed.

Lemma separated_fold l : forall a,
  (fold_left (fun (s : string * string) (x : string) => ((s.1 +:+ s.2) +:+ x, ","))
             l (a, ",")).1 = a +:+ comma_tail l.
Proof.
  induction l as [|x l IH]; intros a; simpl.
  - rewrite string_app_nil_r. reflexivity.
  - rewrite IH, !string_app_assoc. reflexivity.
Qed.

(** The loop that separates with commas builds [acc + ','.join(items)]. *)
Lemma separated_join acc l : separated acc l = acc +:+ str_join "," l.
Proof.
  unfold separated. destruct l as [|x l].
  - simpl. rewrite string_app_nil_r. reflexivity.
  - cbn [fold_left fst snd]. rewrite separated_fold, join_cons, string_app_nil_r.
    apply string_app_assoc.
Qed.

Lemma set_header_then {A} name v (k : unit -> M A) w :
  bind (set_header name v) k w
  = k tt (World (w_file w) (<[name := v]> (w_headers w)) (w_store w)).
Proof.
  unfold bind, set_header.
  destruct (k tt _) as [[r w2] t2]. reflexivity.
Qed.

Lemma post_once path success w :
  posts_once (_ <- post path NoData success ;; ret tt) path success (w_headers w) w.
Proof.
  unfold posts_once. cbv zeta. rewrite bind_eq. unfold post. rewrite send_eq. cbv zeta.
  unfold outcome, ret.
  destruct (existsb _ success); eexists; (split; [reflexivity|]); split; reflexivity.
Qed.

(** An operation that sets one header and posts. *)
Lemma header_post name v path success w :
  posts_once (set_header name v ;;; _ <- post path NoData success ;; ret tt)
             path success (<[name := v]> (w_headers w)) w.
Proof.
  unfold posts_once. cbv zeta. rewrite set_header_then.
  destruct (post_once path success
              (World (w_file w) (<[name := v]> (w_headers w)) (w_store w)))
    as (w' & Hrun & Hf & Hs).
  exists w'. cbn [w_file w_headers w_store] in *. auto.
Qed.

(** [set_account_group] posts once, to the account, the header
    [X-Account-Group-<group>] whose value is the user names joined with
    commas: none before the first name, none after the last, the empty
    text for no user.  [del_account_group] does what [set_account_group]
    does for no user. *)
Theorem set_account_group_joins self group usernames w :
  posts_once (set_account_group self group usernames)
             (Url [account self] [("update", None)]) [202]
             (<["X-Account-Group-" +:+ group := HStr (str_join "," usernames)]> (w_headers w))
             w /\
  del_account_group self group w = set_account_group self group [] w.
Proof.
  split; [|reflexivity].
  unfold set_account_group. cbv zeta. rewrite separated_join.
  change ("" +:+ str_join "," usernames) with (str_join "," usernames).
  apply header_post.
Qed.

Lemma comma_tail_head l : comma_tail l = "" \/ exists s, comma_tail l = String "," s.
Proof. destruct l as [|x l]; [left; reflexivity|right; eexists; reflexivity]. Qed.

Lemma plain_prefix a : forall b l1 l2,
  occurs "," a = false -> occurs "," b = false ->
  a +:+ comma_tail l1 = b +:+ comma_tail l2 ->
  a = b /\ comma_tail l1 = comma_tail l2.
Proof.
  induction a as [|c a IH]; intros [|d b] l1 l2 Ha Hb.
  - auto.
  - change ("" +:+ comma_tail l1) with (comma_tail l1).
    change (String d b +:+ comma_tail l2) with (String d (b +:+ comma_tail l2)).
    cbn [occurs] in Hb. apply orb_false_elim in Hb as [Hd _].
    destruct (comma_tail_head l1) as [->|[s ->]]; [discriminate|].
    intros [= <- _]. discriminate Hd.
  - change ("" +:+ comma_tail l2) with (comma_tail l2).
    change (String c a +:+ comma_tail l1) with (String c (a +:+ comma_tail l1)).
    cbn [occurs] in Ha. apply orb_false_elim in Ha as [Hc _].
    destruct (comma_tail_head l2) as [->|[s ->]]; [discriminate|].
    intros [= -> _]. discriminate Hc.
  - change (String c a +:+ comma_tail l1) with (String c (a +:+ comma_tail l1)).
    change (String d b +:+ comma_tail l2) with (String d (b +:+ comma_tail l2)).
    cbn [occurs] in Ha, Hb.
    apply orb_false_elim in Ha as [_ Ha]. apply orb_false_elim in Hb as [_ Hb].
    intros [= -> Heq]. destruct (IH _ _ _ Ha Hb Heq) as [-> Ht]. auto.
Qed.

Lemma comma_tail_inj l1 : forall l2,
  Forall plain_name l1 -> Forall plain_name l2 ->
  comma_tail l1 = comma_tail l2 -> l1 = l2.
Proof.
  induction l1 as [|x l1 IH]; intros [|y l2] H1 H2; try discriminate; [reflexivity|].
  change (comma_tail (x :: l1)) with (String "," (x +:+ comma_tail l1)).
  change (comma_tail (y :: l2)) with (String "," (y +:+ comma_tail l2)).
  intros [= Heq].
  inversion H1 as [|? ? [_ Hx] H1']; inversion H2 as [|? ? [_ Hy] H2']; subst.
  destruct (plain_prefix _ _ _ _ Hx Hy Heq) as [-> Ht].
  f_equal. apply IH; assumption.
Qed.

(** The text [set_account_group] builds tells the users apart: two
    different lists of names, none empty or with a comma in it, never
    give the same header value. *)
Theorem set_account_group_tells_users l1 l2 :
  Forall plain_name l1 -> Forall plain_name l2 ->
  l1 <> l2 ->
  separated "" l1 <> separated "" l2.
Proof.
  intros H1 H2 Hne Heq. apply Hne. clear Hne.
  rewrite !separated_join in Heq.
  change ("" +:+ str_join "," l1 = "" +:+ str_join "," l2) with (str_join "," l1 = str_join "," l2) in Heq.
  destruct l1 as [|x l1], l2 as [|y l2]; [reflexivity| | |].
  - rewrite join_cons in Heq. inversion H2 as [|? ? [Hy _] _]; subst.
    destruct y; [congruence|discriminate Heq].
  - rewrite join_cons in Heq. inversion H1 as [|? ? [Hx _] _]; subst.
    destruct x; [congruence|discriminate Heq].
  - rewrite !join_cons in Heq.
    inversion H1 as [|? ? [_ Hx] H1']; inversion H2 as [|? ? [_ Hy] H2']; subst.
    destruct (plain_prefix _ _ _ _ Hx Hy Heq) as [-> Ht].
    f_equal. apply comma_tail_inj; assumption.
Qed.

(** [set_object_sharing] posts once, to the object, the header
    [X-Object-Sharing]: the readers joined with commas after [read=],
    the writers after [write=], a semicolon between the two parts when
    both are there.  The value is empty exactly when no reader and no
    writer is given, which is what [del_object_sharing] posts; answers
    202 and 204 are both taken. *)
Theorem set_object_sharing_header self object readers writers w :
  posts_once (set_object_sharing self object readers writers)
             (Url [account self; container self; object] [("update", None)])
             [202; 204]
             (<["X-Object-Sharing" := HStr (sharing_text readers writers)]> (w_headers w))
             w /\
  (sharing_text readers writers = "" <-> readers = [] /\ writers = []) /\
  posts_once (del_object_sharing self object)
             (Url [account self; container self; object] [("update", None)])
             [202; 204]
             (<["X-Object-Sharing" := HStr ""]> (w_headers w)) w.
Proof.
  split; [|split].
  - unfold set_object_sharing. cbv zeta.
    assert ((if truth writers
             then separated (if negb (truth readers) then "write="
                             else (if truth readers then separated "read=" readers else "")
                                  +:+ ";write=") writers
             else if truth readers then separated "read=" readers else "")
            = sharing_text readers writers) as ->.
    { destruct readers as [|r readers], writers as [|x writers]; cbn [truth negb sharing_text];
        rewrite ?separated_join, ?string_app_assoc; reflexivity. }
    apply header_post.
  - destruct readers as [|r readers], writers as [|x writers]; cbn [sharing_text];
      (split; [intros H; try discriminate H; auto|intros [H1 H2]; try discriminate; auto]).
  - apply (header_post "X-Object-Sharing" (HStr "")).
Qed.

Lemma meta_loop prefix l : forall w,
  for_each l (fun kv (_ : unit) => set_header (prefix +:+ kv.1) kv.2) tt w
  = (Ok tt,
     World (w_file w)
           (set_all prefix l (w_headers w))
           (w_store w),
     []).
Proof.
  induction l as [|[k v] l IH]; intros w.
  - destruct w. reflexivity.
  - cbn [for_each]. rewrite set_header_then, IH. reflexivity.
Qed.

Lemma meta_fold_other prefix l name : forall h,
  (forall kv, kv ∈ l -> name <> prefix +:+ kv.1) ->
  set_all prefix l h !! name = h !! name.
Proof.
  unfold set_all. induction l as [|kv l IH]; intros h Hne; [reflexivity|].
  cbn [fold_left]. rewrite IH.
  - apply lookup_insert_ne. intros Heq. apply (Hne kv); [left|]. congruence.
  - intros kv' Hin. apply Hne. right. exact Hin.
Qed.

Lemma meta_fold_set prefix l k v : forall h,
  NoDup l.*1 -> (k, v) ∈ l ->
  set_all prefix l h !! (prefix +:+ k) = Some v.
Proof.
  induction l as [|[k0 v0] l IH]; intros h Hnd Hin; [inversion Hin|].
  change (set_all prefix ((k0, v0) :: l) h)
    with (set_all prefix l (<[prefix +:+ k0 := v0]> h)). rewrite fmap_cons in Hnd. apply NoDup_cons in Hnd as [Hk0 Hnd].
  apply elem_of_cons in Hin as [[= <- <-]|Hin].
  - rewrite meta_fold_other; [apply lookup_insert_eq|].
    intros [k' v'] Hin' Heq. cbn [fst] in Heq.
    apply (inj (String.append prefix)) in Heq. subst k'.
    apply Hk0. apply list_elem_of_fmap. exists (k, v'). auto.
  - apply IH; assumption.
Qed.

(** What the loops over [metapairs.items()] leave in the headers. *)
Lemma meta_loop_headers prefix metapairs old :
  with_meta prefix metapairs old (set_all prefix (map_to_list metapairs) old).
Proof.
  split.
  - intros k v Hk. apply meta_fold_set.
    + apply NoDup_fst_map_to_list.
    + apply elem_of_map_to_list. exact Hk.
  - intros name Hne. apply meta_fold_other.
    intros [k v] Hin. apply elem_of_map_to_list in Hin. apply Hne. eauto.
Qed.

Lemma meta_post prefix metapairs path :
  posts_meta (for_each (map_to_list metapairs)
                       (fun kv (_ : unit) => set_header (prefix +:+ kv.1) kv.2) tt ;;;
              _ <- post path NoData [202] ;; ret tt)
             path prefix metapairs.
Proof.
  intros w. eexists. split; [apply meta_loop_headers|].
  unfold posts_once. cbv zeta. rewrite bind_eq, meta_loop.
  set (w1 := World _ _ _).
  destruct (post_once path [202] w1) as (w' & Hrun & Hf & Hs).
  cbv zeta in Hrun. rewrite Hrun. exists w'. auto.
Qed.

(** The four operations that take a dictionary of metadata post it
    once, each pair [(key, val)] as the header [<prefix><key>: val],
    beside the headers set before (a header that no pair names is as
    it was): [set_account_meta] to the account, [set_container_meta]
    to the container, [set_object_meta] to the object, all three with
    the [update] parameter, and [replace_container_meta] to the
    container without it. *)
Theorem metadata_posted_once self object metapairs :
  posts_meta (set_account_meta self metapairs)
             (Url [account self] [("update", None)]) "X-Account-Meta-" metapairs /\
  posts_meta (set_container_meta self metapairs)
             (Url [account self; container self] [("update", None)])
             "X-Container-Meta-" metapairs /\
  posts_meta (replace_container_meta self metapairs)
             (Url [account self; container self] [])
             "X-Container-Meta-" metapairs /\
  posts_meta (set_object_meta self object metapairs)
             (Url [account self; container self; object] [("update", None)])
             "X-Object-Meta-" metapairs.
Proof. repeat split; apply meta_post. Qed.

(** The operations that set a policy or publish an object set one
    header and post it once, without a body and without touching the
    source file: the quota and the versioning of the account or of the
    container with the value given, [X-Object-Public] with [True] for
    [publish_object] and [False] for [unpublish_object]. *)
Theorem policies_posted_once self object value w :
  let to_account := Url [account self] [("update", None)] in
  let to_container := Url [account self; container self] [("update", None)] in
  let to_object := Url [account self; container self; object] [("update", None)] in
  let setting name v := <[name := v]> (w_headers w) in
  posts_once (set_account_quota self value) to_account [202]
             (setting "X-Account-Policy-Quota" value) w /\
  posts_once (set_account_versioning self value) to_account [202]
             (setting "X-Account-Policy-Versioning" value) w /\
  posts_once (set_container_quota self value) to_container [202]
             (setting "X-Container-Policy-Quota" value) w /\
  posts_once (set_container_versioning self value) to_container [202]
             (setting "X-Container-Policy-Versioning" value) w /\
  posts_once (publish_object self object) to_object [202]
             (setting "X-Object-Public" (HBool true)) w /\
  posts_once (unpublish_object self object) to_object [202]
             (setting "X-Object-Public" (HBool false)) w.
Proof. repeat split; apply header_post. Qed.

(** ** [truncate_object] *)

(** [truncate_object] sends one request and no data: a POST to the
    object without a body, answered with 202 or 204, whose headers give
    the new length twice (as the end of [Content-Range], which starts
    at 0, and as [X-Object-Bytes]) and name the object itself, by
    container and name, as the source.  The source file is not read. *)
Theorem truncate_object_request self object upto_bytes w :
  let headers :=
    <["X-Source-Object" := HStr (url_text (Url [container self; object] []))]>
      (<["X-Object-Bytes" := HInt upto_bytes]>
         (<["Content-Type" := HStr "application/octet-stream"]>
            (<["Content-Range" := HStr ("bytes 0-" +:+ pretty upto_bytes +:+ "/*")]>
               (w_headers w)))) in
  posts_once (truncate_object self object upto_bytes)
             (Url [account self; container self; object] [("update", None)])
             [202; 204] headers w.
Proof.
  cbv zeta. unfold truncate_object. unfold posts_once. cbv zeta.
  rewrite !set_header_then. cbn [w_file w_headers w_store].
  set (w1 := World _ _ _).
  destruct (post_once (Url [account self; container self; object] [("update", None)])
                      [202; 204] w1) as (w' & Hrun & Hf & Hs).
  exists w'. auto.
Qed.

(** ** Edges of the block arithmetic *)

(** A container that declares a block size of 0: [create_object],
    [append_object] and [overwrite_object] all raise
    [ZeroDivisionError] when they compute the number of blocks, before
    anything is read, set or sent. *)
Theorem zero_block_size_raises self object size_arg hash_cb upload_cb start end_ w :
  block_size (container_of self w) = 0 ->
  create_object self object size_arg hash_cb upload_cb w
    = (Raise ZeroDivisionError, w, []) /\
  append_object self object w = (Raise ZeroDivisionError, w, []) /\
  overwrite_object self object start end_ w = (Raise ZeroDivisionError, w, []).
Proof.
  intros Hz. split; [|split].
  - rewrite create_object_unfold, hash_pass_unfold. cbv zeta.
    unfold floordiv. rewrite Hz. reflexivity.
  - rewrite append_object_unfold. cbv zeta. unfold floordiv. rewrite Hz. reflexivity.
  - rewrite overwrite_object_unfold. cbv zeta. unfold floordiv. rewrite Hz. reflexivity.
Qed.

(** With a known algorithm and a generator that lasts, the hashing loop
    always ends normally, and cannot read more than the source has
    left. *)
Lemma hash_loop_total blocksize size blockhash d n : forall s w,
  hashlib_algorithms blockhash = Some d ->
  lasts (hs_gen s) n ->
  exists s' w' t,
    for_range n (hash_block blocksize size blockhash) s w = (Ok s', w', t) /\
    hs_offset s' - hs_offset s <= Z.of_nat (length (remaining (w_file w))).
Proof.
  intros s w Hd. revert s w.
  induction n as [|n IH]; intros s w Hg.
  - exists s, w, []. split; [reflexivity|lia].
  - cbn [for_range]. rewrite bind_eq, hash_block_eq. cbv zeta.
    set (m := Z.min blocksize (size - hs_offset s)).
    pose proof (file_read_remaining (w_file w) m) as Hrem.
    assert (length (file_read (w_file w) m).1 <= length (remaining (w_file w)))%nat as Hle.
    { unfold file_read. cbn [fst]. destruct (m <? 0); [lia|]. rewrite length_take. lia. }
    set (data := (file_read (w_file w) m).1) in *.
    rewrite (pithos_hash_supported _ _ d Hd).
    set (h := hexlify _).
    set (w1 := World _ _ _).
    assert (forall g, lasts g n ->
              exists s' w' t,
                for_range n (hash_block blocksize size blockhash)
                          (HashState (hs_hashes s ++ [h])
                                     (<[h := (hs_offset s, Z.of_nat (length data))]> (hs_map s))
                                     (hs_offset s + Z.of_nat (length data)) g
                                     (hs_blocks s ++ [(hs_offset s, Z.of_nat (length data))]))
                          w1 = (Ok s', w', t) /\
                hs_offset s' - hs_offset s <= Z.of_nat (length (remaining (w_file w))))
      as Hrest.
    { intros g Hlast.
      destruct (IH (HashState (hs_hashes s ++ [h])
                              (<[h := (hs_offset s, Z.of_nat (length data))]> (hs_map s))
                              (hs_offset s + Z.of_nat (length data)) g
                              (hs_blocks s ++ [(hs_offset s, Z.of_nat (length data))]))
                   w1 Hlast) as (s' & w' & t & Hloop & Hbound).
      exists s', w', t. split; [exact Hloop|].
      cbn [hs_offset] in Hbound. unfold w1 in Hbound. cbn [w_file] in Hbound.
      rewrite Hrem in Hbound. fold data in Hbound. lia. }
    destruct (hs_gen s) as [[[|k]|]|]; simpl in Hg.
    + lia.
    + destruct (Hrest (Some (Some k))) as (s' & w' & t & Hloop & Hbound); [simpl; lia|].
      rewrite Hloop. eauto.
    + destruct (Hrest (Some None)) as (s' & w' & t & Hloop & Hbound); [exact I|].
      rewrite Hloop. eauto.
    + destruct (Hrest None) as (s' & w' & t & Hloop & Hbound); [exact I|].
      rewrite Hloop. eauto.
Qed.

(** A callback that lasts starts well. *)
Lemma start_progress_ok sk cb n w :
  sink_ok cb ->
  exists g t0, start_progress sk cb n w = (Ok g, w, t0) /\ lasts g (Z.to_nat n).
Proof.
  intros Hsink. rewrite start_progress_eq. destruct cb as [cb|]; simpl in Hsink.
  - specialize (Hsink n). destruct (cb n) as [[|k]|]; simpl in Hsink.
    + lia.
    + eexists (Some (Some k)), _. split; [reflexivity|]. simpl. lia.
    + eexists (Some None), _. split; [reflexivity|exact I].
  - eexists None, _. split; [reflexivity|exact I].
Qed.

(** With a positive block size, the hashing loop on a source that has
    fewer bytes left than are still to be hashed reads all of them, if
    it has turns enough (or nothing is left). *)
Lemma hash_loop_short blocksize size blockhash n : forall s w s' w' t,
  0 < blocksize ->
  for_range n (hash_block blocksize size blockhash) s w = (Ok s', w', t) ->
  Z.of_nat (length (remaining (w_file w))) < size - hs_offset s ->
  remaining (w_file w) = [] \/ size - hs_offset s <= Z.of_nat n * blocksize ->
  hs_offset s' - hs_offset s = Z.of_nat (length (remaining (w_file w))).
Proof.
  induction n as [|n IH]; intros s w s' w' t Hb.
  - simpl. unfold ret. intros [= <- <- <-] Hshort [Hnil|Hn].
    + rewrite Hnil. simpl. lia.
    + lia.
  - cbn [for_range]. rewrite bind_eq, hash_block_eq. cbv zeta.
    set (m := Z.min blocksize (size - hs_offset s)).
    pose proof (file_read_remaining (w_file w) m) as Hrem.
    set (data := (file_read (w_file w) m).1) in *.
    set (w1 := World _ _ _).
    destruct (pithos_hash _ data blockhash) as [h|e]; [|discriminate].
    intros Hrun Hshort Hn.
    assert (0 <= m) as Hm by lia.
    assert (length data = Nat.min (Z.to_nat m) (length (remaining (w_file w)))) as Hlen.
    { unfold data, file_read. cbn [fst].
      destruct (m <? 0) eqn:E; [lia|]. apply length_take. }
    assert (forall g t2,
              for_range n (hash_block blocksize size blockhash)
                        (HashState (hs_hashes s ++ [h])
                                   (<[h := (hs_offset s, Z.of_nat (length data))]> (hs_map s))
                                   (hs_offset s + Z.of_nat (length data)) g
                                   (hs_blocks s ++ [(hs_offset s, Z.of_nat (length data))]))
                        w1 = (Ok s', w', t2) ->
              hs_offset s' - hs_offset s = Z.of_nat (length (remaining (w_file w)))) as Hrest.
    { intros g t2 Hloop. apply IH in Hloop; [|exact Hb| |].
      - cbn [hs_offset] in Hloop. unfold w1 in Hloop. cbn [w_file] in Hloop.
        rewrite Hrem in Hloop. lia.
      - cbn [hs_offset]. unfold w1. cbn [w_file]. rewrite Hrem. lia.
      - cbn [hs_offset]. unfold w1. cbn [w_file].
        destruct (decide (length (remaining (w_file w)) <= Z.to_nat m)%nat) as [Hall|Hmore].
        + left. apply nil_length_inv. rewrite Hrem. lia.
        + right. destruct Hn as [Hnil|Hn]; [rewrite Hnil in Hmore; simpl in Hmore; lia|].
          lia. }
    destruct (hs_gen s) as [[[|k]|]|]; [discriminate| | |];
      match type of Hrun with
      | context [for_range n ?b ?s1 w1] =>
          destruct (for_range n b s1 w1) as [[r2 w2] t2] eqn:El
      end;
      injection Hrun as -> <- <-; eapply Hrest; exact El.
Qed.

(** A source that has fewer bytes left than the size declared: with a
    block size that is not 0, a known algorithm and a hash callback
    that lasts, [create_object] fails at the assertion of line 101,
    without a request and with the store as it was; when the block size
    is positive it has read every byte that was left by then.  So does
    a call that leaves [size] out (the size is then the whole file's)
    on a file that is not at its start, and a call that declares more
    than the file holds. *)
Theorem create_object_short_source self object size_arg hash_cb upload_cb w d :
  let meta := container_of self w in
  let size := declared_size size_arg w in
  hashlib_algorithms (block_hash meta) = Some d ->
  sink_ok hash_cb ->
  block_size meta <> 0 ->
  Z.of_nat (length (remaining (w_file w))) < size ->
  exists w1 t1,
    create_object self object size_arg hash_cb upload_cb w
      = (Raise (AssertionError ""), w1, t1) /\
    requests t1 = [] /\
    w_store w1 = w_store w /\
    (0 < block_size meta ->
     total_read t1 = Z.of_nat (length (remaining (w_file w)))).
Proof.
  intros meta size Hd Hsink Hbs Hshort.
  destruct (hash_pass self size_arg hash_cb w) as [[r w1] t1] eqn:Hpass.
  pose proof Hpass as Hpass'.
  rewrite hash_pass_unfold in Hpass'. cbv zeta in Hpass'. fold meta size in Hpass'.
  unfold floordiv in Hpass'.
  destruct (block_size meta =? 0) eqn:Ez; [lia|].
  destruct (start_progress_ok HashSink hash_cb (1 + (size - 1) / block_size meta) w Hsink)
    as (g & t0 & Hstart & Hg).
  rewrite Hstart in Hpass'.
  destruct (hash_loop_total (block_size meta) size (block_hash meta) d
                            (range_len (1 + (size - 1) / block_size meta))
                            (HashState [] ∅ 0 g []) w Hd Hg)
    as (s & w' & t & Hloop & Hbound).
  rewrite Hloop in Hpass'. injection Hpass' as <- <- <-.
  cbn [hs_offset] in Hbound.
  pose proof (hash_pass_ok _ _ _ _ _ _ _ _ Hpass) as (_ & _ & Htotal & Hr & _ & Hs & _).
  exists w', (t0 ++ t). rewrite create_object_unfold, Hpass.
  destruct (hs_offset s =? size) eqn:E; [lia|].
  split; [reflexivity|]. split; [exact Hr|]. split; [exact Hs|].
  intros Hpos. rewrite <- Htotal.
  apply (hash_loop_short _ _ _ _ _ _ _ _ _ Hpos) in Hloop; cbn [hs_offset] in *.
  - lia.
  - lia.
  - right. unfold range_len.
    pose proof (Z.mul_succ_div_gt (size - 1) (block_size meta) Hpos) as Hdiv.
    assert (0 <= (size - 1) / block_size meta) as Hq by (apply Z.div_pos; lia).
    rewrite Z2Nat.id by lia. lia.
Qed.

(** A container whose digest algorithm [hashlib] does not know.  The
    algorithm is looked up when a block is hashed, not before: with
    something to hash (a positive size and block size), [create_object]
    reads the first block and raises [ValueError], and nothing is sent;
    with a size of 0 it never asks for the algorithm and submits the
    empty hash map. *)
Theorem create_object_unknown_algorithm self object size_arg hash_cb upload_cb w :
  let meta := container_of self w in
  let size := declared_size size_arg w in
  hashlib_algorithms (block_hash meta) = None ->
  sink_ok hash_cb ->
  0 < block_size meta ->
  (0 < size ->
   exists w1 t1,
     create_object self object size_arg hash_cb upload_cb w = (Raise ValueError, w1, t1) /\
     requests t1 = [] /\
     List.filter (fun e => match e with EvRead _ _ => true | _ => false end) t1
       = [EvRead (Z.min (block_size meta) size)
                 (file_read (w_file w) (Z.min (block_size meta) size)).1]) /\
  (size = 0 ->
   exists r w2 t rq rs rest,
     create_object self object size_arg hash_cb upload_cb w = (r, w2, t) /\
     requests t = (rq, rs) :: rest /\
     rq_verb rq = PUT /\
     rq_payload rq = Json 0 []).
Proof.
  intros meta size Hnone Hsink Hbs.
  pose proof (ceil_div_nblocks size (block_size meta) Hbs) as Hn.
  split.
  - intros Hsize.
    rewrite create_object_unfold, hash_pass_unfold. cbv zeta. fold meta size.
    unfold floordiv. destruct (block_size meta =? 0) eqn:Ez; [lia|].
    rewrite Hn.
    destruct (start_progress_ok HashSink hash_cb (ceil_div size (block_size meta)) w Hsink)
      as (g & t0 & Hstart & Hg).
    pose proof Hstart as Hframe.
    apply start_progress_frame in Hframe as (_ & Hr0 & _ & He0).
    rewrite Hstart.
    assert (0 < ceil_div size (block_size meta)) as Hpos.
    { pose proof (ceil_div_spec size (block_size meta) Hbs). nia. }
    unfold range_len.
    destruct (Z.to_nat (ceil_div size (block_size meta))) as [|n] eqn:En; [lia|].
    cbn [for_range]. rewrite bind_eq, hash_block_eq. cbv zeta. cbn [hs_offset].
    rewrite Z.sub_0_r.
    unfold pithos_hash, hashlib_new. rewrite Hnone.
    eexists _, _. split; [reflexivity|].
    rewrite requests_app, Hr0. split; [reflexivity|].
    rewrite List.filter_app.
    assert (List.filter (fun e => match e with EvRead _ _ => true | _ => false end) t0 = [])
      as ->; [|reflexivity].
    clear -He0. induction t0 as [|e t0 IH]; [reflexivity|].
    unfold erase_sinks in He0. simpl in He0.
    destruct e; simpl in *; try discriminate He0; apply IH; exact He0.
  - intros Hsize.
    rewrite create_object_unfold, hash_pass_unfold. cbv zeta. fold meta size.
    unfold floordiv. destruct (block_size meta =? 0) eqn:Ez; [lia|].
    rewrite Hn, Hsize, ceil_div_0 by exact Hbs.
    destruct (start_progress_ok HashSink hash_cb 0 w Hsink) as (g & t0 & Hstart & Hg).
    pose proof Hstart as Hframe.
    apply start_progress_frame in Hframe as (_ & Hr0 & _).
    rewrite Hstart. change (range_len 0) with 0%nat. cbn [for_range].
    unfold ret at 1. cbv beta iota zeta. cbn [hs_offset].
    change (0 =? 0) with true. cbv iota.
    rewrite negotiate_unfold. cbv zeta. cbn [hs_hashes].
    set (rq := submission self object 0 [] _).
    set (rs := (store_handle (w_store w) rq).2).
    set (w2 := World _ _ _).
    assert (forall tl, requests ((t0 ++ []) ++ EvRequest rq rs :: tl) = (rq, rs) :: requests tl)
      as Hreq.
    { intros tl. rewrite !requests_app, Hr0. reflexivity. }
    destruct (status_code rs =? 201).
    { eexists _, _, _, rq, rs, _. split; [reflexivity|]. split; [apply Hreq|]. auto. }
    destruct (status_code rs =? 409).
    2:{ eexists _, _, _, rq, rs, _. split; [reflexivity|]. split; [apply Hreq|]. auto. }
    destruct (start_progress _ _ _ w2) as [[[g'|e] w3] t3].
    2:{ eexists _, _, _, rq, rs, _. split; [reflexivity|]. split; [apply Hreq|]. auto. }
    eexists _, _, _, rq, rs, _. split; [reflexivity|]. split; [apply Hreq|]. auto.
Qed.

(** ** The hash map and the source *)

Lemma windows_concat blocksize n : forall (data : bytes),
  (length data <= n * blocksize)%nat ->
  concat (windows blocksize data n) = data.
Proof.
  induction n as [|n IH]; intros data Hlen; simpl.
  - symmetry. apply length_zero_iff_nil. lia.
  - rewrite IH; [apply take_drop|]. rewrite length_drop. simpl in Hlen. lia.
Qed.

(** Blocks cut by [chunks] and laid out in the source are the windows
    of its first [size] bytes. *)
Lemma laid_out_windows content blockhash blocksize size n :
  forall hashes o,
    0 < blocksize -> 0 <= o ->
    laid_out content blockhash (Z.to_nat o) o hashes (chunks blocksize size o n) ->
    Forall2 (fun h block => pithos_hash hashlib_algorithms block blockhash = Ok h)
            hashes
            (windows (Z.to_nat blocksize)
                     (drop (Z.to_nat o) (take (Z.to_nat size) content)) n).
Proof.
  induction n as [|n IH]; intros hashes o Hb Ho; simpl.
  - destruct hashes; [intros _; constructor|intros []].
  - destruct hashes as [|h hashes]; [intros []|].
    intros (_ & Hl & Hlen & Hh & Hrest).
    set (l := Z.min blocksize (size - o)) in *.
    assert (take (Z.to_nat blocksize) (drop (Z.to_nat o) (take (Z.to_nat size) content))
            = slice content (Z.to_nat o) (Z.to_nat l)) as Hw.
    { unfold slice. rewrite skipn_firstn_comm, take_take. f_equal. unfold l. lia. }
    constructor; [rewrite Hw; exact Hh|].
    rewrite drop_drop.
    assert (drop (Z.to_nat o + Z.to_nat blocksize) (take (Z.to_nat size) content)
            = drop (Z.to_nat (o + l)) (take (Z.to_nat size) content)) as ->.
    { destruct (Z.eq_dec l blocksize) as [->|Hne]; [f_equal; lia|].
      rewrite !drop_ge; [reflexivity| |]; rewrite length_take; unfold l in *; lia. }
    apply IH; [exact Hb|lia|].
    replace (Z.to_nat (o + l)) with (Z.to_nat o + Z.to_nat l)%nat by lia.
    exact Hrest.
Qed.

(** The hash map and the source.  After a hashing pass over a source
    read from its start that ends with [offset = size], the fingerprints
    of the hash map are, in order, those of the consecutive windows of
    [blocksize] bytes of the first [size] bytes of the source: the
    windows make up these bytes, and each fingerprint is [pithos_hash]
    of its window. *)
Theorem hash_pass_fingerprints self size_arg hash_cb w size s w1 t1 :
  let meta := container_of self w in
  let data := take (Z.to_nat size) (f_content (w_file w)) in
  let blocks := windows (Z.to_nat (block_size meta)) data
                        (Z.to_nat (ceil_div size (block_size meta))) in
  f_pos (w_file w) = 0%nat ->
  0 < block_size meta ->
  hash_pass self size_arg hash_cb w = (Ok (size, s), w1, t1) ->
  hs_offset s = size ->
  Forall2 (fun h block => pithos_hash hashlib_algorithms block (block_hash meta) = Ok h)
          (hs_hashes s) blocks /\
  concat blocks = data.
Proof.
  intros meta data blocks Hpos Hbs Hpass Hend.
  pose proof (hash_pass_ok _ _ _ _ _ _ _ _ Hpass) as (_ & Hinv & _).
  destruct Hinv as (_ & _ & Ho & _ & Hl). rewrite Hpos in Hl.
  pose proof (laid_out_sum_nonneg _ _ _ _ _ _ Hl) as Hnn.
  assert (0 <= size) as Hsize by lia.
  pose proof (ceil_div_nblocks size (block_size meta) Hbs) as Hn.
  pose proof (ceil_div_spec size (block_size meta) Hbs) as Hspec.
  pose proof (ceil_div_nonneg size (block_size meta) Hbs Hsize) as Hcnn.
  rewrite hash_pass_unfold in Hpass. cbv zeta in Hpass. fold meta in Hpass.
  unfold floordiv in Hpass.
  destruct (block_size meta =? 0) eqn:Ez; [lia|].
  destruct (start_progress _ _ _ w) as [[[g|e] w0] t0] eqn:Es; [|discriminate].
  apply start_progress_frame in Es as (-> & _).
  destruct (for_range _ _ _ w) as [[[s'|e] w'] t'] eqn:El; [|discriminate].
  injection Hpass as Hsz -> <- <-.
  rewrite Hsz, Hn in El.
  apply hash_loop_exact in El; [|exact Hbs|simpl; lia| |exact Hend].
  2:{ simpl. unfold range_len. rewrite Z.sub_0_r. lia. }
  simpl in El. rewrite El in Hl.
  split.
  - apply (laid_out_windows _ _ _ _ _ _ 0 Hbs ltac:(lia)) in Hl.
    simpl in Hl. rewrite drop_0 in Hl. exact Hl.
  - apply windows_concat. unfold data. rewrite length_take. nia.
Qed.

(** ** Fingerprints the store asks for *)

Lemma requests_seek o t : requests (EvSeek o :: t) = requests t.
Proof. reflexivity. Qed.

Lemma requests_read n data t : requests (EvRead n data :: t) = requests t.
Proof. reflexivity. Qed.

Lemma requests_request rq rs t : requests (EvRequest rq rs :: t) = (rq, rs) :: requests t.
Proof. reflexivity. Qed.

Lemma upload_block_posts self map h gen w r w' t :
  upload_block self map h gen w = (r, w', t) ->
  posts (requests t) = requests t.
Proof.
  rewrite upload_block_eq.
  destruct (map !! h) as [[o l]|]; [|intros [= <- <- <-]; reflexivity].
  destruct (o <? 0); [intros [= <- <- <-]; reflexivity|]. cbv zeta.
  destruct (put_block self _ h _) as [[[u|e] w2] t2] eqn:Ep;
    apply put_block_trace in Ep as (_ & rs & -> & _).
  - destruct (step_progress UploadSink gen w2) as [[r3 w3] t3] eqn:Es.
    apply step_progress_frame in Es as (_ & Hr3 & _).
    intros [= <- <- <-]. cbn [app].
    rewrite requests_seek, requests_read, requests_request, Hr3. reflexivity.
  - intros [= <- <- <-]. reflexivity.
Qed.

Lemma upload_loop_posts self map missing : forall gen w r w' t,
  for_each missing (upload_block self map) gen w = (r, w', t) ->
  posts (requests t) = requests t.
Proof.
  induction missing as [|h missing IH]; intros gen w r w' t; simpl.
  - unfold ret. intros [= <- <- <-]. reflexivity.
  - rewrite bind_eq.
    destruct (upload_block self map h gen w) as [[[g1|e] w1] t1] eqn:Eb;
      apply upload_block_posts in Eb.
    + destruct (for_each missing _ g1 w1) as [[r2 w2] t2] eqn:El. apply IH in El.
      intros [= <- <- <-]. rewrite requests_app, posts_app, Eb, El. reflexivity.
    + intros [= <- <- <-]. exact Eb.
Qed.

(** The loop does not get past a fingerprint that [map] lacks. *)
Lemma upload_loop_unknown self map missing h : forall gen w r w' t,
  h ∈ missing -> map !! h = None ->
  for_each missing (upload_block self map) gen w = (r, w', t) ->
  exists e, r = Raise e.
Proof.
  induction missing as [|h0 missing IH]; intros gen w r w' t Hin Hnone; [inversion Hin|].
  simpl. rewrite bind_eq.
  destruct (upload_block self map h0 gen w) as [[[g1|e] w1] t1] eqn:Eb.
  - apply elem_of_cons in Hin as [->|Hin].
    + rewrite upload_block_eq, Hnone in Eb. discriminate Eb.
    + destruct (for_each missing _ g1 w1) as [[r2 w2] t2] eqn:El.
      apply (IH _ _ _ _ _ Hin Hnone) in El as (e & ->).
      intros [= <- <- <-]. eauto.
  - intros [= <- <- <-]. eauto.
Qed.

Lemma hash_inv_unknown content blockhash pos0 s w h :
  hash_inv content blockhash pos0 s w ->
  h ∉ hs_hashes s -> hs_map s !! h = None.
Proof.
  intros (_ & _ & _ & Hm & _) Hnot.
  destruct (hs_map s !! h) as [b|] eqn:E; [|reflexivity].
  exfalso. apply Hnot. rewrite Hm in E.
  apply map_of_lookup in E as (i & Hi & _).
  apply lookup_zip_with_Some in Hi as (h' & b' & [= <- <-] & Hh & _).
  eapply list_elem_of_lookup_2; eauto.
Qed.

(** The first request of a run of [create_object], and what follows it. *)
Lemma create_object_first self object size_arg hash_cb upload_cb w r w2 t rq rs rest :
  create_object self object size_arg hash_cb upload_cb w = (r, w2, t) ->
  requests t = (rq, rs) :: rest ->
  exists size s w1 t1 t2,
    hash_pass self size_arg hash_cb w = (Ok (size, s), w1, t1) /\
    rq = submission self object size (hs_hashes s) (octet_stream (w_headers w1)) /\
    rs = (store_handle (w_store w1) rq).2 /\
    negotiate self object size s upload_cb w1 = (r, w2, EvRequest rq rs :: t2) /\
    rest = requests t2.
Proof.
  intros Hrun Hreq. rewrite create_object_unfold in Hrun.
  destruct (hash_pass self size_arg hash_cb w) as [[[[size s]|e] w1] t1] eqn:Hpass.
  2:{ injection Hrun as <- <- <-. apply hash_pass_trace in Hpass.
      rewrite Hpass in Hreq. discriminate Hreq. }
  pose proof (hash_pass_trace _ _ _ _ _ _ _ Hpass) as Hr1.
  destruct (hs_offset s =? size).
  2:{ injection Hrun as <- <- <-. rewrite Hr1 in Hreq. discriminate Hreq. }
  destruct (negotiate self object size s upload_cb w1) as [[r' w2'] t2'] eqn:Hneg.
  injection Hrun as <- <- <-.
  pose proof Hneg as Hneg'.
  rewrite negotiate_unfold in Hneg'. cbv zeta in Hneg'.
  set (rq0 := submission _ _ _ _ _) in Hneg'.
  set (rs0 := (store_handle (w_store w1) rq0).2) in Hneg'.
  assert (exists t2, t2' = EvRequest rq0 rs0 :: t2) as (t2 & ->).
  { destruct (status_code rs0 =? 201); [injection Hneg' as <- <- <-; eauto|].
    destruct (status_code rs0 =? 409); [|injection Hneg' as <- <- <-; eauto].
    destruct (start_progress _ _ _ _) as [[[g|e] w3] t3];
      injection Hneg' as <- <- <-; eauto. }
  rewrite requests_app, Hr1 in Hreq. simpl in Hreq. injection Hreq as <- <- <-.
  exists size, s, w1, t1, t2. auto.
Qed.

(** A fingerprint the store asks for that the hash map does not hold.
    When the store answers the hash map with 409 and lists a
    fingerprint that is not among those submitted, [create_object] does
    not end normally, and it does not submit the hash map again: every
    request after the first is the upload of a block.  When that
    fingerprint is the first of the list (and the upload callback
    lasts), the lookup [map[hash]] raises [KeyError] before anything is
    uploaded. *)
Theorem create_object_unknown_fingerprint self object size_arg hash_cb upload_cb
        w r w2 t rq rs rest :
  create_object self object size_arg hash_cb upload_cb w = (r, w2, t) ->
  requests t = (rq, rs) :: rest ->
  status_code rs = 409 ->
  exists size hashes,
    rq_payload rq = Json size hashes /\
    forall h, h ∈ json rs -> h ∉ hashes ->
      (exists e, r = Raise e) /\
      posts rest = rest /\
      (forall tl, json rs = h :: tl -> sink_ok upload_cb ->
                  r = Raise (KeyError h) /\ rest = []).
Proof.
  intros Hrun Hreq Hst.
  destruct (create_object_first _ _ _ _ _ _ _ _ _ _ _ _ Hrun Hreq)
    as (size & s & w1 & t1 & t2 & Hpass & Hrq & Hrs & Hneg & ->).
  pose proof (hash_pass_ok _ _ _ _ _ _ _ _ Hpass) as (_ & Hinv & _).
  exists size, (hs_hashes s). split; [rewrite Hrq; reflexivity|].
  intros h Hin Hnot.
  pose proof (hash_inv_unknown _ _ _ _ _ _ Hinv Hnot) as Hnone.
  rewrite negotiate_unfold in Hneg. cbv zeta in Hneg.
  rewrite <- Hrq, <- Hrs, Hst in Hneg.
  change (409 =? 201) with false in Hneg. change (409 =? 409) with true in Hneg.
  cbv iota in Hneg.
  set (w20 := World _ _ _) in Hneg.
  destruct (start_progress _ _ _ w20) as [[[g|e] w3] t3] eqn:Es.
  2:{ injection Hneg as <- <- <-.
      pose proof Es as Hf. apply start_progress_frame in Hf as (_ & Hr3 & _).
      rewrite Hr3. split; [eauto|]. split; [reflexivity|].
      intros tl Htl Hsink.
      destruct (start_progress_ok UploadSink upload_cb (Z.of_nat (length (json rs))) w20 Hsink)
        as (g' & t0' & Hok & _).
      rewrite Hok in Es. discriminate Es. }
  pose proof Es as Hf. apply start_progress_frame in Hf as (-> & Hr3 & _).
  destruct (for_each (json rs) (upload_block self (hs_map s)) g w20)
    as [[r4 w4] t4] eqn:El.
  pose proof (upload_loop_unknown _ _ _ _ _ _ _ _ _ Hin Hnone El) as (e & ->).
  pose proof (upload_loop_posts _ _ _ _ _ _ _ _ El) as Hposts.
  cbn [resubmit fst snd] in Hneg. injection Hneg as <- <- <-.
  rewrite requests_app, Hr3. cbn [app].
  split; [eauto|]. split; [exact Hposts|].
  intros tl Htl _. rewrite Htl in El. cbn [for_each] in El.
  rewrite bind_eq, upload_block_eq, Hnone in El. injection El as <- <- <-.
  auto.
Qed.

(** Submitting the hash map again.  In a run of [create_object] whose
    first submission was not answered with 201: if the run ends
    normally, the answer was 409 and the requests after it are the
    uploads of blocks followed by one last PUT; and whenever the
    requests after the first end with a PUT, that PUT goes to the same
    path with the same hash map as the first, everything between the
    two is the upload of a block, and the run ends as the answer to
    that PUT decides: normally on 201, with [ClientError] on anything
    else (a second 409 included). *)
Theorem create_object_resubmits self object size_arg hash_cb upload_cb
        w r w2 t rq rs rest :
  create_object self object size_arg hash_cb upload_cb w = (r, w2, t) ->
  requests t = (rq, rs) :: rest ->
  status_code rs <> 201 ->
  (r = Ok tt ->
   status_code rs = 409 /\
   exists ups rq' rs', rest = ups ++ [(rq', rs')] /\ rq_verb rq' = PUT) /\
  (forall ups rq' rs',
      rest = ups ++ [(rq', rs')] -> rq_verb rq' = PUT ->
      posts ups = ups /\
      rq_url rq' = rq_url rq /\
      rq_payload rq' = rq_payload rq /\
      r = outcome [201] rs').
Proof.
  intros Hrun Hreq Hst.
  destruct (create_object_first _ _ _ _ _ _ _ _ _ _ _ _ Hrun Hreq)
    as (size & s & w1 & t1 & t2 & Hpass & Hrq & Hrs & Hneg & ->).
  rewrite negotiate_unfold in Hneg. cbv zeta in Hneg.
  rewrite <- Hrq, <- Hrs in Hneg.
  destruct (status_code rs =? 201) eqn:E201; [lia|].
  assert (forall l (u : request * response), posts l = l -> is_post u = false ->
            forall ups u', l = ups ++ [u'] -> u' <> u) as Hlast.
  { intros l u Hl Hu ups u' -> ->. rewrite posts_app in Hl.
    assert (length (posts ups ++ posts [u]) = length (ups ++ [u])) as Hlen by congruence.
    rewrite !length_app in Hlen. unfold posts at 2 in Hlen. simpl in Hlen.
    rewrite Hu in Hlen. simpl in Hlen.
    pose proof (List.filter_length_le is_post ups) as Hle. unfold posts in Hlen. lia. }
  assert (forall l ups rq' rs', posts l = l -> l = ups ++ [(rq', rs')] ->
                                rq_verb rq' = PUT -> False) as Hnoput.
  { intros l ups rq' rs' Hl Heq Hput.
    apply (Hlast l (rq', rs') Hl) in Heq; [congruence|].
    unfold is_post. cbn [fst]. rewrite Hput. reflexivity. }
  destruct (status_code rs =? 409) eqn:E409.
  2:{ injection Hneg as <- <- <-. split; [discriminate|].
      intros ups rq' rs' Heq _. destruct ups; discriminate Heq. }
  set (w20 := World _ _ _) in Hneg.
  destruct (start_progress _ _ _ w20) as [[[g|e] w3] t3] eqn:Es;
    apply start_progress_frame in Es as (-> & Hr3 & _).
  2:{ injection Hneg as <- <- <-. split; [discriminate|].
      intros ups rq' rs' Heq _. rewrite Hr3 in Heq. destruct ups; discriminate Heq. }
  destruct (for_each (json rs) (upload_block self (hs_map s)) g w20)
    as [[[g'|e] w4] t4] eqn:El;
    pose proof (upload_loop_posts _ _ _ _ _ _ _ _ El) as Hposts;
    cbn [resubmit fst snd] in Hneg; injection Hneg as <- <- <-.
  - rewrite !requests_app, Hr3. cbn [app].
    set (rq1 := submission self object size (hs_hashes s) (w_headers w4)).
    set (rs1 := (store_handle (w_store w4) rq1).2).
    change (requests [EvRequest rq1 rs1]) with [(rq1, rs1)].
    split.
    + intros _. split; [lia|]. exists (requests t4), rq1, rs1. auto.
    + intros ups rq' rs' Heq _. apply app_inj_tail in Heq as [<- [= <- <-]].
      split; [exact Hposts|]. rewrite Hrq. cbn [rq_url rq_payload submission].
      split; [reflexivity|]. split; [reflexivity|].
      unfold outcome. cbn [existsb]. rewrite orb_false_r. reflexivity.
  - rewrite requests_app, Hr3. cbn [app]. split; [discriminate|].
    intros ups rq' rs' Heq Hput. exfalso. eapply Hnoput; eauto.
Qed.

(** ** What the range writers send *)

Lemma windows_lookup blocksize n : forall (data : bytes) i,
  (i < n)%nat ->
  windows blocksize data n !! i = Some (take blocksize (drop (i * blocksize) data)).
Proof.
  induction n as [|n IH]; intros data i Hi; [lia|].
  destruct i as [|i]; simpl.
  - reflexivity.
  - rewrite IH by lia. rewrite drop_drop. reflexivity.
Qed.

(** The loop of [overwrite_object] posts the windows of the first
    [datasize] bytes of the source, one after the other, for as long as
    they are accepted. *)
Lemma overwrite_loop_windows path content blocksize datasize n :
  forall offset w r w' t,
    0 < blocksize ->
    f_content (w_file w) = content ->
    f_pos (w_file w) = Z.to_nat offset ->
    0 <= offset -> offset <= datasize -> offset <= Z.of_nat (length content) ->
    for_range n (overwrite_block path blocksize (Z.of_nat (length content)) datasize)
              offset w = (r, w', t) ->
    exists k,
      (k <= n)%nat /\
      Forall2 (post_of path)
              (take k (windows (Z.to_nat blocksize)
                               (drop (Z.to_nat offset) (take (Z.to_nat datasize) content))
                               n))
              (requests t) /\
      ((exists o, r = Ok o) <-> Forall (accepted [202; 204]) (requests t)) /\
      ((exists o, r = Ok o) -> k = n).
Proof.
  induction n as [|n IH]; intros offset w r w' t Hb Hc Hp Ho Hd Hf; simpl.
  - unfold ret. intros [= <- <- <-]. exists 0%nat. simpl.
    split; [lia|]. split; [constructor|]. split; [|reflexivity].
    split; [constructor|eauto].
  - rewrite bind_eq, overwrite_block_eq. cbv zeta.
    set (filesize := Z.of_nat (length content)) in *.
    set (m := Z.min (Z.min blocksize (filesize - offset)) (datasize - offset)) in *.
    assert (0 <= m) as Hm by (unfold m; lia).
    set (data0 := drop (Z.to_nat offset) (take (Z.to_nat datasize) content)).
    assert ((file_read (w_file w) m).1 = take (Z.to_nat blocksize) data0) as Hdata.
    { unfold file_read, remaining, data0. rewrite Hc, Hp. cbn [fst].
      destruct (m <? 0) eqn:E; [lia|].
      rewrite skipn_firstn_comm, take_take.
      rewrite <- (take_min_length (drop (Z.to_nat offset) content)
                                  (Z.to_nat blocksize `min` (Z.to_nat datasize - Z.to_nat offset))).
      f_equal. rewrite length_drop. unfold m, filesize. lia. }
    assert (Z.of_nat (length (file_read (w_file w) m).1) = m) as Hlen.
    { apply file_read_exact; [lia|]. unfold remaining. rewrite Hc, Hp, length_drop.
      unfold m, filesize in *. lia. }
    set (data := (file_read (w_file w) m).1) in *.
    set (rq := Request POST path _ (Data data)).
    set (rs := (store_handle (w_store w) rq).2).
    assert (post_of path data (rq, rs)) as Hpost.
    { repeat split. simpl. apply lookup_insert_eq. }
    assert (drop (Z.to_nat blocksize) data0
            = drop (Z.to_nat (offset + Z.of_nat (length data)))
                   (take (Z.to_nat datasize) content)) as Hnext.
    { unfold data0. rewrite drop_drop, Hlen.
      destruct (Z.eq_dec m blocksize) as [->|Hne]; [f_equal; lia|].
      rewrite !drop_ge; [reflexivity| |]; rewrite length_take;
        unfold m, filesize in *; lia. }
    destruct (existsb (Z.eqb (status_code rs)) [202; 204]) eqn:Eacc.
    + set (w1 := World _ _ _).
      destruct (for_range n _ (offset + Z.of_nat (length data)) w1) as [[r2 w2] t2] eqn:El.
      apply IH in El as (k & Hk & Hall & Hiff & Hfull); try assumption.
      * intros [= <- <- <-]. exists (S k). split; [lia|].
        cbn [app]. rewrite requests_read, requests_request.
        split; [|split].
        -- simpl. rewrite <- Hdata. constructor; [exact Hpost|].
           fold data0. rewrite Hnext. exact Hall.
        -- rewrite Hiff. split.
           ++ intros H. constructor; [exact Eacc|exact H].
           ++ intros H. inversion H; assumption.
        -- intros H. f_equal. auto.
      * unfold w1. cbn [w_file]. rewrite file_read_pos, Hp. fold data. lia.
      * lia.
      * rewrite Hlen. unfold m. lia.
      * rewrite Hlen. unfold m. lia.
    + intros [= <- <- <-]. exists 1%nat. split; [lia|].
      cbn [app]. rewrite requests_read, requests_request.
      change (requests []) with (@nil (request * response)).
      split; [|split].
      * simpl. rewrite <- Hdata. constructor; [exact Hpost|]. rewrite take_0. constructor.
      * split; [intros (o & Ho'); discriminate Ho'|].
        intros H. inversion H as [|? ? Hacc _]. unfold accepted in Hacc.
        cbn [snd] in Hacc. congruence.
      * intros (o & Ho'). discriminate Ho'.
Qed.

(** What [overwrite_object] sends as bodies.  On a source file read
    from its start, with a positive block size and
    [datasize = end - start + 1]: the first [datasize] bytes of the
    file are cut into [ceil(datasize / B)] windows of [B] bytes (the
    last may be shorter), and the requests are the POSTs of the first
    [k] windows, in order, each with its length as [Content-Length];
    the operation ends normally exactly when every request was
    accepted, and then all windows were sent.  A window that starts at
    or after the end of the file is empty, and is posted all the same:
    a file shorter than the range gives requests without data.  When
    [end < start] nothing is read or sent. *)
Theorem overwrite_object_windows self object start end_ w r w' t :
  let meta := container_of self w in
  let datasize := end_ - start + 1 in
  let data := take (Z.to_nat datasize) (f_content (w_file w)) in
  let n := Z.to_nat (ceil_div datasize (block_size meta)) in
  let blocks := windows (Z.to_nat (block_size meta)) data n in
  f_pos (w_file w) = 0%nat ->
  0 < block_size meta ->
  overwrite_object self object start end_ w = (r, w', t) ->
  concat blocks = data /\
  (exists k,
      (k <= n)%nat /\
      Forall2 (post_of (object_url self object)) (take k blocks) (requests t) /\
      (r = Ok tt <-> Forall (accepted [202; 204]) (requests t)) /\
      (r = Ok tt -> k = n)) /\
  (forall i b, blocks !! i = Some b ->
               st_size (w_file w) <= Z.of_nat i * block_size meta -> b = []) /\
  (datasize <= 0 -> r = Ok tt /\ t = []).
Proof.
  intros meta datasize data n blocks Hpos Hbs Hrun.
  pose proof (ceil_div_nblocks datasize (block_size meta) Hbs) as Hn.
  pose proof (ceil_div_spec datasize (block_size meta) Hbs) as Hspec.
  rewrite overwrite_object_unfold in Hrun. cbv zeta in Hrun. fold meta datasize in Hrun.
  unfold floordiv in Hrun.
  destruct (block_size meta =? 0) eqn:Ez; [lia|].
  rewrite Hn in Hrun. unfold range_len in Hrun. fold n in Hrun.
  set (w0 := World _ _ _) in Hrun.
  destruct (for_range n _ 0 w0) as [[r1 w1] t1] eqn:El.
  assert (t = t1 /\ (r = Ok tt <-> exists o, r1 = Ok o)) as (-> & Hr).
  { destruct r1 as [o|e]; injection Hrun as <- <- <-; split; auto.
    - split; eauto.
    - split; [discriminate|intros (o & Ho); discriminate Ho]. }
  split; [|split; [|split]].
  - apply windows_concat. unfold data, n. rewrite length_take. nia.
  - destruct (Z_le_gt_dec datasize 0) as [Hle|Hgt].
    + assert (n = 0%nat) as Hn0 by (unfold n; nia).
      rewrite Hn0 in El. cbn [for_range] in El. unfold ret in El.
      injection El as <- <- <-.
      exists 0%nat. split; [lia|]. split; [constructor|]. split; [|congruence].
      rewrite Hr. split; [constructor|eauto].
    + unfold st_size in El.
      apply (overwrite_loop_windows _ (f_content (w_file w))) in El
        as (k & Hk & Hposts & Hiff & Hfull);
        try assumption; try reflexivity; try lia.
      simpl in Hposts. rewrite drop_0 in Hposts.
      exists k. split; [exact Hk|]. split; [exact Hposts|].
      split; [rewrite Hr; exact Hiff|]. intros Hok. apply Hfull, Hr, Hok.
  - intros i b Hi Hend.
    assert (i < n)%nat as Hlt.
    { apply lookup_lt_Some in Hi. unfold blocks in Hi. rewrite windows_length in Hi. exact Hi. }
    unfold blocks in Hi. rewrite windows_lookup in Hi by exact Hlt.
    injection Hi as <-. rewrite drop_ge; [apply take_nil|].
    unfold data. rewrite length_take. unfold st_size in Hend. nia.
  - intros Hle.
    assert (n = 0%nat) as Hn0 by (unfold n; nia).
    rewrite Hn0 in El. cbn [for_range] in El. unfold ret in El.
    injection El as <- <- <-. split; [|reflexivity]. apply Hr. eauto.
Qed.

(** A loop whose every turn reads and posts once stops at the first
    request that is not accepted. *)
Lemma posting_loop_rejection (body : Z -> M Z) n :
  (forall o w, exists m data rq rs o' w1,
      body o w = (if existsb (Z.eqb (status_code rs)) [202; 204]
                  then Ok o' else Raise (ClientError (status_code rs)),
                  w1, [EvRead m data; EvRequest rq rs])) ->
  forall o w e w' t,
    for_range n body o w = (Raise e, w', t) ->
    exists pre u,
      requests t = pre ++ [u] /\
      Forall (accepted [202; 204]) pre /\
      ~ accepted [202; 204] u /\
      e = ClientError (status_code u.2).
Proof.
  intros Hbody. induction n as [|n IH]; intros o w e w' t; simpl.
  - unfold ret. discriminate.
  - rewrite bind_eq.
    destruct (Hbody o w) as (m & data & rq & rs & o' & w1 & ->).
    destruct (existsb (Z.eqb (status_code rs)) [202; 204]) eqn:Eacc.
    + destruct (for_range n body o' w1) as [[r2 w2] t2] eqn:El.
      intros [= -> <- <-].
      apply IH in El as (pre & u & Hreq & Hpre & Hu & He).
      exists ((rq, rs) :: pre), u. cbn [app].
      rewrite requests_read, requests_request, Hreq.
      split; [reflexivity|]. split; [constructor; [exact Eacc|exact Hpre]|]. auto.
    + intros [= <- <- <-]. exists [], (rq, rs).
      split; [reflexivity|]. split; [constructor|]. split; [|reflexivity].
      unfold accepted. cbn [snd]. congruence.
Qed.

(** When a range writer fails.  If [append_object] or
    [overwrite_object] raises after the block count was computed (the
    block size is not 0), it is because a POST was not answered with
    202 or 204: that request is the last one sent, every request before
    it was accepted (those windows stay written, nothing is undone),
    and the error is [ClientError] with the status of the answer. *)
Theorem range_writers_stop_at_rejection self object start end_ w e w' t :
  block_size (container_of self w) <> 0 ->
  append_object self object w = (Raise e, w', t) \/
  overwrite_object self object start end_ w = (Raise e, w', t) ->
  exists pre u,
    requests t = pre ++ [u] /\
    Forall (accepted [202; 204]) pre /\
    ~ accepted [202; 204] u /\
    e = ClientError (status_code u.2).
Proof.
  intros Hbs [Hrun|Hrun].
  - rewrite append_object_unfold in Hrun. cbv zeta in Hrun. unfold floordiv in Hrun.
    destruct (block_size _ =? 0) eqn:Ez; [lia|].
    destruct (for_range _ _ 0 _) as [[[o|e'] w1] t1] eqn:El; [discriminate|].
    injection Hrun as <- <- <-.
    eapply posting_loop_rejection; [|exact El].
    intros o w0. rewrite append_block_eq. cbv zeta. eexists _, _, _, _, _, _. reflexivity.
  - rewrite overwrite_object_unfold in Hrun. cbv zeta in Hrun. unfold floordiv in Hrun.
    destruct (block_size _ =? 0) eqn:Ez; [lia|].
    destruct (for_range _ _ 0 _) as [[[o|e'] w1] t1] eqn:El; [discriminate|].
    injection Hrun as <- <- <-.
    eapply posting_loop_rejection; [|exact El].
    intros o w0. rewrite overwrite_block_eq. cbv zeta. eexists _, _, _, _, _, _. reflexivity.
Qed.

Lemma take_same_min {A} (l : list A) a b :
  (a `min` length l = b `min` length l)%nat -> take a l = take b l.
Proof.
  intros Heq. rewrite <- (take_min_length l a), <- (take_min_length l b), Heq. reflexivity.
Qed.

(** The loop of [append_object] posts what is left of the source in
    windows, one after the other, for as long as they are accepted;
    [offset] may lag behind the position of the file. *)
Lemma append_loop_remaining path blocksize filesize n :
  forall offset w r w' t,
    0 < blocksize ->
    Z.of_nat (length (remaining (w_file w))) <= filesize - offset ->
    range_is "bytes */*" (w_headers w) ->
    for_range n (append_block path blocksize filesize) offset w = (r, w', t) ->
    exists k,
      (k <= n)%nat /\
      Forall2 (post_of path)
              (take k (windows (Z.to_nat blocksize) (remaining (w_file w)) n))
              (requests t) /\
      Forall (fun u => range_is "bytes */*" (rq_headers u.1)) (requests t) /\
      ((exists o, r = Ok o) <-> Forall (accepted [202; 204]) (requests t)) /\
      ((exists o, r = Ok o) -> k = n).
Proof.
  induction n as [|n IH]; intros offset w r w' t Hb Hrem Hv; simpl.
  - unfold ret. intros [= <- <- <-]. exists 0%nat. simpl.
    split; [lia|]. split; [constructor|]. split; [constructor|]. split; [|reflexivity].
    split; [constructor|eauto].
  - rewrite bind_eq, append_block_eq. cbv zeta.
    set (m := Z.min blocksize (filesize - offset)) in *.
    assert (0 <= m) as Hm by (unfold m; lia).
    assert ((file_read (w_file w) m).1 = take (Z.to_nat blocksize) (remaining (w_file w)))
      as Hdata.
    { unfold file_read. cbn [fst]. destruct (m <? 0) eqn:E; [lia|].
      apply take_same_min. unfold m. lia. }
    pose proof (file_read_remaining (w_file w) m) as Hleft.
    assert (remaining (file_read (w_file w) m).2
            = drop (Z.to_nat blocksize) (remaining (w_file w))) as Hnext.
    { unfold remaining at 1. rewrite file_read_pos, file_read_content, Hdata.
      unfold remaining. rewrite drop_drop, length_take, length_drop.
      destruct (Nat.le_gt_cases (Z.to_nat blocksize)
                                (length (f_content (w_file w)) - f_pos (w_file w)))
        as [Hle|Hgt].
      - f_equal. lia.
      - rewrite !drop_ge; [reflexivity| |]; lia. }
    set (data := (file_read (w_file w) m).1) in *.
    assert (length data <= length (remaining (w_file w)))%nat as Hshort
        by (rewrite Hdata, length_take; lia).
    set (headers := <["Content-Length" := _]> (w_headers w)).
    set (rq := Request POST path headers (Data data)).
    set (rs := (store_handle (w_store w) rq).2).
    assert (post_of path data (rq, rs)) as Hpost.
    { repeat split. simpl. apply lookup_insert_eq. }
    assert (range_is "bytes */*" headers) as Hh.
    { unfold range_is, headers. rewrite lookup_insert_ne by discriminate. exact Hv. }
    destruct (existsb (Z.eqb (status_code rs)) [202; 204]) eqn:Eacc.
    + set (w1 := World _ _ _).
      destruct (for_range n _ (offset + Z.of_nat (length data)) w1) as [[r2 w2] t2] eqn:El.
      apply IH in El as (k & Hk & Hall & Hranges & Hiff & Hfull); try assumption.
      * intros [= <- <- <-]. exists (S k). split; [lia|].
        cbn [app]. rewrite requests_read, requests_request.
        split; [|split; [|split]].
        -- simpl. rewrite <- Hdata. constructor; [exact Hpost|].
           unfold w1 in Hall. cbn [w_file] in Hall. rewrite Hnext in Hall. exact Hall.
        -- constructor; [exact Hh|exact Hranges].
        -- rewrite Hiff. split.
           ++ intros H. constructor; [exact Eacc|exact H].
           ++ intros H. inversion H; assumption.
        -- intros H. f_equal. auto.
      * unfold w1. cbn [w_file]. rewrite Hleft. lia.
      * unfold w1, after_request. cbn [w_headers].
        destruct reset_headers; [right; apply lookup_empty|exact Hh].
    + intros [= <- <- <-]. exists 1%nat. split; [lia|].
      cbn [app]. rewrite requests_read, requests_request.
      change (requests []) with (@nil (request * response)).
      split; [|split; [|split]].
      * simpl. rewrite <- Hdata. constructor; [exact Hpost|]. rewrite take_0. constructor.
      * constructor; [exact Hh|constructor].
      * split; [intros (o & Ho'); discriminate Ho'|].
        intros H. inversion H as [|? ? Hacc _]. unfold accepted in Hacc.
        cbn [snd] in Hacc. congruence.
      * intros (o & Ho'). discriminate Ho'.
Qed.

(** [append_object] on a file wherever it stands.  With a positive
    block size, what is left of the source from its current position
    is cut into windows of [B] bytes, and the requests are the POSTs of
    the first [k] windows, in order, each with the open range
    ['bytes */*'] (or no range, when the collaborator forgets the
    headers) and ending normally exactly when all were accepted.  The
    number of windows is [ceil(filesize / B)] for the size of the whole
    file: on a file that was partly read before, the windows past its
    end are empty and are posted all the same. *)
Theorem append_object_sends_remaining self object w r w' t :
  let meta := container_of self w in
  let left := remaining (w_file w) in
  let n := Z.to_nat (ceil_div (st_size (w_file w)) (block_size meta)) in
  let blocks := windows (Z.to_nat (block_size meta)) left n in
  0 < block_size meta ->
  append_object self object w = (r, w', t) ->
  concat blocks = left /\
  (exists k,
      (k <= n)%nat /\
      Forall2 (post_of (object_url self object)) (take k blocks) (requests t) /\
      (r = Ok tt <-> Forall (accepted [202; 204]) (requests t)) /\
      (r = Ok tt -> k = n)) /\
  Forall (fun u => range_is "bytes */*" (rq_headers u.1)) (requests t) /\
  (forall i b, blocks !! i = Some b ->
               (length left <= i * Z.to_nat (block_size meta))%nat -> b = []).
Proof.
  intros meta left n blocks Hbs Hrun.
  pose proof (ceil_div_nblocks (st_size (w_file w)) (block_size meta) Hbs) as Hn.
  pose proof (ceil_div_spec (st_size (w_file w)) (block_size meta) Hbs) as Hspec.
  assert (length left <= length (f_content (w_file w)))%nat as Hleft
      by (unfold left, remaining; rewrite length_drop; lia).
  rewrite append_object_unfold in Hrun. cbv zeta in Hrun. fold meta in Hrun.
  unfold floordiv in Hrun.
  destruct (block_size meta =? 0) eqn:Ez; [lia|].
  rewrite Hn in Hrun. unfold range_len in Hrun. fold n in Hrun.
  set (w0 := World _ _ _) in Hrun.
  destruct (for_range n _ 0 w0) as [[r1 w1] t1] eqn:El.
  assert (t = t1 /\ (r = Ok tt <-> exists o, r1 = Ok o)) as (-> & Hr).
  { destruct r1 as [o|e]; injection Hrun as <- <- <-; split; auto.
    - split; eauto.
    - split; [discriminate|intros (o & Ho); discriminate Ho]. }
  apply append_loop_remaining in El as (k & Hk & Hposts & Hranges & Hiff & Hfull);
    [|exact Hbs| |].
  2:{ unfold w0. cbn [w_file]. fold left. unfold st_size. lia. }
  2:{ left. unfold w0, octet_stream. cbn [w_headers].
      rewrite lookup_insert_ne by discriminate. apply lookup_insert_eq. }
  unfold w0 in Hposts. cbn [w_file] in Hposts. fold left blocks in Hposts.
  split; [|split; [|split]].
  - apply windows_concat.
    assert (0 <= ceil_div (st_size (w_file w)) (block_size meta)) as Hnn
        by (apply ceil_div_nonneg; unfold st_size; lia).
    apply Nat2Z.inj_le. rewrite Nat2Z.inj_mul. unfold n. rewrite !Z2Nat.id by lia.
    unfold st_size in *. nia.
  - exists k. split; [exact Hk|]. split; [exact Hposts|].
    split; [rewrite Hr; exact Hiff|]. intros Hok. apply Hfull, Hr, Hok.
  - exact Hranges.
  - intros i b Hi Hend.
    assert (i < n)%nat as Hlt.
    { apply lookup_lt_Some in Hi. unfold blocks in Hi. rewrite windows_length in Hi. exact Hi. }
    unfold blocks in Hi. rewrite windows_lookup in Hi by exact Hlt.
    injection Hi as <-. rewrite drop_ge by exact Hend. apply take_nil.
Qed.

(** ** Progress of the uploads *)

Lemma sink_events_app sk t1 t2 :
  sink_events sk (t1 ++ t2) = sink_events sk t1 ++ sink_events sk t2.
Proof. apply List.filter_app. Qed.

Lemma hash_pass_no_upload_sink self size_arg hash_cb w r w1 t1 :
  hash_pass self size_arg hash_cb w = (r, w1, t1) -> sink_events UploadSink t1 = [].
Proof.
  rewrite hash_pass_unfold. cbv zeta.
  destruct (floordiv _ _) as [q|e]; [|intros [= <- <- <-]; reflexivity].
  assert (forall w0 r0 w0' t0,
             start_progress HashSink hash_cb (1 + q) w0 = (r0, w0', t0) ->
             sink_events UploadSink t0 = []) as Hstart.
  { intros w0 r0 w0' t0. rewrite start_progress_eq. destruct hash_cb as [cb|].
    - destruct (cb (1 + q)) as [[|k]|]; intros [= <- <- <-]; reflexivity.
    - intros [= <- <- <-]; reflexivity. }
  destruct (start_progress _ _ _ w) as [[[g|e] w0] t0] eqn:Es; apply Hstart in Es;
    [|intros [= <- <- <-]; exact Es].
  destruct (for_range _ _ _ w0) as [[r' w'] t'] eqn:El.
  apply (for_range_trace (fun t => sink_events UploadSink t = [])) in El.
  - destruct r'; intros [= <- <- <-]; rewrite sink_events_app, Es, El; reflexivity.
  - reflexivity.
  - intros ta tb Ha Hb. rewrite sink_events_app, Ha, Hb. reflexivity.
  - intros s0 wa ra wb tb. rewrite hash_block_eq. cbv zeta.
    destruct (pithos_hash _ _ _) as [h|e]; [|intros [= <- <- <-]; reflexivity].
    destruct (hs_gen s0) as [[[|k]|]|]; intros [= <- <- <-]; reflexivity.
Qed.

(** A turn of the upload loop that ends normally has sent one request
    and called [next] once on the generator, if there is one. *)
Lemma upload_block_ok self map h gen w g' w' t :
  upload_block self map h gen w = (Ok g', w', t) ->
  length (requests t) = 1%nat /\
  sink_events UploadSink t
  = match gen with Some _ => [EvNext UploadSink] | None => [] end /\
  (is_Some gen <-> is_Some g').
Proof.
  rewrite upload_block_eq.
  destruct (map !! h) as [[o l]|]; [|discriminate].
  destruct (o <? 0); [discriminate|]. cbv zeta.
  destruct (put_block self _ h _) as [[[u|e] w2] t2] eqn:Ep; [|discriminate].
  apply put_block_trace in Ep as (_ & rs & -> & _).
  rewrite step_progress_eq.
  destruct gen as [[[|k]|]|]; intros [= <- <- <-]; cbn [app];
    rewrite requests_seek, requests_read, requests_request;
    (split; [reflexivity|]); (split; [reflexivity|]);
    split; intros [x Hx]; try discriminate Hx; eauto.
Qed.

Lemma upload_loop_ok self map missing : forall gen w g' w' t,
  for_each missing (upload_block self map) gen w = (Ok g', w', t) ->
  length (requests t) = length missing /\
  sink_events UploadSink t
  = match gen with
    | Some _ => repeat (EvNext UploadSink) (length missing)
    | None => []
    end.
Proof.
  induction missing as [|h missing IH]; intros gen w g' w' t; simpl.
  - unfold ret. intros [= <- <- <-]. destruct gen; auto.
  - rewrite bind_eq.
    destruct (upload_block self map h gen w) as [[[g1|e] w1] t1] eqn:Eb; [|discriminate].
    apply upload_block_ok in Eb as (Hr1 & Hs1 & Hg1).
    destruct (for_each missing _ g1 w1) as [[r2 w2] t2] eqn:El.
    intros [= -> <- <-]. apply IH in El as (Hr2 & Hs2).
    rewrite requests_app, length_app, sink_events_app, Hr1, Hr2, Hs1, Hs2.
    split; [reflexivity|].
    destruct gen as [g|], g1 as [g1'|]; try reflexivity.
    + destruct Hg1 as [Hg1 _]. destruct Hg1 as [x Hx]; [eauto|discriminate Hx].
    + destruct Hg1 as [_ Hg1]. destruct Hg1 as [x Hx]; [eauto|discriminate Hx].
Qed.

(** The calls made to the upload callback, in a run that ends normally. *)
Lemma upload_sink_calls self object size_arg hash_cb upload_cb
        w w2 t rq rs rest :
  create_object self object size_arg hash_cb upload_cb w = (Ok tt, w2, t) ->
  requests t = (rq, rs) :: rest ->
  let missing := length (json rs) in
  (status_code rs = 201 -> rest = [] /\ sink_events UploadSink t = []) /\
  (status_code rs <> 201 ->
   length (posts rest) = missing /\
   sink_events UploadSink t
   = match upload_cb with
     | Some _ => EvCallback UploadSink (Z.of_nat missing)
                   :: repeat (EvNext UploadSink) (S missing)
     | None => []
     end).
Proof.
  intros Hrun Hreq missing.
  destruct (create_object_first _ _ _ _ _ _ _ _ _ _ _ _ Hrun Hreq)
    as (size & s & w1 & t1 & t2 & Hpass & Hrq & Hrs & Hneg & ->).
  pose proof (hash_pass_no_upload_sink _ _ _ _ _ _ _ Hpass) as Hs1.
  assert (sink_events UploadSink t = sink_events UploadSink t2) as Ht.
  { rewrite create_object_unfold, Hpass in Hrun.
    destruct (hs_offset s =? size); [|discriminate].
    rewrite Hneg in Hrun. injection Hrun as <-.
    rewrite sink_events_app, Hs1. reflexivity. }
  rewrite Ht. clear Ht Hrun Hreq.
  rewrite negotiate_unfold in Hneg. cbv zeta in Hneg.
  rewrite <- Hrq, <- Hrs in Hneg.
  destruct (status_code rs =? 201) eqn:E201.
  { injection Hneg as <- <-. split; [auto|lia]. }
  split; [lia|]. intros _.
  destruct (status_code rs =? 409); [|discriminate].
  set (w20 := World _ _ _) in Hneg.
  rewrite start_progress_eq in Hneg.
  assert (forall g t3,
             requests t3 = [] ->
             (let x := resubmit self object size s
                                (for_each (json rs) (upload_block self (hs_map s)) g w20) in
              (x.1.1, x.1.2, EvRequest rq rs :: t3 ++ x.2))
             = (Ok tt, w2, EvRequest rq rs :: t2) ->
             length (posts (requests t2)) = missing /\
             sink_events UploadSink t2
             = sink_events UploadSink t3
               ++ match g with
                  | Some _ => repeat (EvNext UploadSink) missing
                  | None => []
                  end) as Hloop.
  { intros g t3 Hr3. cbv zeta.
    destruct (for_each (json rs) (upload_block self (hs_map s)) g w20)
      as [[[g'|e] w4] t4] eqn:El; [|discriminate].
    pose proof (upload_loop_posts _ _ _ _ _ _ _ _ El) as Hposts.
    apply upload_loop_ok in El as (Hlen & Hsink).
    cbn [resubmit fst snd]. intros [= _ _ <-].
    rewrite !requests_app, !posts_app, !sink_events_app, Hr3, Hposts, Hsink.
    rewrite !length_app, Hlen. simpl. rewrite app_nil_r.
    split; [lia|reflexivity]. }
  destruct upload_cb as [cb|].
  - destruct (cb (Z.of_nat (length (json rs)))) as [[|k]|]; [discriminate| |];
      apply Hloop in Hneg as (Hlen & Hsink); try reflexivity;
      (split; [exact Hlen|]); rewrite Hsink; reflexivity.
  - apply Hloop in Hneg as (Hlen & Hsink); [|reflexivity].
    split; [exact Hlen|]. rewrite Hsink. reflexivity.
Qed.


(** ** Where the upload phase seeks *)






(** ** Progress callbacks: the calls, and a generator that ends early *)

(** The hashing pass without callback reads once per block. *)
Lemma hash_pass_bare_reads self size_arg w size s :
  (hash_pass self size_arg None w).1.1 = Ok (size, s) ->
  let nblocks := 1 + (size - 1) / block_size (container_of self w) in
  size = declared_size size_arg w /\
  length (hash_pass self size_arg None w).2 = range_len nblocks /\
  exists w1 t1,
    for_range (range_len nblocks)
              (hash_block (block_size (container_of self w)) size
                          (block_hash (container_of self w)))
              (HashState [] ∅ 0 None []) w = (Ok s, w1, t1).
Proof.
  rewrite hash_pass_unfold. cbv zeta. unfold floordiv.
  destruct (block_size (container_of self w) =? 0); [discriminate|].
  rewrite start_progress_eq.
  destruct (for_range _ _ _ w) as [[[s'|e] w1] t1] eqn:El; cbn [fst snd]; [|discriminate].
  intros [= <- <-]. split; [reflexivity|]. split; [|eauto].
  apply hash_loop_reads in El; [exact El|reflexivity].
Qed.

(** A hash generator with fewer yields left than there are blocks ends
    the hashing loop with [StopIteration]. *)
Lemma hash_loop_exhausted blocksize size blockhash n : forall s w j s' w' t0,
  for_range n (hash_block blocksize size blockhash) (with_gen None s) w = (Ok s', w', t0) ->
  (j < n)%nat ->
  exists w1 t,
    for_range n (hash_block blocksize size blockhash) (with_gen (Some (Some j)) s) w
    = (Raise StopIteration, w1, t).
Proof.
  induction n as [|n IH]; intros s w j s' w' t0; [lia|].
  simpl. rewrite !bind_eq, !hash_block_eq. cbv zeta.
  cbn [with_gen hs_offset hs_hashes hs_map hs_blocks hs_gen].
  destruct (pithos_hash _ _ blockhash) as [h|e]; [|discriminate].
  set (w1 := World _ _ _).
  set (s1 := HashState (hs_hashes s ++ [h]) _ _ None _).
  destruct (for_range n _ s1 w1) as [[r2 w2] t2] eqn:El.
  intros [= -> <- <-] Hj.
  destruct j as [|j]; [eauto|].
  destruct (IH s1 w1 j _ _ _ El) as (w3 & t3 & Hrun); [lia|].
  change (with_gen (Some (Some j)) s1)
    with (HashState (hs_hashes s ++ [h]) (hs_map s1) (hs_offset s1) (Some (Some j))
                    (hs_blocks s1)) in Hrun.
  unfold s1 in Hrun. cbn [hs_map hs_offset hs_blocks] in Hrun.
  rewrite Hrun. eauto.
Qed.

Lemma create_object_hash_exhausted self object size_arg (short : progress_cb)
      upload_cb w size s :
  (hash_pass self size_arg None w).1.1 = Ok (size, s) ->
  let nblocks := 1 + (size - 1) / block_size (container_of self w) in
  ~ lasts (Some (short nblocks)) (S (range_len nblocks)) ->
  let cut := create_object self object size_arg (Some short) upload_cb w in
  cut.1.1 = Raise StopIteration /\ requests cut.2 = [].
Proof.
  intros Hbare nblocks Hshort cut.
  destruct (hash_pass_bare_reads _ _ _ _ _ Hbare) as (Hsize & _ & w1 & t1 & Hloop).
  fold nblocks in Hloop.
  assert (exists w2 t2, hash_pass self size_arg (Some short) w = (Raise StopIteration, w2, t2))
    as (w2 & t2 & Hpass).
  { rewrite hash_pass_unfold in Hbare |- *. cbv zeta in Hbare |- *.
    rewrite <- Hsize in *. unfold floordiv in *.
    destruct (block_size (container_of self w) =? 0); [discriminate|].
    fold nblocks. rewrite start_progress_eq.
    destruct (short nblocks) as [[|j]|] eqn:Ek; simpl in Hshort.
    - eauto.
    - destruct (hash_loop_exhausted _ _ _ _ (HashState [] ∅ 0 None []) w j _ _ _ Hloop)
        as (w3 & t3 & Hrun); [lia|].
      change (with_gen (Some (Some j)) (HashState [] ∅ 0 None []))
        with (HashState [] ∅ 0 (Some (Some j)) []) in Hrun.
      rewrite Hrun. eauto.
    - contradiction. }
  unfold cut. rewrite create_object_unfold, Hpass. cbn [fst snd].
  split; [reflexivity|]. eapply hash_pass_trace; eauto.
Qed.

(** An upload generator with fewer yields left than there are entries
    ends the upload loop with [StopIteration], after as many uploads as
    it had yields and one more. *)
Lemma upload_loop_exhausted self map missing : forall j w g0 w0 t0,
  for_each missing (upload_block self map) None w = (Ok g0, w0, t0) ->
  (j < length missing)%nat ->
  exists w1 t,
    for_each missing (upload_block self map) (Some (Some j)) w
    = (Raise StopIteration, w1, t) /\
    requests t = take (S j) (requests t0).
Proof.
  induction missing as [|h missing IH]; intros j w g0 w0 t0; simpl; [lia|].
  rewrite !bind_eq, !upload_block_eq.
  destruct (map !! h) as [[o l]|]; [|discriminate].
  destruct (o <? 0); [discriminate|]. cbv zeta.
  set (data := (file_read (file_seek (w_file w) o) l).1).
  set (w1 := World _ _ _).
  destruct (put_block self data h w1) as [[[u|e] w2] t2] eqn:Ep; [|discriminate].
  apply put_block_trace in Ep as (_ & rs & -> & _).
  rewrite !step_progress_eq.
  destruct (for_each missing _ None w2) as [[r3 w3] t3] eqn:El.
  intros [= -> <- <-] Hj.
  destruct j as [|j].
  - eexists _, _. split; [reflexivity|]. reflexivity.
  - destruct (IH j w2 _ _ _ El) as (w4 & t4 & Hrun & Hreq); [lia|].
    rewrite Hrun. eexists _, _. split; [reflexivity|].
    cbn [app]. rewrite !requests_seek, !requests_read, !requests_request.
    change (requests (EvNext UploadSink :: t4)) with (requests t4).
    rewrite Hreq. reflexivity.
Qed.

Lemma create_object_upload_exhausted self object size_arg (short : progress_cb)
      w rq rs rest :
  let without := create_object self object size_arg None None w in
  without.1.1 = Ok tt ->
  requests without.2 = (rq, rs) :: rest ->
  status_code rs <> 201 ->
  let missing := length (json rs) in
  ~ lasts (Some (short (Z.of_nat missing))) (S missing) ->
  let cut := create_object self object size_arg None (Some short) w in
  cut.1.1 = Raise StopIteration /\
  exists k, short (Z.of_nat missing) = Some k /\ (k <= missing)%nat /\
            requests cut.2 = take (S k) (requests without.2).
Proof.
  intros without Hok Hreq Hst missing Hshort cut. unfold cut, without in *.
  clear cut without.
  rewrite create_object_unfold in Hok, Hreq. rewrite !create_object_unfold.
  destruct (hash_pass self size_arg None w) as [[[[size s]|e] w1] t1] eqn:Hpass;
    [|discriminate].
  apply hash_pass_trace in Hpass as Hr1.
  destruct (hs_offset s =? size); [|discriminate].
  rewrite negotiate_unfold in Hok, Hreq. rewrite !negotiate_unfold.
  cbv zeta in Hok, Hreq |- *.
  set (rq0 := submission _ _ _ _ _) in *.
  set (rs0 := (store_handle (w_store w1) rq0).2) in *.
  set (w2 := World _ _ _) in *.
  destruct (status_code rs0 =? 201) eqn:E201.
  { cbn [fst snd] in Hreq. rewrite requests_app, Hr1 in Hreq.
    injection Hreq as <- <- _. lia. }
  destruct (status_code rs0 =? 409); [|discriminate].
  rewrite !start_progress_eq in *.
  destruct (for_each (json rs0) _ None w2) as [[[g4|e] w4] t4] eqn:El;
    [|discriminate].
  cbn [resubmit fst snd] in Hok, Hreq.
  rewrite requests_app, Hr1 in Hreq. cbn [app] in Hreq.
  rewrite requests_request in Hreq. injection Hreq as <- <- <-.
  subst missing.
  apply upload_loop_ok in El as Hlen. destruct Hlen as [Hlen _].
  destruct (short (Z.of_nat (length (json rs0)))) as [[|j]|] eqn:Ek; simpl in Hshort.
  - cbn [fst snd]. split; [reflexivity|]. exists 0%nat.
    split; [reflexivity|]. split; [lia|].
    rewrite !requests_app, !Hr1. reflexivity.
  - destruct (upload_loop_exhausted _ _ _ j _ _ _ _ El) as (w5 & t5 & Hrun & Hreq5);
      [lia|].
    rewrite Hrun. cbn [resubmit fst snd]. split; [reflexivity|].
    exists (S j). split; [reflexivity|]. split; [lia|].
    rewrite !requests_app, !Hr1. cbn [app]. rewrite !requests_request.
    rewrite firstn_cons. f_equal.
    change (requests (EvCallback UploadSink (Z.of_nat (length (json rs0)))
                        :: EvNext UploadSink :: t5)) with (requests t5).
    rewrite Hreq5, requests_app. symmetry. apply take_app_le. lia.
  - contradiction.
Qed.

(** C9, amended.  A progress callback is called once with the count
    ([hash_cb(nblocks)], [upload_cb(len(missing))]), and [next()] is
    called on its generator once at once and then once more per item:
    for the hash callback once after each block is read and hashed,
    [1 + len(range(nblocks))] times in a pass that ends normally (that
    is [nblocks + 1] times unless [nblocks] is negative); for the upload
    callback once after each upload, [len(missing) + 1] times in a run
    that ends normally after the store asked for blocks.  When the
    generators supplied last that long ([sink_ok]), supplying them
    changes nothing else: the outcome, the file position, the headers
    and the store at the end are those of the call without callbacks,
    and so is the trace once the callback events are erased, hence the
    requests sent (the hash map submitted, with the fingerprints in it,
    and the blocks uploaded).  A generator that ends earlier makes
    [next()] raise [StopIteration], which ends [create_object]: for the
    hash callback, where the hashing pass would have ended normally,
    before any request; for the upload callback, where the run would
    have ended normally after the store asked for blocks, after the
    submission and one upload per yield, so before the hash map is
    submitted again. *)
Theorem create_object_progress_frame self object size_arg hash_cb upload_cb w :
  sink_ok hash_cb ->
  sink_ok upload_cb ->
  let with_sinks := create_object self object size_arg hash_cb upload_cb w in
  let without := create_object self object size_arg None None w in
  with_sinks.1 = without.1 /\
  erase_sinks with_sinks.2 = without.2 /\
  requests with_sinks.2 = requests without.2 /\
  (forall cb size s,
      hash_cb = Some cb ->
      (hash_pass self size_arg None w).1.1 = Ok (size, s) ->
      let nblocks := 1 + (size - 1) / block_size (container_of self w) in
      let reads := (hash_pass self size_arg None w).2 in
      exists g,
        (hash_pass self size_arg hash_cb w).1.1 = Ok (size, with_gen g s) /\
        (hash_pass self size_arg hash_cb w).2 =
          [EvCallback HashSink nblocks; EvNext HashSink] ++ ticked HashSink reads /\
        Forall is_read reads /\
        length reads = length (hs_blocks s) /\
        length reads = range_len nblocks) /\
  (forall cb rq rs rest,
      upload_cb = Some cb ->
      without.1.1 = Ok tt ->
      requests without.2 = (rq, rs) :: rest ->
      status_code rs <> 201 ->
      let missing := length (json rs) in
      length (posts rest) = missing /\
      sink_events UploadSink with_sinks.2
      = EvCallback UploadSink (Z.of_nat missing)
          :: repeat (EvNext UploadSink) (S missing)) /\
  (forall (short : progress_cb) size s,
      (hash_pass self size_arg None w).1.1 = Ok (size, s) ->
      let nblocks := 1 + (size - 1) / block_size (container_of self w) in
      ~ lasts (Some (short nblocks)) (S (range_len nblocks)) ->
      let cut := create_object self object size_arg (Some short) upload_cb w in
      cut.1.1 = Raise StopIteration /\ requests cut.2 = []) /\
  (forall (short : progress_cb) rq rs rest,
      without.1.1 = Ok tt ->
      requests without.2 = (rq, rs) :: rest ->
      status_code rs <> 201 ->
      let missing := length (json rs) in
      ~ lasts (Some (short (Z.of_nat missing))) (S missing) ->
      let cut := create_object self object size_arg hash_cb (Some short) w in
      cut.1.1 = Raise StopIteration /\
      exists k, short (Z.of_nat missing) = Some k /\ (k <= missing)%nat /\
                requests cut.2 = take (S k) (requests without.2)).
Proof.
  intros Hh Hu. cbv zeta.
  pose proof (create_object_bare_trace self object size_arg w) as Hbare.
  cbv zeta in Hbare.
  assert ((create_object self object size_arg hash_cb upload_cb w).1
          = (create_object self object size_arg None None w).1 /\
          erase_sinks (create_object self object size_arg hash_cb upload_cb w).2
          = (create_object self object size_arg None None w).2) as (H1 & H2).
  { rewrite <- Hbare.
    destruct hash_cb as [hcb|], upload_cb as [ucb|].
    - destruct (create_object_hash_sink self object size_arg hcb (Some ucb) w Hh) as (Ha & Hb).
      destruct (create_object_upload_sink self object size_arg ucb w Hu) as (Hc & Hd).
      split; congruence.
    - apply (create_object_hash_sink self object size_arg hcb None w Hh).
    - apply (create_object_upload_sink self object size_arg ucb w Hu).
    - auto. }
  assert (requests (create_object self object size_arg hash_cb upload_cb w).2
          = requests (create_object self object size_arg None None w).2) as H3.
  { rewrite <- H2. symmetry. apply requests_erase_sinks. }
  split; [exact H1|]. split; [exact H2|]. split; [exact H3|].
  split; [|split; [|split]].
  - intros cb size s -> Hs.
    destruct (hash_pass_with_sink self size_arg cb w Hh) as (g & t & Hrun & _ & _ & Htick).
    cbv zeta in Hrun. rewrite Hs in Hrun. rewrite Hrun. cbn [fst snd].
    destruct (Htick size s Hs) as (-> & Hreads & Hlen).
    destruct (hash_pass_bare_reads _ _ _ _ _ Hs) as (_ & Hcount & _).
    exists (Some g). auto.
  - intros cb rq rs rest -> Hok Hreq Hst. cbv zeta.
    rewrite <- H3 in Hreq.
    destruct (create_object self object size_arg hash_cb (Some cb) w)
      as [[r w2] t] eqn:Hrun.
    cbn [fst snd] in *.
    assert (r = Ok tt) as -> by (rewrite <- Hok, <- H1; reflexivity).
    destruct (upload_sink_calls _ _ _ _ _ _ _ _ _ _ _ Hrun Hreq) as (_ & Hmissing).
    exact (Hmissing Hst).
  - intros short size s Hs. exact (create_object_hash_exhausted _ _ _ _ _ _ _ _ Hs).
  - intros short rq rs rest Hok Hreq Hst. cbv zeta. intros Hshort.
    destruct (create_object_upload_exhausted self object size_arg short w rq rs rest
                Hok Hreq Hst Hshort) as (Hcut & k & Hk & Hle & Hreqs).
    assert ((create_object self object size_arg hash_cb (Some short) w).1
            = (create_object self object size_arg None (Some short) w).1 /\
            erase_sinks (create_object self object size_arg hash_cb (Some short) w).2
            = erase_sinks (create_object self object size_arg None (Some short) w).2)
      as (Ha & Hb).
    { destruct hash_cb as [hcb|]; [|auto].
      apply (create_object_hash_sink self object size_arg hcb (Some short) w Hh). }
    split; [rewrite Ha; exact Hcut|].
    exists k. split; [exact Hk|]. split; [exact Hle|].
    rewrite <- Hreqs, <- requests_erase_sinks, Hb.
    apply requests_erase_sinks.
Qed.

End Pithos.

(** * The properties on concrete inputs

    The operations are run with the stand-ins: the digest "plain", the
    store that keeps fingerprints (or the scripted one), Python's
    whitespace for byte strings, and a collaborator that keeps the
    headers between requests. *)

Local Abbreviation me := (Client "user" "pithos").

Local Abbreviation fresh content known :=
  (World block_store (File (text_bytes content) 0) ∅ known).

Local Abbreviation scripted_world content script :=
  (World scripted (File (text_bytes content) 0) ∅ script).

Local Abbreviation sync blocksize :=
  (create_object plain_algorithms block_store block_store_handle
                 (plain_container blocksize) false str_isspace me "obj").

Local Abbreviation hashing blocksize :=
  (hash_pass plain_algorithms block_store (plain_container blocksize) me).

Local Abbreviation verbs t := (List.map (fun u => rq_verb (fst u)) (requests t)).

Local Abbreviation scripted_sync blocksize :=
  (create_object plain_algorithms scripted scripted_handle
                 (plain_container blocksize) false str_isspace me "obj").

Local Abbreviation bodies t := (List.map (fun u => rq_payload (fst u)) (requests t)).

Local Abbreviation put_ab rs :=
  (fst (fst (put_block scripted scripted_handle false str_isspace me
                       (text_bytes "ab") "6162" (scripted_world "" [rs])))).

(** Witness of C1: ten bytes in blocks of four give three blocks, at 0, 4 and 8, of
    4, 4 and 2 bytes. *)
Lemma hash_pass_blocks_witness :
  0 <= 10 /\ 0 < 4 /\
  exists s w1 t1,
    hashing 4 None None (fresh "abcdefghij" []) = (Ok (10, s), w1, t1) /\
    hs_offset s = 10 /\
    hs_blocks s = [(0, 4); (4, 4); (8, 2)] /\
    length (hs_hashes s) = 3%nat /\
    sum_lengths (hs_blocks s) = 10.
Proof.
  split; [lia|]. split; [lia|].
  destruct (hash_pass_blocks plain_algorithms block_store (plain_container 4) me
                             None None (fresh "abcdefghij" []))
    as (Hruns & Hblocks).
  - by vm_compute.
  - by vm_compute.
  - destruct (Hruns (fun m => m)) as (s & w1 & t1 & Hrun & Ho).
    + reflexivity.
    + by vm_compute.
    + exact I.
    + destruct (Hblocks s w1 t1 Hrun Ho) as (_ & _ & _ & _ & Hsum & _).
      exists s, w1, t1. split; [exact Hrun|]. split; [exact Ho|].
      vm_compute in Hrun. injection Hrun as <- _ _.
      split; [reflexivity|]. split; [reflexivity|exact Hsum].
Defined.

(** Witness of C3, amended: "abab" in blocks of two; both blocks bear the
    fingerprint "6162", and [map] keeps the second, at offset 2. *)
Lemma upload_block_reads_last_block_witness :
  exists s w1 t1,
    hashing 2 None None (fresh "abab" []) = (Ok (4, s), w1, t1) /\
    "6162" ∈ hs_hashes s /\
    exists i o l,
      hs_hashes s !! i = Some "6162" /\
      hs_blocks s !! i = Some (o, l) /\
      (forall j, (i < j)%nat -> hs_hashes s !! j <> Some "6162") /\
      hs_map s !! "6162" = Some (o, l) /\
      (o, l) = (2, 2) /\
      exists r w3 rs tail,
        upload_block block_store block_store_handle false str_isspace me
                     (hs_map s) "6162" None (fresh "abab" [])
        = (r, w3,
           [EvSeek o; EvRead l (text_bytes "ab");
            EvRequest (block_request me (text_bytes "ab") ∅) rs] ++ tail).
Proof.
  eexists _, _, _. split; [vm_compute; reflexivity|].
  split; [apply list_elem_of_here|].
  destruct (upload_block_reads_last_block
              plain_algorithms block_store block_store_handle (plain_container 2)
              false str_isspace me None None (fresh "abab" [])
              _ _ _ _ "6162" None (fresh "abab" []) eq_refl)
    as (i & o & l & Hh & Hb & Hlast & Hm & Hlen & Hup).
  - apply list_elem_of_here.
  - reflexivity.
  - exists i, o, l. split; [exact Hh|]. split; [exact Hb|]. split; [exact Hlast|].
    split; [exact Hm|].
    assert ((o, l) = (2, 2)) as Hol by (vm_compute in Hm; congruence).
    split; [exact Hol|]. injection Hol as -> ->. exact Hup.
Defined.

(** Counterexample to C3 as stated: "abab" in blocks of two; the first block
    bearing "6162" is at offset 0, and the upload seeks to offset 2. *)
Lemma upload_block_not_first_block :
  exists s w1 t1,
    hashing 2 None None (fresh "abab" []) = (Ok (4, s), w1, t1) /\
    hs_hashes s = ["6162"; "6162"] /\
    hs_blocks s = [(0, 2); (2, 2)] /\
    hs_map s !! "6162" = Some (2, 2) /\
    hs_map s !! "6162" <> Some (0, 2) /\
    List.filter (fun e => match e with EvSeek _ => true | _ => false end)
                (snd (sync 2 None None None (fresh "abab" []))) = [EvSeek 2].
Proof.
  eexists _, _, _. split; [vm_compute; reflexivity|].
  split; [reflexivity|]. split; [reflexivity|].
  split; [vm_compute; reflexivity|].
  split; [vm_compute; discriminate|].
  vm_compute. reflexivity.
Qed.

(** Witness of C4: a block that ends with two NUL bytes, and a block of
    NULs. *)
Lemma pithos_hash_strips_nul_witness :
  plain_algorithms "plain" = Some (fun m => m) /\
  pithos_hash plain_algorithms (text_bytes "ab" ++ [x00; x00]) "plain" = Ok "6162" /\
  pithos_hash plain_algorithms [x00; x00; x00] "plain" = Ok "" /\
  pithos_hash plain_algorithms (text_bytes "ab") "plain"
  = pithos_hash plain_algorithms (text_bytes "ab" ++ [x00; x00]) "plain".
Proof.
  split; [reflexivity|].
  destruct (pithos_hash_strips_nul plain_algorithms (text_bytes "ab" ++ [x00; x00])
                                   "plain" (fun m => m) eq_refl)
    as (Hhash & _ & _ & _ & _ & Hsame).
  destruct (pithos_hash_strips_nul plain_algorithms [x00; x00; x00]
                                   "plain" (fun m => m) eq_refl)
    as (_ & _ & _ & _ & Hnul & _).
  split; [exact Hhash|].
  split; [apply Hnul; repeat constructor|].
  apply Hsame. reflexivity.
Defined.

(** Witness of C5, amended: the scenario of the design document: the blocks
    "abcd", "WXYZ", "abcd", "ef" give the hash map [fpA, fpB, fpA, fpC];
    the store holds fpB and answers 409 with [fpA, fpC]; two blocks are
    uploaded, and the operation ends normally. *)
Lemma create_object_uploads_missing_witness :
  exists r w2 t rq rs rest,
    sync 4 None None None (fresh "abcdWXYZabcdef" ["5758595a"]) = (r, w2, t) /\
    requests t = (rq, rs) :: rest /\
    rq_payload rq = Json 14 ["61626364"; "5758595a"; "61626364"; "6566"] /\
    status_code rs = 409 /\
    json rs = ["61626364"; "6566"] /\
    r = Ok tt /\
    length (posts rest) = 2%nat /\
    Forall2 (fun u h => upload_of plain_algorithms "plain" h u) (posts rest)
            ["61626364"; "6566"].
Proof.
  edestruct (create_object_uploads_missing
               plain_algorithms block_store block_store_handle (plain_container 4)
               false str_isspace me "obj" None None None
               (fresh "abcdWXYZabcdef" ["5758595a"]))
    as (done & Hpre & Hall & Hlen & Hok & Hnd).
  - reflexivity.
  - vm_compute. reflexivity.
  - vm_compute. reflexivity.
  - reflexivity.
  - eexists _, _, _, _, _, _.
    split; [vm_compute; reflexivity|].
    split; [vm_compute; reflexivity|].
    split; [reflexivity|]. split; [reflexivity|]. split; [reflexivity|].
    split; [reflexivity|].
    rewrite (Hok eq_refl) in Hall, Hlen. split; [exact Hlen|exact Hall].
Defined.

(** Counterexample to C5 as stated: the source "abcdefgh" in blocks of four;
    the store answers the hash map with 409 and a list that names the
    fingerprint of "efgh" twice.  One fingerprint is missing, and the
    block is uploaded twice; the operation ends normally. *)
Lemma create_object_uploads_repeated_entry :
  exists r w2 t rq rs rest,
    scripted_sync 4 None None None
      (scripted_world "abcdefgh"
         [Response 409 "" ["65666768"; "65666768"];
          Response 202 "65666768" []; Response 202 "65666768" [];
          Response 201 "" []]) = (r, w2, t) /\
    requests t = (rq, rs) :: rest /\
    rq_payload rq = Json 8 ["61626364"; "65666768"] /\
    status_code rs = 409 /\
    json rs = ["65666768"; "65666768"] /\
    length (nodup string_dec (json rs)) = 1%nat /\
    r = Ok tt /\
    List.map (fun u => rq_payload (fst u)) (posts rest)
    = [Data (text_bytes "efgh"); Data (text_bytes "efgh")] /\
    length (posts rest) = 2%nat.
Proof.
  eexists _, _, _, _, _, _.
  split; [vm_compute; reflexivity|].
  split; [vm_compute; reflexivity|].
  repeat split; reflexivity.
Qed.

(** Witness of C6: a source of five bytes declared to hold ten; the reads
    return 4, 1 and 0 bytes. *)
Lemma create_object_size_mismatch_witness :
  exists s w1 t1,
    hashing 4 (Some 10) None (fresh "abcde" []) = (Ok (10, s), w1, t1) /\
    total_read t1 = 5 /\
    List.map snd (hs_blocks s) = [4; 1; 0] /\
    sync 4 (Some 10) None None (fresh "abcde" []) = (Raise (AssertionError ""), w1, t1) /\
    requests t1 = [] /\
    w_store _ w1 = [].
Proof.
  eexists _, _, _. split; [vm_compute; reflexivity|].
  split; [reflexivity|]. split; [reflexivity|].
  match goal with |- sync 4 _ _ _ ?w = (_, ?w1, ?t1) /\ _ =>
    destruct (create_object_size_mismatch
                plain_algorithms block_store block_store_handle (plain_container 4)
                false str_isspace me "obj" (Some 10) None None w 10 _ w1 t1 eq_refl)
      as (_ & _ & Hrun & Hreq & Hstore)
  end.
  - by vm_compute.
  - split; [exact Hrun|]. split; [exact Hreq|exact Hstore].
Defined.

(** Witness of C8, a second run: the store already holds the three blocks of
    the source, answers 201, and the submission is the one request. *)
Lemma create_object_stored_witness :
  exists w2 t,
    sync 4 None None None (fresh "abcdefghij" ["61626364"; "65666768"; "696a"])
    = (Ok tt, w2, t) /\
    verbs t = [PUT] /\
    posts (requests t) = [] /\
    f_pos (w_file _ w2) = 10%nat.
Proof.
  edestruct (create_object_stored
               plain_algorithms block_store block_store_handle (plain_container 4)
               false str_isspace me "obj" None None None
               (fresh "abcdefghij" ["61626364"; "65666768"; "696a"]))
    as (w2 & Hrun & Hreq & Hposts & Hfile).
  - vm_compute. reflexivity.
  - reflexivity.
  - vm_compute. reflexivity.
  - exists w2. eexists. split; [exact Hrun|].
    split; [vm_compute; reflexivity|]. split; [exact Hposts|].
    rewrite Hfile. reflexivity.
Defined.

(** Two runs in a row on the same source, the second against the store
    the first one left: the first uploads the three blocks, the second
    sends the hash map and nothing else. *)
Example create_object_twice :
  let first := sync 4 None None None (fresh "abcdefghij" []) in
  let second := sync 4 None None None
                     (World block_store (File (text_bytes "abcdefghij") 0) ∅
                            (w_store _ (snd (fst first)))) in
  fst (fst first) = Ok tt /\ verbs (snd first) = [PUT; POST; POST; POST; PUT] /\
  fst (fst second) = Ok tt /\ verbs (snd second) = [PUT].
Proof. vm_compute. auto. Qed.

(** Witness of C9, amended: ten bytes in blocks of four, three of them missing.
    With callbacks whose generators yield once more than the count, the
    hash callback is created for 3 blocks and advanced 4 times, once at
    once and once after each read, and the upload callback likewise;
    outcome, final world and requests are those of the run without
    callbacks.  With a generator that yields once per item only, the
    run ends with [StopIteration]: before any request for the hash
    callback, after the three uploads for the upload callback. *)
Lemma create_object_progress_frame_witness :
  sink_ok (Some exact_cb) /\
  fst (sync 4 None (Some exact_cb) (Some exact_cb) (fresh "abcdefghij" []))
  = fst (sync 4 None None None (fresh "abcdefghij" [])) /\
  requests (snd (sync 4 None (Some exact_cb) (Some exact_cb) (fresh "abcdefghij" [])))
  = requests (snd (sync 4 None None None (fresh "abcdefghij" []))) /\
  snd (hashing 4 None (Some exact_cb) (fresh "abcdefghij" []))
  = [EvCallback HashSink 3; EvNext HashSink;
     EvRead 4 (text_bytes "abcd"); EvNext HashSink;
     EvRead 4 (text_bytes "efgh"); EvNext HashSink;
     EvRead 2 (text_bytes "ij"); EvNext HashSink] /\
  sink_events UploadSink
    (snd (sync 4 None (Some exact_cb) (Some exact_cb) (fresh "abcdefghij" [])))
  = EvCallback UploadSink 3 :: repeat (EvNext UploadSink) 4 /\
  fst (fst (sync 4 None (Some short_cb) (Some exact_cb) (fresh "abcdefghij" [])))
  = Raise StopIteration /\
  requests (snd (sync 4 None (Some short_cb) (Some exact_cb) (fresh "abcdefghij" [])))
  = [] /\
  fst (fst (sync 4 None (Some exact_cb) (Some short_cb) (fresh "abcdefghij" [])))
  = Raise StopIteration /\
  verbs (snd (sync 4 None (Some exact_cb) (Some short_cb) (fresh "abcdefghij" [])))
  = [PUT; POST; POST; POST] /\
  verbs (snd (sync 4 None None None (fresh "abcdefghij" [])))
  = [PUT; POST; POST; POST; PUT].
Proof.
  assert (sink_ok (Some exact_cb)) as Hok.
  { intros n. simpl. lia. }
  split; [exact Hok|].
  destruct (create_object_progress_frame
              plain_algorithms block_store block_store_handle (plain_container 4)
              false str_isspace me "obj" None (Some exact_cb) (Some exact_cb)
              (fresh "abcdefghij" []) Hok Hok)
    as (Hres & _ & Hreq & Hticks & Hup & Hhash_cut & Hupload_cut).
  split; [exact Hres|]. split; [exact Hreq|].
  split; [|split; [|split; [|split; [|split; [|split]]]]].
  - edestruct (Hticks exact_cb) as (g & _ & Htrace & _).
    + reflexivity.
    + vm_compute. reflexivity.
    + rewrite Htrace. vm_compute. reflexivity.
  - edestruct (Hup exact_cb) as (_ & Hsink).
    + reflexivity.
    + vm_compute. reflexivity.
    + vm_compute. reflexivity.
    + discriminate.
    + rewrite Hsink. reflexivity.
  - edestruct (Hhash_cut short_cb) as (Hcut & _).
    + vm_compute. reflexivity.
    + vm_compute. lia.
    + exact Hcut.
  - edestruct (Hhash_cut short_cb) as (_ & Hcut).
    + vm_compute. reflexivity.
    + vm_compute. lia.
    + exact Hcut.
  - edestruct (Hupload_cut short_cb) as (Hcut & _).
    + vm_compute. reflexivity.
    + vm_compute. reflexivity.
    + discriminate.
    + vm_compute. lia.
    + exact Hcut.
  - edestruct (Hupload_cut short_cb) as (_ & k & Hk & _ & Hcut).
    + vm_compute. reflexivity.
    + vm_compute. reflexivity.
    + discriminate.
    + vm_compute. lia.
    + injection Hk as <-. rewrite Hcut. vm_compute. reflexivity.
  - vm_compute. reflexivity.
Defined.

(** Counterexample to C9 as stated: a hash callback whose generator yields once
    per block and no more: the fourth [next] raises [StopIteration] and
    nothing is submitted, while the run without callback stores the
    object. *)
Lemma create_object_short_callback :
  fst (fst (sync 4 None (Some short_cb) None (fresh "abcdefghij" [])))
  = Raise StopIteration /\
  requests (snd (sync 4 None (Some short_cb) None (fresh "abcdefghij" []))) = [] /\
  fst (fst (sync 4 None None None (fresh "abcdefghij" []))) = Ok tt /\
  verbs (snd (sync 4 None None None (fresh "abcdefghij" [])))
  = [PUT; POST; POST; POST; PUT].
Proof. vm_compute. auto. Qed.

(** Witness of C7: for the block "ab" with the fingerprint "6162", a store
    that answers 202 with the fingerprint between blanks and a line end
    is accepted; one that answers 202 with another body, or with a
    status that is not 202, is not. *)
Lemma put_block_fails_iff_witness :
  trimmed str_isspace (" 6162 " +:+ String "010" "") "6162" /\
  put_ab (Response 202 (" 6162 " +:+ String "010" "") []) = Ok tt /\
  put_ab (Response 202 "6163" []) = Raise (AssertionError "Local hash does not match server") /\
  put_ab (Response 500 "6162" []) = Raise (ClientError 500).
Proof.
  assert (trimmed str_isspace (" 6162 " +:+ String "010" "") "6162") as Ht.
  { exists " ", (" " +:+ String "010" "").
    split; [reflexivity|]. split; [reflexivity|]. split; [reflexivity|]. split.
    - intros c rest [= <- _]. reflexivity.
    - intros init c H.
      do 4 (destruct init as [|? init];
            [vm_compute in H; first [discriminate H|inversion H; subst; reflexivity]|]).
      vm_compute in H. destruct init; discriminate H. }
  split; [exact Ht|]. split; [|split].
  - destruct (put_block_fails_iff scripted scripted_handle false str_isspace me
                (text_bytes "ab") "6162"
                (scripted_world "" [Response 202 (" 6162 " +:+ String "010" "") []]))
      as (_ & Hok & _).
    apply Hok. split; [reflexivity|exact Ht].
  - destruct (put_block_fails_iff scripted scripted_handle false str_isspace me
                (text_bytes "ab") "6162"
                (scripted_world "" [Response 202 "6163" []]))
      as (_ & _ & _ & _ & Hbody).
    apply Hbody; [reflexivity|].
    intros H. apply strip_trimmed in H. discriminate H.
  - destruct (put_block_fails_iff scripted scripted_handle false str_isspace me
                (text_bytes "ab") "6162"
                (scripted_world "" [Response 500 "6162" []]))
      as (_ & _ & _ & Hstatus & _).
    apply Hstatus. discriminate.
Defined.

(** Witness of C10: ten bytes in blocks of four, with a store that accepts every
    block: three requests, with bodies of 4, 4 and 2 bytes. *)
Lemma append_object_requests_witness :
  exists r w' t,
    append_object block_store block_store_handle (plain_container 4) false
                  me "obj" (fresh "abcdefghij" []) = (r, w', t) /\
    r = Ok tt /\
    List.map (fun u => (rq_verb (fst u), rq_payload (fst u),
                        rq_headers (fst u) !! "Content-Length")) (requests t)
    = [(POST, Data (text_bytes "abcd"), Some (HInt 4));
       (POST, Data (text_bytes "efgh"), Some (HInt 4));
       (POST, Data (text_bytes "ij"), Some (HInt 2))] /\
    exists k,
      Forall2 (post_of (object_url me "obj"))
              (take k [text_bytes "abcd"; text_bytes "efgh"; text_bytes "ij"])
              (requests t) /\
      k = 3%nat.
Proof.
  edestruct (append_object_requests
               block_store block_store_handle (plain_container 4) false
               me "obj" (fresh "abcdefghij" []))
    as (_ & _ & _ & (k & _ & Hposts & _ & Hfull) & _).
  - reflexivity.
  - by vm_compute.
  - vm_compute. reflexivity.
  - eexists _, _, _. split; [vm_compute; reflexivity|].
    split; [reflexivity|]. split; [vm_compute; reflexivity|].
    exists k. split; [exact Hposts|]. apply Hfull. reflexivity.
Defined.

(** C2.  The scenario of the design document, [overwrite_object] with
    start 5, end 14 and blocks of four on a source of twenty bytes: three
    windows are sent, and every one carries the [Content-Range] set
    before the loop, ["bytes 5-14/*"], not ranges that start at 5, 9 and
    13; with a collaborator that forgets the headers after a request,
    the second and third window carry no [Content-Range] at all. *)
Lemma overwrite_object_same_range :
  List.map (fun u => (rq_payload (fst u), rq_headers (fst u) !! "Content-Range"))
           (requests (snd (overwrite_object block_store block_store_handle
                                            (plain_container 4) false me "obj" 5 14
                                            (fresh "0123456789abcdefghij" []))))
  = [(Data (text_bytes "0123"), Some (HStr "bytes 5-14/*"));
     (Data (text_bytes "4567"), Some (HStr "bytes 5-14/*"));
     (Data (text_bytes "89"), Some (HStr "bytes 5-14/*"))] /\
  List.map (fun u => (rq_payload (fst u), rq_headers (fst u) !! "Content-Range"))
           (requests (snd (overwrite_object block_store block_store_handle
                                            (plain_container 4) true me "obj" 5 14
                                            (fresh "0123456789abcdefghij" []))))
  = [(Data (text_bytes "0123"), Some (HStr "bytes 5-14/*"));
     (Data (text_bytes "4567"), None);
     (Data (text_bytes "89"), None)].
Proof. vm_compute. auto. Qed.


(** * The command line *)

Lemma eqb_in_iff (x : string) (l : list string) :
  existsb (String.eqb x) l = true <-> x ∈ l.
Proof.
  rewrite existsb_exists. split.
  - intros (y & Hin & Heq). apply String.eqb_eq in Heq. subst y.
    apply list_elem_of_In. exact Hin.
  - intros Hin. exists x. split; [apply list_elem_of_In; exact Hin|apply String.eqb_refl].
Qed.

(** The loop over the candidate terms matches the terms of the class
    name greedily: it gets to the end of the name (with candidates to
    spare or not) exactly when what is left of the name is a
    subsequence of the candidates. *)
Lemma match_terms_sublist term_list terms : forall index,
  (index <= length term_list)%nat ->
  match match_terms term_list terms index with
  | None => True
  | Some j => j = length term_list
  end <-> drop index term_list `sublist_of` terms.
Proof.
  induction terms as [|term terms IH]; intros index Hle; cbn [match_terms].
  - split.
    + intros ->. rewrite drop_all. constructor.
    + intros Hsub. apply sublist_nil_r in Hsub.
      apply (f_equal length) in Hsub. rewrite length_drop in Hsub. simpl in Hsub. lia.
  - destruct (term_list !! index) as [t|] eqn:Et.
    + rewrite (drop_S _ _ _ Et).
      pose proof (lookup_lt_Some _ _ _ Et) as Hlt.
      destruct (String.eqb t term) eqn:Eq.
      * apply String.eqb_eq in Eq. subst term.
        rewrite IH by lia. split.
        -- apply sublist_skip.
        -- intros Hsub. apply sublist_cons_r in Hsub as [Hsub|(l' & [= <-] & Hsub)];
             [|exact Hsub].
           etransitivity; [|exact Hsub]. apply sublist_cons. reflexivity.
      * apply String.eqb_neq in Eq.
        rewrite IH by lia. rewrite (drop_S _ _ _ Et). split.
        -- apply sublist_cons.
        -- intros Hsub. apply sublist_cons_r in Hsub as [Hsub|(l' & [= -> _] & _)];
             [exact Hsub|congruence].
    + apply lookup_ge_None in Et.
      rewrite drop_ge by lia. split; [intros _; apply sublist_nil_l|auto].
Qed.

(** Which classes become commands.  With the three flags off, a class
    is let into the command tree exactly when the terms of its name
    (the name cut at every underscore) are a subsequence of the
    candidate terms: they all occur among the candidates, in the same
    order, other candidates between them or not. *)
Theorem allow_class_iff_subsequence globals has_command name :
  allow_all_commands globals = false ->
  allow_no_commands globals = false ->
  allow_subclass_signatures globals = false ->
  _allow_class_in_cmd_tree globals has_command name = true
  <-> str_split "_" name `sublist_of` candidate_command_terms globals.
Proof.
  intros Hall Hno Hsub. unfold _allow_class_in_cmd_tree.
  rewrite Hall, Hno, Hsub. cbv zeta.
  set (term_list := str_split "_" name).
  change (term_list `sublist_of` candidate_command_terms globals)
    with (drop 0 term_list `sublist_of` candidate_command_terms globals).
  rewrite <- match_terms_sublist by lia.
  destruct (match_terms _ _ 0) as [j|]; [|tauto].
  rewrite Nat.eqb_eq. reflexivity.
Qed.

(** The group of a command.  [get_command_group] returns the first of
    the unparsed arguments that names a group and takes exactly that
    one out of the list: the arguments before it (none of which names
    a group) and those after it stay, in their order, also when the
    same word comes again later.  When no argument names a group it
    returns [None] and leaves the list as it is. *)
Theorem get_command_group_first groups unparsed :
  match get_command_group groups unparsed with
  | (Some grp, rest) =>
      grp ∈ groups /\
      exists before after,
        unparsed = before ++ grp :: after /\
        rest = before ++ after /\
        Forall (fun x => x ∉ groups) before
  | (None, rest) =>
      rest = unparsed /\ Forall (fun x => x ∉ groups) unparsed
  end.
Proof.
  unfold get_command_group.
  induction unparsed as [|x unparsed IH]; simpl.
  - split; [reflexivity|constructor].
  - destruct (existsb (String.eqb x) groups) eqn:Ex.
    + apply eqb_in_iff in Ex. split; [exact Ex|].
      exists [], unparsed. simpl. rewrite String.eqb_refl.
      split; [reflexivity|]. split; [reflexivity|constructor].
    + assert (x ∉ groups) as Hx.
      { intros Hin. apply eqb_in_iff in Hin. congruence. }
      destruct (List.find _ unparsed) as [grp|].
      * destruct IH as (Hgrp & before & after & -> & Hrest & Hnone).
        split; [exact Hgrp|].
        exists (x :: before), after.
        split; [reflexivity|]. split; [|constructor; assumption].
        destruct (String.eqb x grp) eqn:E; [apply String.eqb_eq in E; congruence|].
        simpl. f_equal. exact Hrest.
      * destruct IH as (_ & Hnone). split; [reflexivity|constructor; assumption].
Qed.

Lemma sublist_cons_same (x : string) l k : x :: l `sublist_of` x :: k -> l `sublist_of` k.
Proof.
  intros Hsub. apply sublist_cons_r in Hsub as [Hsub|(l' & [= <-] & Hsub)]; [|exact Hsub].
  etransitivity; [|exact Hsub]. apply sublist_cons. reflexivity.
Qed.

(** [term_list[index]] raises [IndexError] exactly when what is left of
    the name is matched before the candidates run out. *)
Lemma match_terms_none term_list terms : forall index,
  (index <= length term_list)%nat ->
  match_terms term_list terms index = None
  <-> exists k, (k < length terms)%nat /\ drop index term_list `sublist_of` take k terms.
Proof.
  induction terms as [|term terms IH]; intros index Hle; cbn [match_terms].
  - split; [discriminate|]. intros (k & Hk & _). simpl in Hk. lia.
  - destruct (term_list !! index) as [t|] eqn:Et.
    + rewrite (drop_S _ _ _ Et).
      pose proof (lookup_lt_Some _ _ _ Et) as Hlt.
      destruct (String.eqb t term) eqn:Eq.
      * apply String.eqb_eq in Eq. subst term. rewrite IH by lia. split.
        -- intros (k & Hk & Hsub). exists (S k). simpl. split; [lia|].
           apply sublist_skip. exact Hsub.
        -- intros ([|k] & Hk & Hsub); simpl in *.
           ++ apply sublist_nil_r in Hsub. discriminate Hsub.
           ++ exists k. split; [lia|]. eapply sublist_cons_same. exact Hsub.
      * apply String.eqb_neq in Eq. rewrite IH by lia. rewrite (drop_S _ _ _ Et). split.
        -- intros (k & Hk & Hsub). exists (S k). simpl. split; [lia|].
           apply sublist_cons. exact Hsub.
        -- intros ([|k] & Hk & Hsub); simpl in *.
           ++ apply sublist_nil_r in Hsub. discriminate Hsub.
           ++ exists k. split; [lia|].
              apply sublist_cons_r in Hsub as [Hsub|(l' & [= -> _] & _)];
                [exact Hsub|congruence].
    + apply lookup_ge_None in Et. split; [intros _|reflexivity].
      exists 0%nat. simpl. split; [lia|]. rewrite drop_ge by lia. constructor.
Qed.

(** The loop ends with as many matches as there are candidates exactly
    when the candidates begin what is left of the name. *)
Lemma match_terms_all term_list terms : forall index j,
  match_terms term_list terms index = Some j ->
  (index <= j <= index + length terms)%nat /\
  (j = (index + length terms)%nat <-> terms `prefix_of` drop index term_list).
Proof.
  induction terms as [|term terms IH]; intros index j; cbn [match_terms].
  - intros [= <-]. simpl. split; [lia|]. split; [intros _; apply prefix_nil|lia].
  - destruct (term_list !! index) as [t|] eqn:Et; [|discriminate].
    rewrite (drop_S _ _ _ Et).
    destruct (String.eqb t term) eqn:Eq; intros Hm; apply IH in Hm as (Hj & Hiff); simpl.
    + apply String.eqb_eq in Eq. subst term. split; [lia|].
      rewrite <- Nat.add_succ_comm, Hiff. split.
      * apply prefix_cons.
      * apply prefix_cons_inv_2.
    + apply String.eqb_neq in Eq. split; [lia|]. split; [lia|].
      intros Hpre. apply prefix_cons_inv_1 in Hpre. congruence.
Qed.

(** Which classes are let in for the help of a command.  With
    [allow_subclass_signatures] set (and the two other flags off), a
    class is let in exactly when the terms of its name are matched
    before the candidates run out, or when its name begins with all the
    candidates, has at least one more term, and the command made of the
    candidates and the next term of the name is not in the command
    tree yet. *)
Theorem allow_subclass_signatures_levels globals has_command name :
  let term_list := str_split "_" name in
  let candidates := candidate_command_terms globals in
  allow_all_commands globals = false ->
  allow_no_commands globals = false ->
  allow_subclass_signatures globals = true ->
  _allow_class_in_cmd_tree globals has_command name = true
  <-> (exists k, (k < length candidates)%nat /\ term_list `sublist_of` take k candidates)
      \/ (candidates `prefix_of` term_list /\
          (length candidates < length term_list)%nat /\
          has_command (str_join "_" (take (S (length candidates)) term_list)) = false).
Proof.
  intros term_list candidates Hall Hno Hsub. unfold _allow_class_in_cmd_tree.
  rewrite Hall, Hno, Hsub. cbv zeta. fold term_list candidates.
  pose proof (match_terms_none term_list candidates 0 ltac:(lia)) as Hnone.
  rewrite drop_0 in Hnone.
  destruct (match_terms term_list candidates 0) as [j|] eqn:Em.
  - apply match_terms_all in Em as (Hj & Hiff). rewrite drop_0 in Hiff. simpl in Hiff.
    split.
    + intros Hres. right.
      destruct (j =? length candidates)%nat eqn:E1; [|discriminate Hres].
      destruct (j <? length term_list)%nat eqn:E2; [|discriminate Hres].
      apply Nat.eqb_eq in E1. apply Nat.ltb_lt in E2. subst j.
      simpl in Hres. apply negb_true_iff in Hres.
      rewrite Nat.add_1_r in Hres.
      split; [apply Hiff; reflexivity|]. split; [exact E2|exact Hres].
    + intros [Hk|(Hpre & Hlen & Hcmd)].
      * apply Hnone in Hk. discriminate Hk.
      * apply Hiff in Hpre. subst j.
        rewrite Nat.eqb_refl. apply Nat.ltb_lt in Hlen. rewrite Hlen. simpl.
        rewrite Nat.add_1_r, Hcmd. reflexivity.
  - split; [intros _; left; apply Hnone; reflexivity|reflexivity].
Qed.

(** The arguments "store list mycontainer": the class [store_list] is
    let into the tree; [list_store], the same terms in the other order,
    is not. *)
Lemma allow_class_iff_subsequence_witness :
  str_split "_" "store_list" = ["store"; "list"] /\
  _allow_class_in_cmd_tree (CliGlobals ["store"; "list"; "mycontainer"] false false false)
                           (fun _ => false) "store_list" = true /\
  _allow_class_in_cmd_tree (CliGlobals ["store"; "list"; "mycontainer"] false false false)
                           (fun _ => false) "list_store" = false.
Proof.
  split; [reflexivity|]. split; [|reflexivity].
  apply allow_class_iff_subsequence; [reflexivity|reflexivity|reflexivity|].
  change (["store"; "list"] `sublist_of` ["store"; "list"; "mycontainer"]).
  apply sublist_skip, sublist_skip, sublist_cons. constructor.
Defined.

(** The help of "server", when the tree holds [server_list] already:
    [server_info] is let in, [server_list] is not. *)
Lemma allow_subclass_signatures_levels_witness :
  _allow_class_in_cmd_tree (CliGlobals ["server"] false false true)
                           (String.eqb "server_list") "server_info" = true /\
  _allow_class_in_cmd_tree (CliGlobals ["server"] false false true)
                           (String.eqb "server_list") "server_list" = false.
Proof.
  split; [|reflexivity].
  apply allow_subclass_signatures_levels; [reflexivity|reflexivity|reflexivity|].
  right. split; [exists ["info"]; reflexivity|]. split; [simpl; lia|reflexivity].
Defined.

(** The group is taken out where it was found, and only there. *)
Lemma get_command_group_first_witness :
  get_command_group ["store"; "server"] ["-v"; "store"; "list"; "store"]
  = (Some "store", ["-v"; "list"; "store"]) /\
  exists before after,
    ["-v"; "store"; "list"; "store"] = before ++ "store" :: after /\
    ["-v"; "list"; "store"] = before ++ after /\
    Forall (fun x => x ∉ ["store"; "server"]) before.
Proof.
  split; [reflexivity|].
  pose proof (get_command_group_first ["store"; "server"]
                                      ["-v"; "store"; "list"; "store"]) as H.
  change (get_command_group ["store"; "server"] ["-v"; "store"; "list"; "store"])
    with (Some "store", ["-v"; "list"; "store"]) in H.
  destruct H as (_ & H). exact H.
Defined.
(** * The further properties on concrete inputs *)

(** Two lists of plain names: ["alice"; "bob"] is posted as
    "alice,bob", which the single name "alicebob" is not.  A name with
    a comma in it is not told apart from two names. *)
Lemma set_account_group_tells_users_witness :
  separated "" ["alice"; "bob"] = "alice,bob" /\
  separated "" ["alicebob"] = "alicebob" /\
  separated "" ["alice"; "bob"] <> separated "" ["alicebob"] /\
  separated "" ["a,b"] = separated "" ["a"; "b"].
Proof.
  split; [reflexivity|]. split; [reflexivity|]. split; [|reflexivity].
  apply set_account_group_tells_users.
  - repeat constructor; discriminate.
  - repeat constructor; discriminate.
  - discriminate.
Defined.

(** A container that declares blocks of 0 bytes. *)
Lemma zero_block_size_raises_witness :
  sync 0 None None None (fresh "abcd" []) = (Raise ZeroDivisionError, fresh "abcd" [], []) /\
  append_object block_store block_store_handle (plain_container 0) false me "obj"
                (fresh "abcd" [])
  = (Raise ZeroDivisionError, fresh "abcd" [], []) /\
  overwrite_object block_store block_store_handle (plain_container 0) false me "obj" 5 14
                   (fresh "abcd" [])
  = (Raise ZeroDivisionError, fresh "abcd" [], []).
Proof.
  apply (zero_block_size_raises plain_algorithms block_store block_store_handle
                                (plain_container 0) false str_isspace me "obj"
                                None None None 5 14 (fresh "abcd" [])).
  reflexivity.
Defined.

(** A file of ten bytes that stands at position 4, uploaded without a
    size: six bytes are hashed, ten are expected. *)
Lemma create_object_short_source_witness :
  exists w1 t1,
    sync 4 None None None (World block_store (File (text_bytes "abcdefghij") 4) ∅ [])
    = (Raise (AssertionError ""), w1, t1) /\
    total_read t1 = 6 /\
    requests t1 = [] /\
    w_store _ w1 = [].
Proof.
  edestruct (create_object_short_source
               plain_algorithms block_store block_store_handle (plain_container 4)
               false str_isspace me "obj" None None None
               (World block_store (File (text_bytes "abcdefghij") 4) ∅ [])
               (fun m => m))
    as (w1 & t1 & Hrun & Hreq & Hstore & Hread).
  - reflexivity.
  - exact I.
  - intros H; vm_compute in H; discriminate H.
  - vm_compute. reflexivity.
  - exists w1, t1. split; [exact Hrun|].
    split; [|split; [exact Hreq|exact Hstore]].
    apply Hread. reflexivity.
Defined.

(** No algorithm is known: ten bytes in blocks of four fail at the
    first block, after one read of four bytes; an empty source is
    submitted as the empty hash map. *)
Lemma create_object_unknown_algorithm_witness :
  (exists w1 t1,
      create_object (fun _ => None) block_store block_store_handle (plain_container 4)
                    false str_isspace me "obj" None None None (fresh "abcdefghij" [])
      = (Raise ValueError, w1, t1) /\
      requests t1 = [] /\
      t1 = [EvRead 4 (text_bytes "abcd")]) /\
  (exists r w2 t rq rs rest,
      create_object (fun _ => None) block_store block_store_handle (plain_container 4)
                    false str_isspace me "obj" None None None (fresh "" [])
      = (r, w2, t) /\
      requests t = (rq, rs) :: rest /\
      rq_verb rq = PUT /\
      rq_payload rq = Json 0 []).
Proof.
  split.
  - edestruct (create_object_unknown_algorithm
                 (fun _ => None) block_store block_store_handle (plain_container 4)
                 false str_isspace me "obj" None None None (fresh "abcdefghij" []))
      as (Hfails & _).
    + reflexivity.
    + exact I.
    + reflexivity.
    + destruct Hfails as (w1 & t1 & Hrun & Hreq & _); [reflexivity|].
      exists w1, t1. split; [exact Hrun|]. split; [exact Hreq|].
      vm_compute in Hrun. injection Hrun as _ <-. reflexivity.
  - edestruct (create_object_unknown_algorithm
                 (fun _ => None) block_store block_store_handle (plain_container 4)
                 false str_isspace me "obj" None None None (fresh "" []))
      as (_ & Hempty).
    + reflexivity.
    + exact I.
    + reflexivity.
    + apply Hempty. reflexivity.
Defined.

(** Ten bytes in blocks of four: the hash map lists the fingerprints of
    "abcd", "efgh" and "ij". *)
Lemma hash_pass_fingerprints_witness :
  exists s w1 t1,
    hashing 4 None None (fresh "abcdefghij" []) = (Ok (10, s), w1, t1) /\
    hs_hashes s = ["61626364"; "65666768"; "696a"] /\
    Forall2 (fun h block => pithos_hash plain_algorithms block "plain" = Ok h)
            (hs_hashes s)
            [text_bytes "abcd"; text_bytes "efgh"; text_bytes "ij"].
Proof.
  eexists _, _, _. split; [vm_compute; reflexivity|]. split; [reflexivity|].
  match goal with |- Forall2 _ (hs_hashes ?s) _ =>
    edestruct (hash_pass_fingerprints plain_algorithms block_store (plain_container 4) me
                                      None None (fresh "abcdefghij" []) 10 s)
      as (Hall & _)
  end.
  - reflexivity.
  - reflexivity.
  - vm_compute. reflexivity.
  - reflexivity.
  - exact Hall.
Defined.

(** The store asks for the fingerprint "ffff", which no block of the
    source bears. *)
Lemma create_object_unknown_fingerprint_witness :
  exists w2 t,
    scripted_sync 4 None None None (scripted_world "abcdefgh" [Response 409 "" ["ffff"]])
    = (Raise (KeyError "ffff"), w2, t) /\
    verbs t = [PUT] /\
    bodies t = [Json 8 ["61626364"; "65666768"]].
Proof.
  eexists _, _. split; [vm_compute; reflexivity|].
  split; [vm_compute; reflexivity|].
  edestruct (create_object_unknown_fingerprint
               plain_algorithms scripted scripted_handle (plain_container 4)
               false str_isspace me "obj" None None None
               (scripted_world "abcdefgh" [Response 409 "" ["ffff"]]))
    as (size & hashes & Hpayload & Hunknown).
  - vm_compute. reflexivity.
  - vm_compute. reflexivity.
  - reflexivity.
  - cbn [rq_payload] in Hpayload. injection Hpayload as <- <-.
    destruct (Hunknown "ffff") as (_ & _ & Hfirst).
    + apply (bool_decide_unpack _). vm_compute. exact I.
    + apply (bool_decide_unpack _). vm_compute. exact I.
    + destruct (Hfirst [] eq_refl I) as (_ & _). reflexivity.
Defined.

(** The store asks for the first block, takes it, and answers the
    second submission with 409 again. *)
Lemma create_object_resubmits_witness :
  exists w2 t rq rs up rq' rs',
    scripted_sync 4 None None None
                  (scripted_world "abcdefgh"
                     [Response 409 "" ["61626364"]; Response 202 "61626364" [];
                      Response 409 "" ["61626364"]])
    = (Raise (ClientError 409), w2, t) /\
    requests t = [(rq, rs); up; (rq', rs')] /\
    verbs t = [PUT; POST; PUT] /\
    rq_url rq' = rq_url rq /\
    rq_payload rq' = rq_payload rq /\
    status_code rs' = 409.
Proof.
  edestruct (create_object_resubmits
               plain_algorithms scripted scripted_handle (plain_container 4)
               false str_isspace me "obj" None None None
               (scripted_world "abcdefgh"
                  [Response 409 "" ["61626364"]; Response 202 "61626364" [];
                   Response 409 "" ["61626364"]]))
    as (_ & Hlast).
  - vm_compute. reflexivity.
  - vm_compute. reflexivity.
  - intros H; vm_compute in H; discriminate H.
  - match type of Hlast with context [[?u; (?rq', ?rs')] = _] =>
      destruct (Hlast [u] rq' rs' eq_refl eq_refl) as (_ & Hurl & Hpayload & _)
    end.
    eexists _, _, _, _, _, _, _.
    split; [vm_compute; reflexivity|]. split; [vm_compute; reflexivity|].
    split; [vm_compute; reflexivity|]. split; [exact Hurl|].
    split; [exact Hpayload|reflexivity].
Defined.

(** A source of six bytes written over the range 0-9 in blocks of four:
    three requests, the last without data. *)
Lemma overwrite_object_windows_witness :
  exists w' t,
    overwrite_object block_store block_store_handle (plain_container 4) false
                     me "obj" 0 9 (fresh "abcdef" [])
    = (Ok tt, w', t) /\
    bodies t = [Data (text_bytes "abcd"); Data (text_bytes "ef"); Data []] /\
    Forall2 (post_of (object_url me "obj"))
            [text_bytes "abcd"; text_bytes "ef"; []] (requests t).
Proof.
  eexists _, _. split; [vm_compute; reflexivity|]. split; [vm_compute; reflexivity|].
  edestruct (overwrite_object_windows
               block_store block_store_handle (plain_container 4) false
               me "obj" 0 9 (fresh "abcdef" []))
    as (_ & (k & Hk & Hposts & _ & Hfull) & _).
  - reflexivity.
  - reflexivity.
  - vm_compute. reflexivity.
  - pose proof (Hfull eq_refl) as Hk3. vm_compute in Hk3. subst k. exact Hposts.
Defined.

(** [append_object] of ten bytes in blocks of four, to a store that
    takes the first window and refuses the second. *)
Lemma range_writers_stop_at_rejection_witness :
  exists w' t pre u,
    append_object scripted scripted_handle (plain_container 4) false me "obj"
                  (scripted_world "abcdefghij" [Response 204 "" []; Response 403 "" []])
    = (Raise (ClientError 403), w', t) /\
    requests t = pre ++ [u] /\
    bodies t = [Data (text_bytes "abcd"); Data (text_bytes "efgh")] /\
    Forall (accepted [202; 204]) pre /\
    status_code u.2 = 403.
Proof.
  edestruct (range_writers_stop_at_rejection
               scripted scripted_handle (plain_container 4) false me "obj" 0 0
               (scripted_world "abcdefghij" [Response 204 "" []; Response 403 "" []]))
    as (pre & u & Hreq & Hpre & _ & He).
  - intros H; vm_compute in H; discriminate H.
  - left. vm_compute. reflexivity.
  - injection He as He.
    eexists _, _, pre, u. split; [vm_compute; reflexivity|]. split; [exact Hreq|].
    split; [vm_compute; reflexivity|]. split; [exact Hpre|]. symmetry. exact He.
Defined.


(** A file of ten bytes that stands at position 4, appended in blocks
    of four: "efgh", "ij", and a third request without data. *)
Lemma append_object_sends_remaining_witness :
  exists w' t,
    append_object block_store block_store_handle (plain_container 4) false me "obj"
                  (World block_store (File (text_bytes "abcdefghij") 4) ∅ [])
    = (Ok tt, w', t) /\
    bodies t = [Data (text_bytes "efgh"); Data (text_bytes "ij"); Data []] /\
    Forall (fun u => range_is "bytes */*" (rq_headers u.1)) (requests t).
Proof.
  eexists _, _. split; [vm_compute; reflexivity|]. split; [vm_compute; reflexivity|].
  edestruct (append_object_sends_remaining
               block_store block_store_handle (plain_container 4) false me "obj"
               (World block_store (File (text_bytes "abcdefghij") 4) ∅ []))
    as (_ & _ & Hranges & _).
  - reflexivity.
  - vm_compute. reflexivity.
  - exact Hranges.
Defined.

(** The users "alice" and "bob" set as the group "dev", on a store that
    answers 202. *)
Lemma set_account_group_joins_witness :
  exists w' rq rs,
    set_account_group scripted scripted_handle false me "dev" ["alice"; "bob"]
                      (scripted_world "" [Response 202 "" []])
    = (Ok tt, w', [EvRequest rq rs]) /\
    rq_url rq = Url ["user"] [("update", None)] /\
    rq_headers rq !! "X-Account-Group-dev" = Some (HStr "alice,bob").
Proof.
  destruct (set_account_group_joins scripted scripted_handle false me "dev"
                                    ["alice"; "bob"]
                                    (scripted_world "" [Response 202 "" []]))
    as ((w' & Hrun & _) & _).
  eexists w', _, _. split; [exact Hrun|]. split; [reflexivity|].
  vm_compute. reflexivity.
Defined.

(** Readers "u1" and "u2", writer "g1", posted to a store that answers
    204. *)
Lemma set_object_sharing_header_witness :
  exists w' rq rs,
    set_object_sharing scripted scripted_handle false me "obj" ["u1"; "u2"] ["g1"]
                       (scripted_world "" [Response 204 "" []])
    = (Ok tt, w', [EvRequest rq rs]) /\
    rq_verb rq = POST /\
    rq_payload rq = NoData /\
    rq_headers rq !! "X-Object-Sharing" = Some (HStr "read=u1,u2;write=g1").
Proof.
  destruct (set_object_sharing_header scripted scripted_handle false me "obj"
                                      ["u1"; "u2"] ["g1"]
                                      (scripted_world "" [Response 204 "" []]))
    as ((w' & Hrun & _) & _).
  eexists w', _, _. split; [exact Hrun|]. split; [reflexivity|].
  split; [reflexivity|]. vm_compute. reflexivity.
Defined.

(** Two pairs of metadata for the container, posted to a store that
    answers 202. *)
Lemma metadata_posted_once_witness :
  exists w' rq rs,
    set_container_meta scripted scripted_handle false me
                       (<["color" := HStr "blue"]> (<["rank" := HInt 3]> ∅))
                       (scripted_world "" [Response 202 "" []])
    = (Ok tt, w', [EvRequest rq rs]) /\
    rq_url rq = Url ["user"; "pithos"] [("update", None)] /\
    rq_headers rq !! "X-Container-Meta-color" = Some (HStr "blue") /\
    rq_headers rq !! "X-Container-Meta-rank" = Some (HInt 3).
Proof.
  destruct (metadata_posted_once scripted scripted_handle false me "obj"
                                 (<["color" := HStr "blue"]> (<["rank" := HInt 3]> ∅)))
    as (_ & Hset & _).
  destruct (Hset (scripted_world "" [Response 202 "" []]))
    as (headers & (Hpairs & _) & (w' & Hrun & _)).
  eexists w', _, _. split; [exact Hrun|]. split; [reflexivity|].
  split; apply Hpairs; vm_compute; reflexivity.
Defined.

(** An object published, on a store that answers 204: the answer is
    not one the operation takes. *)
Lemma policies_posted_once_witness :
  exists w' rq rs,
    publish_object scripted scripted_handle false me "obj"
                   (scripted_world "" [Response 204 "" []])
    = (Raise (ClientError 204), w', [EvRequest rq rs]) /\
    rq_url rq = Url ["user"; "pithos"; "obj"] [("update", None)] /\
    rq_headers rq !! "X-Object-Public" = Some (HBool true).
Proof.
  destruct (policies_posted_once scripted scripted_handle false me "obj" (HInt 0)
                                 (scripted_world "" [Response 204 "" []]))
    as (_ & _ & _ & _ & (w' & Hrun & _) & _).
  eexists w', _, _. split; [exact Hrun|]. split; [reflexivity|].
  vm_compute. reflexivity.
Defined.

(** An object cut to 100 bytes, with paths written with slashes. *)
Lemma truncate_object_request_witness :
  exists w' rq rs,
    truncate_object scripted scripted_handle false (fun u => slashed (u_path u))
                    me "obj" 100 (scripted_world "" [Response 204 "" []])
    = (Ok tt, w', [EvRequest rq rs]) /\
    rq_payload rq = NoData /\
    rq_headers rq !! "Content-Range" = Some (HStr "bytes 0-100/*") /\
    rq_headers rq !! "X-Object-Bytes" = Some (HInt 100) /\
    rq_headers rq !! "X-Source-Object" = Some (HStr "/pithos/obj").
Proof.
  destruct (truncate_object_request scripted scripted_handle false
                                    (fun u => slashed (u_path u)) me "obj" 100
                                    (scripted_world "" [Response 204 "" []]))
    as (w' & Hrun & _).
  eexists w', _, _. split; [exact Hrun|]. split; [reflexivity|].
  split; [vm_compute; reflexivity|]. split; vm_compute; reflexivity.
Defined.
